(** * Bad Apple player for STM32: a shallow embedding of the synchronisation
      and buffering core, and the properties of its specification.

    The C sources are embedded function by function.  Machine integers are
    [Z] with their wrap-around written out, structs are records, enums are
    inductive types, and stateful functions take the objects they mutate
    and return their new values.  The handle a function is called on and
    the buffers it writes into are present objects here: the guards
    against NULL on them are vacuous and left out.  Pointers that the code
    treats as optional ([audio->avsync], the [vol] and [file_info]
    arguments of [Media_Open], [media->vol]) are [option]s. *)

From Stdlib Require Import Ascii String ZArith List Bool Lia Permutation.
Import ListNotations.
Open Scope Z_scope.

(** ** Machine integers *)

Definition u8 (x : Z) : Z := x mod 2 ^ 8.
Definition u16 (x : Z) : Z := x mod 2 ^ 16.
Definition u32 (x : Z) : Z := x mod 2 ^ 32.

(** [(int32_t) x]: the two's complement reading of the low 32 bits (the
    conversion GCC documents; signed overflow wraps the same way on the
    Cortex-M4 target). *)
Definition i32 (x : Z) : Z :=
  let r := u32 x in if r <? 2 ^ 31 then r else r - 2 ^ 32.

(** ** av_sync.h / av_sync.c *)

Module AVSync.

Inductive AVSync_State :=
| AVSYNC_STATE_RESET
| AVSYNC_STATE_READY
| AVSYNC_STATE_RUNNING
| AVSYNC_STATE_STOPPED.

Inductive AVSync_Decision :=
| AVSYNC_NOT_STARTED
| AVSYNC_RENDER_FRAME
| AVSYNC_SKIP_FRAME
| AVSYNC_REPEAT_FRAME.

Definition is_running (s : AVSync_State) : bool :=
  match s with AVSYNC_STATE_RUNNING => true | _ => false end.

Definition AVSYNC_DEFAULT_MAX_DRIFT : Z := 2.

Record AVSync_Stats := mkStats {
  frames_skipped : Z;   (* uint32_t *)
  frames_repeated : Z;  (* uint32_t *)
  max_drift : Z;        (* int32_t *)
  min_drift : Z         (* int32_t *)
}.

Record AVSync_Handle := mkHandle {
  audio_sample_rate : Z;
  video_fps : Z;
  samples_per_frame : Z;
  max_drift_frames : Z;
  state : AVSync_State;
  audio_samples_played : Z;   (* volatile uint32_t, updated from the ISR *)
  video_frames_rendered : Z;
  stats : AVSync_Stats;
  initialized : bool
}.

Definition zero_stats : AVSync_Stats := mkStats 0 0 0 0.

(** [memset(sync, 0, sizeof(AVSync_Handle))] *)
Definition zero_handle : AVSync_Handle :=
  mkHandle 0 0 0 0 AVSYNC_STATE_RESET 0 0 zero_stats false.

Definition set_state (s : AVSync_Handle) (st : AVSync_State) : AVSync_Handle :=
  mkHandle (audio_sample_rate s) (video_fps s) (samples_per_frame s)
    (max_drift_frames s) st (audio_samples_played s)
    (video_frames_rendered s) (stats s) (initialized s).

Definition set_audio_samples_played (s : AVSync_Handle) (n : Z) : AVSync_Handle :=
  mkHandle (audio_sample_rate s) (video_fps s) (samples_per_frame s)
    (max_drift_frames s) (state s) n
    (video_frames_rendered s) (stats s) (initialized s).

Definition set_video_frames_rendered (s : AVSync_Handle) (n : Z) : AVSync_Handle :=
  mkHandle (audio_sample_rate s) (video_fps s) (samples_per_frame s)
    (max_drift_frames s) (state s) (audio_samples_played s)
    n (stats s) (initialized s).

Definition set_stats (s : AVSync_Handle) (t : AVSync_Stats) : AVSync_Handle :=
  mkHandle (audio_sample_rate s) (video_fps s) (samples_per_frame s)
    (max_drift_frames s) (state s) (audio_samples_played s)
    (video_frames_rendered s) t (initialized s).

Definition AVSync_Init (sync : AVSync_Handle)
    (sample_rate video_fps max_drift : Z) : AVSync_Handle :=
  if (sample_rate =? 0) || (video_fps =? 0) then sync
  else
    mkHandle sample_rate video_fps (sample_rate / video_fps)
      (if 0 <? max_drift then max_drift else AVSYNC_DEFAULT_MAX_DRIFT)
      AVSYNC_STATE_READY 0 0 zero_stats true.

Definition AVSync_Start (sync : AVSync_Handle) : AVSync_Handle :=
  if negb (initialized sync) then sync
  else
    (* reset playback counters and statistics *)
    mkHandle (audio_sample_rate sync) (video_fps sync)
      (samples_per_frame sync) (max_drift_frames sync)
      AVSYNC_STATE_RUNNING 0 0 zero_stats (initialized sync).

Definition AVSync_Stop (sync : AVSync_Handle) : AVSync_Handle :=
  set_state sync AVSYNC_STATE_STOPPED.

Definition AVSync_AudioTick (sync : AVSync_Handle) (samples : Z) : AVSync_Handle :=
  if negb (is_running (state sync)) then sync
  else set_audio_samples_played sync (u32 (audio_samples_played sync + samples)).

(** The drift of the decision: both frame indices are cast to [int32_t]
    and subtracted. *)
Definition drift_of (sync : AVSync_Handle) : Z :=
  (* for samples_per_frame = 0 the C division is undefined; Z's is 0 *)
  let audio_frame := audio_samples_played sync / samples_per_frame sync in
  let video_frame := video_frames_rendered sync in
  i32 (i32 video_frame - i32 audio_frame).

Definition AVSync_GetFrameDecision (sync : AVSync_Handle)
    : AVSync_Decision * AVSync_Handle :=
  if negb (is_running (state sync)) then (AVSYNC_NOT_STARTED, sync)
  else
    let drift := drift_of sync in
    (* update drift statistics *)
    let st := stats sync in
    let st := if max_drift st <? drift
              then mkStats (frames_skipped st) (frames_repeated st) drift (min_drift st)
              else st in
    let st := if drift <? min_drift st
              then mkStats (frames_skipped st) (frames_repeated st) (max_drift st) drift
              else st in
    let sync' := set_stats sync st in
    if drift <? i32 (- i32 (max_drift_frames sync)) then (AVSYNC_SKIP_FRAME, sync')
    else if i32 (max_drift_frames sync) <? drift then (AVSYNC_REPEAT_FRAME, sync')
    else (AVSYNC_RENDER_FRAME, sync').

Definition AVSync_FrameRendered (sync : AVSync_Handle) : AVSync_Handle :=
  set_video_frames_rendered sync (u32 (video_frames_rendered sync + 1)).

Definition AVSync_FrameSkipped (sync : AVSync_Handle) : AVSync_Handle :=
  let s := set_video_frames_rendered sync (u32 (video_frames_rendered sync + 1)) in
  let st := stats s in
  set_stats s (mkStats (u32 (frames_skipped st + 1)) (frames_repeated st)
                       (max_drift st) (min_drift st)).

Definition AVSync_GetCurrentFrame (sync : AVSync_Handle) : Z :=
  if samples_per_frame sync =? 0 then 0
  else audio_samples_played sync / samples_per_frame sync.

(** The calls a client can make on a synchroniser, and a run of them. *)
Inductive Sync_Op :=
| Op_AudioTick (samples : Z)
| Op_GetFrameDecision
| Op_FrameRendered
| Op_FrameSkipped
| Op_Start
| Op_Stop.

Definition sync_step (s : AVSync_Handle) (op : Sync_Op) : AVSync_Handle :=
  match op with
  | Op_AudioTick n => AVSync_AudioTick s n
  | Op_GetFrameDecision => snd (AVSync_GetFrameDecision s)
  | Op_FrameRendered => AVSync_FrameRendered s
  | Op_FrameSkipped => AVSync_FrameSkipped s
  | Op_Start => AVSync_Start s
  | Op_Stop => AVSync_Stop s
  end.

Definition sync_run (s : AVSync_Handle) (ops : list Sync_Op) : AVSync_Handle :=
  fold_left sync_step ops s.

Definition is_tick (op : Sync_Op) : bool :=
  match op with Op_AudioTick _ => true | _ => false end.

Definition is_start (op : Sync_Op) : bool :=
  match op with Op_Start => true | _ => false end.

(** Samples deposited by the ticks of a run. *)
Fixpoint ticked (ops : list Sync_Op) : Z :=
  match ops with
  | [] => 0
  | Op_AudioTick n :: r => n + ticked r
  | _ :: r => ticked r
  end.

(** Every tick of the run carries a [uint32_t] value. *)
Fixpoint ticks_u32 (ops : list Sync_Op) : Prop :=
  match ops with
  | [] => True
  | Op_AudioTick n :: r => 0 <= n < 2 ^ 32 /\ ticks_u32 r
  | _ :: r => ticks_u32 r
  end.

(** A running synchroniser whose video index has reached 2^31:
    one sample per frame, the default drift band, no audio played yet. *)
Definition sync_far_ahead : AVSync_Handle :=
  mkHandle 1 1 1 2 AVSYNC_STATE_RUNNING 0 (2 ^ 31) zero_stats true.

(** Playback at 32 kHz and 30 fps, two half-buffers played. *)
Definition sync_playing : AVSync_Handle :=
  sync_run (AVSync_Start (AVSync_Init zero_handle 32000 30 0))
    [Op_AudioTick 2048; Op_AudioTick 2048].

Definition AVSync_GetCurrentDrift (sync : AVSync_Handle) : Z :=
  if samples_per_frame sync =? 0 then 0 else drift_of sync.

(** Frames a run commits to (rendered or skipped), and frames it skips. *)
Fixpoint frames_committed (ops : list Sync_Op) : Z :=
  match ops with
  | [] => 0
  | Op_FrameRendered :: r => 1 + frames_committed r
  | Op_FrameSkipped :: r => 1 + frames_committed r
  | _ :: r => frames_committed r
  end.

Fixpoint frames_dropped (ops : list Sync_Op) : Z :=
  match ops with
  | [] => 0
  | Op_FrameSkipped :: r => 1 + frames_dropped r
  | _ :: r => frames_dropped r
  end.

(** The drift statistics bracket zero. *)
Definition drift_envelope (s : AVSync_Handle) : Prop :=
  min_drift (stats s) <= 0 <= max_drift (stats s).

(** Video three frames behind at 32 kHz / 30 fps: four half-buffers played,
    four frames committed. *)
Definition sync_behind : AVSync_Handle :=
  sync_run (AVSync_Start (AVSync_Init zero_handle 32000 30 0))
    [Op_AudioTick 2048; Op_AudioTick 2048; Op_AudioTick 2048; Op_AudioTick 2048;
     Op_FrameRendered; Op_FrameRendered; Op_FrameRendered; Op_FrameRendered].

End AVSync.

(** ** audio_dac.h / audio_dac.c *)

Module Audio.

Definition AUDIO_BUFFER_SAMPLES : Z := 2048.
Definition AUDIO_HALF_BUFFER_SAMPLES : Z := AUDIO_BUFFER_SAMPLES.
Definition AUDIO_FULL_BUFFER_SAMPLES : Z := AUDIO_BUFFER_SAMPLES * 2.
Definition AUDIO_DAC_SILENCE : Z := 2048.

Inductive Audio_State :=
| AUDIO_STATE_RESET
| AUDIO_STATE_READY
| AUDIO_STATE_PLAYING
| AUDIO_STATE_ERROR.

Inductive Audio_BufferHalf :=
| AUDIO_BUFFER_FIRST_HALF
| AUDIO_BUFFER_SECOND_HALF.

Record Audio_Stats := mkStats {
  samples_played : Z;   (* total samples output *)
  refill_count : Z;     (* times buffer was refilled *)
  underrun_count : Z    (* times buffer wasn't ready in time *)
}.

(** The HAL handles [hdac] and [htim] are opaque hardware and left out.
    [avsync] holds the synchroniser the handle points to, if any. *)
Record Audio_Handle := mkHandle {
  avsync : option AVSync.AVSync_Handle;
  needs_refill : bool;
  fill_half : Audio_BufferHalf;
  state : Audio_State;
  stats : Audio_Stats;
  initialized : bool
}.

(** [audio_Init]: the handle after the memset and the initial stores. *)
Definition audio_Init : Audio_Handle :=
  mkHandle None false AUDIO_BUFFER_FIRST_HALF AUDIO_STATE_READY
    (mkStats 0 0 0) true.

Definition audio_SetAVSync (audio : Audio_Handle)
    (sync : option AVSync.AVSync_Handle) : Audio_Handle :=
  mkHandle sync (needs_refill audio) (fill_half audio) (state audio)
    (stats audio) (initialized audio).

Definition audio_Start (audio : Audio_Handle) : Audio_Handle :=
  if negb (initialized audio) then audio
  else mkHandle (avsync audio) (needs_refill audio) (fill_half audio)
         AUDIO_STATE_PLAYING (stats audio) (initialized audio).

(** The DMA half-transfer / transfer-complete handler of the LEFT channel. *)
Definition audio_HandleDMA (audio : Audio_Handle) (is_half_transfer : bool)
    : Audio_Handle :=
  if negb (initialized audio) then audio
  else
    let fh := if is_half_transfer then AUDIO_BUFFER_FIRST_HALF
              else AUDIO_BUFFER_SECOND_HALF in
    let sync' := match avsync audio with
                 | Some s => Some (AVSync.AVSync_AudioTick s AUDIO_HALF_BUFFER_SAMPLES)
                 | None => None
                 end in
    let st := stats audio in
    mkHandle sync' true fh (state audio)
      (mkStats (u32 (samples_played st + AUDIO_HALF_BUFFER_SAMPLES))
               (refill_count st) (underrun_count st))
      (initialized audio).



Definition audio_BufferFilled (audio : Audio_Handle) : Audio_Handle :=
  let st := stats audio in
  mkHandle (avsync audio) false (fill_half audio) (state audio)
    (mkStats (samples_played st) (u32 (refill_count st + 1)) (underrun_count st))
    (initialized audio).

(** Underrun scenario: the first half-complete interrupt has fired and the
    foreground has not refilled yet. *)
Definition audio_pending : Audio_Handle :=
  audio_HandleDMA (audio_Start audio_Init) true.

(** The events of the audio path: the two interrupts of the LEFT channel
    ([HAL_DAC_ConvHalfCpltCallbackCh1], [HAL_DAC_ConvCpltCallbackCh1]; the
    callbacks of the RIGHT channel do nothing) and the foreground's
    [audio_BufferFilled]. *)
Inductive Audio_Op :=
| Op_HalfComplete
| Op_Complete
| Op_BufferFilled.

Definition audio_step (a : Audio_Handle) (op : Audio_Op) : Audio_Handle :=
  match op with
  | Op_HalfComplete => audio_HandleDMA a true
  | Op_Complete => audio_HandleDMA a false
  | Op_BufferFilled => audio_BufferFilled a
  end.

Definition audio_run (a : Audio_Handle) (ops : list Audio_Op) : Audio_Handle :=
  fold_left audio_step ops a.

Fixpoint interrupts (ops : list Audio_Op) : Z :=
  match ops with
  | [] => 0
  | Op_BufferFilled :: r => interrupts r
  | _ :: r => 1 + interrupts r
  end.

Fixpoint refills (ops : list Audio_Op) : Z :=
  match ops with
  | [] => 0
  | Op_BufferFilled :: r => 1 + refills r
  | _ :: r => refills r
  end.

(** The sample count of the attached synchroniser, if any. *)
Definition sync_samples (a : Audio_Handle) : option Z :=
  match avsync a with
  | Some s => Some (AVSync.audio_samples_played s)
  | None => None
  end.

Definition sync_running (a : Audio_Handle) : bool :=
  match avsync a with
  | Some s => AVSync.is_running (AVSync.state s)
  | None => false
  end.

(** The handle of main.c at the start of playback: a running synchroniser
    attached. *)
Definition audio_playing : Audio_Handle :=
  audio_Start
    (audio_SetAVSync audio_Init
       (Some (AVSync.AVSync_Start (AVSync.AVSync_Init AVSync.zero_handle 32000 30 0)))).

End Audio.

(** ** buffers.h / buffers.c: the triple-buffered display state *)

Module Display.

Record TripleBuffer_State := mkState {
  render : Z;               (* uint8_t index: main loop renders here *)
  ready : Z;                (* uint8_t index: completed, awaiting transfer *)
  transfer : Z;             (* uint8_t index: being sent by DMA *)
  transfer_busy : bool;
  frames_rendered : Z;      (* uint32_t *)
  frames_transferred : Z    (* uint32_t *)
}.

Definition g_display_buffers : TripleBuffer_State :=
  mkState 0 2 1 false 0 0.

Definition Display_SwapBuffers (s : TripleBuffer_State) : TripleBuffer_State :=
  let old_ready := ready s in
  mkState old_ready (render s) (transfer s) (transfer_busy s)
    (u32 (frames_rendered s + 1)) (frames_transferred s).

Definition Display_HasFrame (s : TripleBuffer_State) : bool :=
  frames_transferred s <? frames_rendered s.

Definition Display_StartTransfer (s : TripleBuffer_State)
    : bool * TripleBuffer_State :=
  if transfer_busy s then (false, s)
  else if negb (Display_HasFrame s) then (false, s)
  else
    let old_transfer := transfer s in
    (true, mkState (render s) old_transfer (ready s) true
             (frames_rendered s) (frames_transferred s)).

Definition Display_TransferComplete (s : TripleBuffer_State) : TripleBuffer_State :=
  mkState (render s) (ready s) (transfer s) false
    (frames_rendered s) (u32 (frames_transferred s + 1)).

Inductive Display_Op :=
| Op_SwapBuffers
| Op_StartTransfer
| Op_TransferComplete.

Definition display_step (s : TripleBuffer_State) (op : Display_Op)
    : TripleBuffer_State :=
  match op with
  | Op_SwapBuffers => Display_SwapBuffers s
  | Op_StartTransfer => snd (Display_StartTransfer s)
  | Op_TransferComplete => Display_TransferComplete s
  end.

Definition display_run (s : TripleBuffer_State) (ops : list Display_Op)
    : TripleBuffer_State :=
  fold_left display_step ops s.

(** The three roles hold the three slots. *)
Definition roles_distinct (s : TripleBuffer_State) : Prop :=
  Permutation [render s; ready s; transfer s] [0; 1; 2].

End Display.

(** ** Byte buffers *)

(** [buf[i]] *)
Definition byte_at (buf : list Z) (i : Z) : Z := nth (Z.to_nat i) buf 0.

(** A [uint8_t] value. *)
Definition is_byte (b : Z) : Prop := 0 <= b < 256.

(** [buf[i] = x]; a store beyond the extent of [buf] (undefined in C) is
    dropped. *)
Fixpoint list_set {A : Type} (l : list A) (i : nat) (x : A) : list A :=
  match l, i with
  | [], _ => []
  | _ :: t, O => x :: t
  | h :: t, S j => h :: list_set t j x
  end.

(** [memcpy(buf + pos, data, |data|)]; bytes that would land beyond the
    extent of [buf] are dropped. *)
Definition write_at (buf : list Z) (pos : Z) (data : list Z) : list Z :=
  let p := Z.to_nat pos in
  firstn p buf ++ firstn (length buf - p) data ++ skipn (p + length data) buf.

(** The [len] bytes of [buf] from [off] on. *)
Definition slice (buf : list Z) (off len : Z) : list Z :=
  firstn (Z.to_nat len) (skipn (Z.to_nat off) buf).

(** [for (i = from; i < from + n; i++) buf[i] = x] *)
Fixpoint fill_range (buf : list Z) (from n : nat) (x : Z) : list Z :=
  match n with
  | O => buf
  | S n' => fill_range (list_set buf from x) (S from) n' x
  end.

(** [b] is [a] but for the window [from .. from + len - 1]. *)
Definition same_outside (a b : list Z) (from len : Z) : Prop :=
  length b = length a /\
  forall j, Z.of_nat j < from \/ from + len <= Z.of_nat j -> nth j b 0 = nth j a 0.

(** ** sd_card.h / sd_card.c: the block device

    The SPI dialogue with the card is hardware.  What the callers observe
    is kept: which read commands are issued, in order, and for each block
    either its 512 bytes or a failure. *)

Module SD.

Definition SD_BLOCK_SIZE : Z := 512.

Inductive SD_Status := SD_OK | SD_ERROR | SD_ERROR_TIMEOUT | SD_ERROR_NO_CARD.

Definition is_ok (s : SD_Status) : bool :=
  match s with SD_OK => true | _ => false end.

Inductive SD_Command :=
| CMD17 (block : Z)                (* READ_SINGLE_BLOCK *)
| CMD18 (start_block count : Z).   (* READ_MULTIPLE_BLOCK, count blocks *)

Record SD_Handle := mkHandle {
  initialized : bool;
  card : Z -> option (list Z);   (* the block at an LBA, None: the transfer fails *)
  commands : list SD_Command     (* read commands sent so far, oldest first *)
}.

Definition issue (hsd : SD_Handle) (c : SD_Command) : SD_Handle :=
  mkHandle (initialized hsd) (card hsd) (commands hsd ++ [c]).

(** The DMA moves exactly SD_BLOCK_SIZE bytes. *)
Definition block_data (d : list Z) : list Z := firstn 512 (d ++ repeat 0 512).

Definition SD_ReadBlock (hsd : SD_Handle) (buffer : list Z) (pos : Z) (block : Z)
    : SD_Status * SD_Handle * list Z :=
  if negb (initialized hsd) then (SD_ERROR, hsd, buffer)
  else
    match card hsd block with
    | Some d => (SD_OK, issue hsd (CMD17 block), write_at buffer pos (block_data d))
    | None => (SD_ERROR, issue hsd (CMD17 block), buffer)
    end.

(** The block loop of CMD18: it stops at the first block that fails. *)
Fixpoint read_stream (hsd : SD_Handle) (buffer : list Z) (pos block : Z) (n : nat)
    : SD_Status * list Z :=
  match n with
  | O => (SD_OK, buffer)
  | S n' =>
      match card hsd block with
      | Some d =>
          read_stream hsd (write_at buffer pos (block_data d))
            (pos + SD_BLOCK_SIZE) (block + 1) n'
      | None => (SD_ERROR, buffer)
      end
  end.

Definition SD_ReadMultipleBlocks (hsd : SD_Handle) (buffer : list Z) (pos : Z)
    (start_block count : Z) : SD_Status * SD_Handle * list Z :=
  if negb (initialized hsd) || (count =? 0) then (SD_ERROR, hsd, buffer)
  else if count =? 1 then SD_ReadBlock hsd buffer pos start_block
  else
    let '(st, buf) := read_stream hsd buffer pos start_block (Z.to_nat count) in
    (st, issue hsd (CMD18 start_block count), buf).

(** The bytes of [n] consecutive blocks from [block] on, when all of them
    read. *)
Fixpoint device_bytes (card : Z -> option (list Z)) (block : Z) (n : nat)
    : option (list Z) :=
  match n with
  | O => Some []
  | S n' =>
      match card block, device_bytes card (block + 1) n' with
      | Some d, Some r => Some (block_data d ++ r)
      | _, _ => None
      end
  end.



(** Every block of the card is 512 bytes or fewer, each a [uint8_t]. *)
Definition card_bytes (hsd : SD_Handle) : Prop :=
  forall lba d, card hsd lba = Some d -> Forall is_byte d.

End SD.

(** ** fatfs.h / fatfs.c *)

Module FAT.

Definition FAT_SECTOR_SIZE : Z := SD.SD_BLOCK_SIZE.
Definition FAT_MAX_FILENAME : nat := 11.
Definition FAT_CLUSTER_END : Z := 0x0FFFFFF8.

Inductive FAT_Status :=
| FAT_OK
| FAT_ERROR
| FAT_ERROR_READ
| FAT_ERROR_NOT_FOUND
| FAT_ERROR_INVALID_PARAM.

Record FAT_BootSector := mkBoot {
  bytes_per_sector : Z;
  sectors_per_cluster : Z;   (* uint8_t *)
  reserved_sectors : Z;
  num_fats : Z;
  sectors_per_fat : Z;
  root_cluster : Z;
  total_sectors : Z;
  partition_lba : Z;
  fat_start_sector : Z;
  data_start_sector : Z
}.

(** [hsd] holds the card handle the volume points to. *)
Record FAT_Volume := mkVolume {
  hsd : SD.SD_Handle;
  boot : FAT_BootSector;
  sector_buffer : list Z;    (* 512-byte scratch buffer *)
  mounted : bool
}.

Record FAT_FileInfo := mkFileInfo {
  first_cluster : Z;
  size : Z;
  attributes : Z
}.

Definition FAT_Read16 (buf : list Z) (offset : Z) : Z :=
  u16 (Z.lor (byte_at buf offset) (Z.shiftl (byte_at buf (offset + 1)) 8)).

Definition FAT_Read32 (buf : list Z) (offset : Z) : Z :=
  u32 (Z.lor (Z.lor (Z.lor (byte_at buf offset)
                           (Z.shiftl (byte_at buf (offset + 1)) 8))
                    (Z.shiftl (byte_at buf (offset + 2)) 16))
             (Z.shiftl (byte_at buf (offset + 3)) 24)).

Definition FAT_IsEndOfChain (cluster : Z) : bool :=
  (cluster <? 2) || (FAT_CLUSTER_END <=? cluster).

Definition FAT_GetClusterSize (vol : option FAT_Volume) : Z :=
  match vol with
  | None => 0
  | Some v =>
      if negb (mounted v) then 0
      else u32 (sectors_per_cluster (boot v) * FAT_SECTOR_SIZE)
  end.

(** Reading a sector into the scratch buffer of the volume. *)
Definition read_sector (vol : FAT_Volume) (sector : Z) : SD.SD_Status * FAT_Volume :=
  let '(st, h, sb) := SD.SD_ReadBlock (hsd vol) (sector_buffer vol) 0 sector in
  (st, mkVolume h (boot vol) sb (mounted vol)).

Definition FAT_GetNextCluster (vol : FAT_Volume) (cluster : Z) : Z * FAT_Volume :=
  if negb (mounted vol) || (cluster <? 2) then (0, vol)
  else
    let fat_offset := u32 (cluster * 4) in
    let fat_sector := u32 (fat_start_sector (boot vol) + fat_offset / FAT_SECTOR_SIZE) in
    let entry_offset := fat_offset mod FAT_SECTOR_SIZE in
    let '(st, vol') := read_sector vol fat_sector in
    if negb (SD.is_ok st) then (0, vol')
    else (Z.land (FAT_Read32 (sector_buffer vol') entry_offset) 0x0FFFFFFF, vol').

Definition FAT_ClusterToSector (vol : FAT_Volume) (cluster : Z) : Z :=
  if negb (mounted vol) || (cluster <? 2) then 0
  else u32 (data_start_sector (boot vol)
            + u32 ((cluster - 2) * sectors_per_cluster (boot vol))).

(** *** FAT_Mount *)

Definition zero_boot : FAT_BootSector := mkBoot 0 0 0 0 0 0 0 0 0 0.

Definition set_boot (vol : FAT_Volume) (b : FAT_BootSector) : FAT_Volume :=
  mkVolume (hsd vol) b (sector_buffer vol) (mounted vol).

Definition set_mounted (vol : FAT_Volume) (m : bool) : FAT_Volume :=
  mkVolume (hsd vol) (boot vol) (sector_buffer vol) m.

(** [buf[510] == 0x55 && buf[511] == 0xAA] *)
Definition boot_signature (buf : list Z) : bool :=
  (byte_at buf 510 =? 0x55) && (byte_at buf 511 =? 0xAA).

(** The BIOS parameter block as [FAT_Mount] parses it out of the boot
    sector in [buf], the two computed fields still zero. *)
Definition parse_bpb (buf : list Z) (lba : Z) : FAT_BootSector :=
  mkBoot (FAT_Read16 buf 11) (byte_at buf 13) (FAT_Read16 buf 14)
         (byte_at buf 16) (FAT_Read32 buf 36) (FAT_Read32 buf 44)
         (FAT_Read32 buf 32) lba 0 0.

(** [fat_start_sector] and [data_start_sector], in 32-bit arithmetic. *)
Definition locate_regions (b : FAT_BootSector) : FAT_BootSector :=
  let fat_start := u32 (partition_lba b + reserved_sectors b) in
  mkBoot (bytes_per_sector b) (sectors_per_cluster b) (reserved_sectors b)
         (num_fats b) (sectors_per_fat b) (root_cluster b) (total_sectors b)
         (partition_lba b) fat_start
         (u32 (fat_start + u32 (num_fats b * sectors_per_fat b))).

(** [vol] and [hsd] are the two pointers; the volume written is returned.
    The card handle is the one the volume points to from the [memset] on. *)
Definition FAT_Mount (vol : option FAT_Volume) (h : option SD.SD_Handle)
    : FAT_Status * option FAT_Volume :=
  match vol, h with
  | Some _, Some h =>
      if negb (SD.initialized h) then (FAT_ERROR_INVALID_PARAM, vol)
      else
        let v := mkVolume h zero_boot (repeat 0 512) false in
        let '(st, v) := read_sector v 0 in
        if negb (SD.is_ok st) then (FAT_ERROR_READ, Some v)
        else if negb (boot_signature (sector_buffer v)) then (FAT_ERROR, Some v)
        else
          let lba := FAT_Read32 (sector_buffer v) (0x1BE + 8) in
          let v := set_boot v (mkBoot 0 0 0 0 0 0 0 lba 0 0) in
          let '(st, v) := read_sector v lba in
          if negb (SD.is_ok st) then (FAT_ERROR_READ, Some v)
          else if negb (boot_signature (sector_buffer v)) then (FAT_ERROR, Some v)
          else
            let v := set_boot v (parse_bpb (sector_buffer v) lba) in
            if negb (bytes_per_sector (boot v) =? FAT_SECTOR_SIZE) then (FAT_ERROR, Some v)
            else if sectors_per_cluster (boot v) =? 0 then (FAT_ERROR, Some v)
            else if num_fats (boot v) =? 0 then (FAT_ERROR, Some v)
            else
              let v := set_boot v (locate_regions (boot v)) in
              (FAT_OK, Some (set_mounted v true))
  | _, _ => (FAT_ERROR_INVALID_PARAM, vol)
  end.

(** *** FAT_ConvertFilename *)

Definition toupper (c : ascii) : ascii :=
  let n := N_of_ascii c in
  if ((97 <=? n) && (n <=? 122))%N then ascii_of_N (n - 32) else c.

Definition is_nul (c : ascii) : bool := Ascii.eqb c zero.
Definition is_dot (c : ascii) : bool := Ascii.eqb c "."%char.

(** [memset(output, c, n)] *)
Fixpoint memset (output : list ascii) (c : ascii) (n : nat) : list ascii :=
  match n, output with
  | S n', _ :: t => c :: memset t c n'
  | _, _ => output
  end.

(** The name loop.  [input] is the rest of the C string from index [i]
    on (its end stands for the terminating NUL); the result is the rest
    left unread and the output. *)
Fixpoint copy_name (input : string) (o : nat) (output : list ascii)
    : string * list ascii :=
  match input with
  | String c rest =>
      if is_nul c || is_dot c || negb (o <? 8)%nat then (input, output)
      else copy_name rest (S o) (list_set output o (toupper c))
  | EmptyString => (input, output)
  end.

(** [while (input[i] && input[i] != '.') i++;] *)
Fixpoint skip_to_dot (input : string) : string :=
  match input with
  | String c rest => if is_nul c || is_dot c then input else skip_to_dot rest
  | EmptyString => input
  end.

(** [if (input[i] == '.') i++;] *)
Definition skip_dot (input : string) : string :=
  match input with
  | String c rest => if is_dot c then rest else input
  | EmptyString => input
  end.

(** The extension loop. *)
Fixpoint copy_ext (input : string) (o : nat) (output : list ascii) : list ascii :=
  match input with
  | String c rest =>
      if is_nul c || negb (o <? 11)%nat then output
      else copy_ext rest (S o) (list_set output o (toupper c))
  | EmptyString => output
  end.

Definition FAT_ConvertFilename (input : string) (output : list ascii) : list ascii :=
  let output := memset output " "%char FAT_MAX_FILENAME in
  let '(input, output) := copy_name input 0 output in
  let input := skip_dot (skip_to_dot input) in
  copy_ext input 8 output.

(** An 11-byte buffer to convert into. *)
Definition name_buffer : list ascii := repeat zero FAT_MAX_FILENAME.

(** A canonical 8.3 directory name: 8 name bytes and 3 extension bytes,
    none of them a dot, a NUL or a lower-case letter. *)
Definition canonical_char (c : ascii) : bool :=
  negb (is_nul c) && negb (is_dot c) && Ascii.eqb (toupper c) c.

Definition canonical83 (name ext : list ascii) : Prop :=
  length name = 8%nat /\ length ext = 3%nat /\
  forallb canonical_char (name ++ ext) = true.

(** The 8.3 directory name of [name.ext]: each part upper-cased, cut to
    its width and padded with spaces. *)
Definition pad_to (n : nat) (l : list ascii) : list ascii :=
  firstn n l ++ repeat " "%char (n - length l).

Definition short_name (name ext : list ascii) : list ascii :=
  pad_to 8 (map toupper name) ++ pad_to 3 (map toupper ext).

(** A character of the name part: the name loop copies it. *)
Definition name_char (c : ascii) : bool := negb (is_nul c) && negb (is_dot c).

(** Where the name loop and the skip loop stop: at the end of the string,
    a NUL or a dot. *)
Definition stops_here (rest : list ascii) : Prop :=
  match rest with
  | [] => True
  | c :: _ => is_nul c || is_dot c = true
  end.

(** *** FAT_FindFile *)

Definition FAT_ATTR_LONG_NAME : Z := 0x0F.

(** A [char] of the converted name, as [memcmp] reads it. *)
Definition char_byte (c : ascii) : Z := Z.of_N (N_of_ascii c).

(** [memcmp(entry, fat_name, FAT_MAX_FILENAME) == 0], the entry at byte
    [entry] of [buf]. *)
Definition name_matches (buf : list Z) (entry : Z) (fat_name : list ascii) : bool :=
  forallb (fun i => byte_at buf (entry + Z.of_nat i) =? char_byte (nth i fat_name zero))
          (seq 0 FAT_MAX_FILENAME).

(** What the directory entry at byte [entry] of [buf] says of its file. *)
Definition entry_info (buf : list Z) (entry : Z) : FAT_FileInfo :=
  mkFileInfo
    (Z.lor (u32 (Z.shiftl (FAT_Read16 buf (entry + 20)) 16))
           (FAT_Read16 buf (entry + 26)))
    (FAT_Read32 buf (entry + 28))
    (byte_at buf (entry + 11)).

(** How the loop over the sixteen entries of a sector ends. *)
Inductive Scan :=
| Scan_End                          (* entry[0] == 0x00: return NOT_FOUND *)
| Scan_Found (info : FAT_FileInfo)  (* return FAT_OK *)
| Scan_Continue.                    (* e reached 16 *)

(** [for (; e < 16; e++)], with [n = 16 - e]. *)
Fixpoint scan_entries (buf : list Z) (fat_name : list ascii) (e : Z) (n : nat)
    : Scan :=
  match n with
  | O => Scan_Continue
  | S n' =>
      let entry := e * 32 in
      if byte_at buf entry =? 0x00 then Scan_End
      else if byte_at buf entry =? 0xE5 then scan_entries buf fat_name (e + 1) n'
      else if Z.land (byte_at buf (entry + 11)) FAT_ATTR_LONG_NAME
              =? FAT_ATTR_LONG_NAME
      then scan_entries buf fat_name (e + 1) n'
      else if name_matches buf entry fat_name then Scan_Found (entry_info buf entry)
      else scan_entries buf fat_name (e + 1) n'
  end.

(** [for (; s < sectors_per_cluster; s++)], with [n] sectors to go;
    [Some] is a [return] out of the loop. *)
Fixpoint scan_sectors (vol : FAT_Volume) (fat_name : list ascii) (sector s : Z)
    (n : nat) : option (FAT_Status * option FAT_FileInfo) * FAT_Volume :=
  match n with
  | O => (None, vol)
  | S n' =>
      let '(st, vol) := read_sector vol (u32 (sector + s)) in
      if negb (SD.is_ok st) then (Some (FAT_ERROR_READ, None), vol)
      else
        match scan_entries (sector_buffer vol) fat_name 0 16 with
        | Scan_End => (Some (FAT_ERROR_NOT_FOUND, None), vol)
        | Scan_Found i => (Some (FAT_OK, Some i), vol)
        | Scan_Continue => scan_sectors vol fat_name sector (s + 1) n'
        end
  end.

(** [while (!FAT_IsEndOfChain(cluster))] *)
Fixpoint find_loop (fuel : nat) (vol : FAT_Volume) (fat_name : list ascii)
    (cluster : Z) : option (FAT_Status * option FAT_FileInfo * FAT_Volume) :=
  match fuel with
  | O => None
  | S fuel' =>
      if FAT_IsEndOfChain cluster then Some (FAT_ERROR_NOT_FOUND, None, vol)
      else
        let sector := FAT_ClusterToSector vol cluster in
        match scan_sectors vol fat_name sector 0
                (Z.to_nat (sectors_per_cluster (boot vol))) with
        | (Some (st, i), vol) => Some (st, i, vol)
        | (None, vol) =>
            let '(next, vol) := FAT_GetNextCluster vol cluster in
            find_loop fuel' vol fat_name next
        end
  end.

(** [fat_name] is written in full by [FAT_ConvertFilename] before it is
    read; [info] is written on success only. *)
Definition FAT_FindFile (fuel : nat) (vol : option FAT_Volume)
    (filename : option string) (info : option FAT_FileInfo)
    : option (FAT_Status * option FAT_Volume * option FAT_FileInfo) :=
  match vol, filename, info with
  | Some v, Some name, Some _ =>
      if negb (mounted v) then Some (FAT_ERROR_INVALID_PARAM, vol, info)
      else
        let fat_name := FAT_ConvertFilename name name_buffer in
        match find_loop fuel v fat_name (root_cluster (boot v)) with
        | Some (st, Some i, v') => Some (st, Some v', Some i)
        | Some (st, None, v') => Some (st, Some v', info)
        | None => None
        end
  | _, _, _ => Some (FAT_ERROR_INVALID_PARAM, vol, info)
  end.

(** Entry [e] of the sector in [buf] is a live short-name entry that
    carries [fat_name], and [info] is what it says. *)
Definition entry_found (buf : list Z) (fat_name : list ascii) (info : FAT_FileInfo)
    : Prop :=
  exists e, 0 <= e < 16 /\
    byte_at buf (e * 32) <> 0x00 /\ byte_at buf (e * 32) <> 0xE5 /\
    Z.land (byte_at buf (e * 32 + 11)) FAT_ATTR_LONG_NAME <> FAT_ATTR_LONG_NAME /\
    name_matches buf (e * 32) fat_name = true /\
    info = entry_info buf (e * 32).

(** The three ways the search returns once its arguments are accepted. *)
Definition search_result (fat_name : list ascii) (st : FAT_Status)
    (found : option FAT_FileInfo) (vol : FAT_Volume) : Prop :=
  match st, found with
  | FAT_OK, Some i => entry_found (sector_buffer vol) fat_name i
  | FAT_ERROR_READ, None => True
  | FAT_ERROR_NOT_FOUND, None => True
  | _, _ => False
  end.

(** *** Cluster chains, as the FAT of a volume records them *)

Definition fat_entry (v : FAT_Volume) (c : Z) : Z := fst (FAT_GetNextCluster v c).

(** [c :: rest] is the cluster chain from [c] on: every cluster is a valid
    one, each is followed by its FAT entry, and the entry of the last is an
    end-of-chain mark. *)
Fixpoint chain_from (v : FAT_Volume) (c : Z) (rest : list Z) : Prop :=
  FAT_IsEndOfChain c = false /\
  match rest with
  | [] => FAT_IsEndOfChain (fat_entry v c) = true
  | d :: r => fat_entry v c = d /\ chain_from v d r
  end.

(** [c :: rest] is [c, c+1, c+2, ...]. *)
Fixpoint consecutive (c : Z) (rest : list Z) : Prop :=
  match rest with
  | [] => True
  | d :: r => d = c + 1 /\ consecutive d r
  end.

(** The scratch buffer is the 512-byte array of the struct. *)
Definition scratch_ok (v : FAT_Volume) : Prop :=
  length (sector_buffer v) = 512%nat.

(** Two states of a volume over the same card and boot sector. *)
Definition same_fat (v v' : FAT_Volume) : Prop :=
  mounted v = mounted v' /\ boot v = boot v' /\
  SD.card (hsd v) = SD.card (hsd v') /\
  SD.initialized (hsd v) = SD.initialized (hsd v').

(** *** A sample volume

    Eight sectors per cluster, the FAT at sector 32, the data at sector
    2080.  The first FAT sector holds the entries of clusters 0..127; a
    data sector is filled with the low byte of its own number; the
    reserved sectors below the FAT do not read. *)

Definition le32 (x : Z) : list Z :=
  [x mod 256; x / 256 mod 256; x / 65536 mod 256; x / 16777216 mod 256].

Definition fat_sector_of (entry : Z -> Z) : list Z :=
  flat_map (fun i => le32 (entry (Z.of_nat i))) (seq 0 128).

Definition sample_boot : FAT_BootSector :=
  mkBoot 512 8 32 2 1024 2 0 0 32 2080.

Definition sample_card (entry : Z -> Z) (lba : Z) : option (list Z) :=
  if lba <? 32 then None
  else if lba =? 32 then Some (fat_sector_of entry)
  else Some (repeat (lba mod 256) 512).

Definition sample_volume (entry : Z -> Z) : FAT_Volume :=
  mkVolume (SD.mkHandle true (sample_card entry) []) sample_boot
    (repeat 0 512) true.

(** Chain 5, 6, 7, 8. *)
Definition fat_contiguous (c : Z) : Z :=
  if (5 <=? c) && (c <? 8) then c + 1
  else if c =? 8 then 0x0FFFFFFF else 0.

(** Chain 5, 6, ..., 16, 40: one gap, after the twelfth cluster. *)
Definition fat_late_gap (c : Z) : Z :=
  if (5 <=? c) && (c <? 16) then c + 1
  else if c =? 16 then 40
  else if c =? 40 then 0x0FFFFFFF else 0.

(** Chain 5, 6, 9, 10: a gap after the second cluster. *)
Definition fat_early_gap (c : Z) : Z :=
  if c =? 5 then 6 else if c =? 6 then 9 else if c =? 9 then 10
  else if c =? 10 then 0x0FFFFFFF else 0.

(** A mounted volume whose card answers no read. *)
Definition dead_volume : FAT_Volume :=
  mkVolume (SD.mkHandle true (fun _ => None) []) sample_boot (repeat 0 512) true.

(** *** A sample card image

    A partition at sector 2048; one sector per cluster, 32 reserved
    sectors, two FATs of 8 sectors: the FAT at sector 2080, the data at
    sector 2096.  The root directory is cluster 2 alone and holds a
    deleted entry, a long-name entry, BADAPPLE.BIN (first cluster 3,
    3000 bytes) and the end mark.  The file is clusters 3, 4, 5, 6, 7, 8;
    its sector [s] is filled with the low byte of [s]. *)

Definition patch (buf : list Z) (patches : list (Z * list Z)) : list Z :=
  fold_left (fun b p => write_at b (fst p) (snd p)) patches buf.

Definition image_mbr : list Z :=
  patch (repeat 0 512) [(0x1BE + 8, le32 2048); (510, [0x55; 0xAA])].

Definition image_vbr : list Z :=
  patch (repeat 0 512)
    [(11, [0; 2]); (13, [1]); (14, [32; 0]); (16, [2]);
     (32, le32 65536); (36, le32 8); (44, le32 2); (510, [0x55; 0xAA])].

Definition image_fat (c : Z) : Z :=
  if c =? 2 then 0x0FFFFFFF
  else if (3 <=? c) && (c <? 8) then c + 1
  else if c =? 8 then 0x0FFFFFFF else 0.

Definition image_name : list Z := [66; 65; 68; 65; 80; 80; 76; 69; 66; 73; 78].

Definition image_root : list Z :=
  patch (repeat 0 512)
    [(0, [0xE5; 79; 76; 68]); (32, [65]); (32 + 11, [0x0F]);
     (64, image_name); (64 + 11, [0x20]); (64 + 20, [0; 0]);
     (64 + 26, [3; 0]); (64 + 28, le32 3000)].

Definition image_card (lba : Z) : option (list Z) :=
  if lba =? 0 then Some image_mbr
  else if lba =? 2048 then Some image_vbr
  else if lba =? 2080 then Some (fat_sector_of image_fat)
  else if lba =? 2096 then Some image_root
  else if (2097 <=? lba) && (lba <? 2103) then Some (repeat (lba mod 256) 512)
  else None.

Definition image_handle : SD.SD_Handle := SD.mkHandle true image_card [].

Definition image_boot : FAT_BootSector := mkBoot 512 1 32 2 8 2 65536 2048 2080 2096.

(** The volume [FAT_Mount] makes of the sample image. *)
Definition image_volume : FAT_Volume :=
  mkVolume (SD.mkHandle true image_card [SD.CMD17 0; SD.CMD17 2048])
    image_boot (SD.block_data image_vbr) true.

Definition is_byteb (b : Z) : bool := (0 <=? b) && (b <? 256).

End FAT.

(** ** media_file_reader.h / media_file_reader.c

    Functions with a loop that the code does not bound take [fuel], the
    number of iterations they may run; [None] stands for a call that does
    not return (fuel exhausted, or a NULL [media->vol] dereferenced). *)

Module Media.

Definition MAX_AUDIO_READ_SAMPLES : Z := Audio.AUDIO_BUFFER_SAMPLES.
Definition DAC_SILENCE : Z := 2048.
Definition MAX_MULTIBLOCK_COUNT : Z := 16.
Definition MEDIA_HEADER_SIZE : Z := 20.
Definition MEDIA_FRAME_SIZE : Z := 1024.
Definition MEDIA_DEFAULT_VOLUME : Z := 50.
Definition SD_BLOCK_SIZE : Z := SD.SD_BLOCK_SIZE.

Record MediaFile := mkMedia {
  frame_count : Z;
  audio_size : Z;
  sample_rate : Z;
  channels : Z;
  bits_per_sample : Z;
  first_cluster : Z;
  file_size : Z;
  vol : option FAT.FAT_Volume;
  video_offset : Z;
  audio_offset : Z;
  current_frame : Z;
  current_sample : Z;
  volume_percent : Z;          (* uint8_t *)
  is_open : bool;
  cached_cluster : Z;
  cached_cluster_index : Z;
  is_contiguous : bool;
  first_sector : Z
}.

(** [memset(media, 0, sizeof(MediaFile))] *)
Definition zero_media : MediaFile :=
  mkMedia 0 0 0 0 0 0 0 None 0 0 0 0 0 false 0 0 false 0.

Definition set_vol (m : MediaFile) (v : FAT.FAT_Volume) : MediaFile :=
  mkMedia (frame_count m) (audio_size m) (sample_rate m) (channels m)
    (bits_per_sample m) (first_cluster m) (file_size m) (Some v)
    (video_offset m) (audio_offset m) (current_frame m) (current_sample m)
    (volume_percent m) (is_open m) (cached_cluster m) (cached_cluster_index m)
    (is_contiguous m) (first_sector m).

Definition set_cache (m : MediaFile) (c idx : Z) : MediaFile :=
  mkMedia (frame_count m) (audio_size m) (sample_rate m) (channels m)
    (bits_per_sample m) (first_cluster m) (file_size m) (vol m)
    (video_offset m) (audio_offset m) (current_frame m) (current_sample m)
    (volume_percent m) (is_open m) c idx
    (is_contiguous m) (first_sector m).

Definition set_contiguous (m : MediaFile) (b : bool) (s : Z) : MediaFile :=
  mkMedia (frame_count m) (audio_size m) (sample_rate m) (channels m)
    (bits_per_sample m) (first_cluster m) (file_size m) (vol m)
    (video_offset m) (audio_offset m) (current_frame m) (current_sample m)
    (volume_percent m) (is_open m) (cached_cluster m) (cached_cluster_index m)
    b s.

Definition set_current_sample (m : MediaFile) (n : Z) : MediaFile :=
  mkMedia (frame_count m) (audio_size m) (sample_rate m) (channels m)
    (bits_per_sample m) (first_cluster m) (file_size m) (vol m)
    (video_offset m) (audio_offset m) (current_frame m) n
    (volume_percent m) (is_open m) (cached_cluster m) (cached_cluster_index m)
    (is_contiguous m) (first_sector m).

Definition Read32LE (buf : list Z) (at_ : Z) : Z :=
  u32 (Z.lor (Z.lor (Z.lor (byte_at buf at_)
                           (Z.shiftl (byte_at buf (at_ + 1)) 8))
                    (Z.shiftl (byte_at buf (at_ + 2)) 16))
             (Z.shiftl (byte_at buf (at_ + 3)) 24)).

(** [m] with another volume state and cluster cache. *)
Definition with_state (m : MediaFile) (v : option FAT.FAT_Volume) (c idx : Z)
    : MediaFile :=
  mkMedia (frame_count m) (audio_size m) (sample_rate m) (channels m)
    (bits_per_sample m) (first_cluster m) (file_size m) v
    (video_offset m) (audio_offset m) (current_frame m) (current_sample m)
    (volume_percent m) (is_open m) c idx
    (is_contiguous m) (first_sector m).

(** [m'] is [m] but for the state of the volume and the cluster cache. *)
Definition same_file (m m' : MediaFile) : Prop :=
  m' = with_state m (vol m') (cached_cluster m') (cached_cluster_index m').

(** *** The fragmented path *)

(** [for (i = start; i < target && !FAT_IsEndOfChain(cluster); i++)]:
    [n] is [target - start]. *)
Fixpoint walk_chain (n : nat) (v : FAT.FAT_Volume) (cluster : Z)
    : Z * FAT.FAT_Volume :=
  match n with
  | O => (cluster, v)
  | S n' =>
      if FAT.FAT_IsEndOfChain cluster then (cluster, v)
      else
        let '(next, v') := FAT.FAT_GetNextCluster v cluster in
        walk_chain n' v' next
  end.

Definition Media_GetClusterAt (media : MediaFile) (v : FAT.FAT_Volume)
    (byte_offset : Z) : Z * MediaFile * FAT.FAT_Volume :=
  let cluster_size := FAT.FAT_GetClusterSize (Some v) in
  if cluster_size =? 0 then (0, media, v)
  else
    let target_index := byte_offset / cluster_size in
    let '(cluster, start_index) :=
      if negb (cached_cluster media =? 0)
         && (cached_cluster_index media <=? target_index)
      then (cached_cluster media, cached_cluster_index media)
      else (first_cluster media, 0) in
    let '(cluster, v') :=
      walk_chain (Z.to_nat (target_index - start_index)) v cluster in
    (cluster, set_cache media cluster target_index, v').

(** The bytes a partial-sector iteration copies out of the scratch buffer. *)
Definition partial_copy (media : MediaFile) (offset size sector_offset : Z) : Z :=
  let available := SD_BLOCK_SIZE - sector_offset in
  let to_copy := if size <? available then size else available in
  if file_size media <? u32 (offset + to_copy)
  then u32 (file_size media - offset) else to_copy.

Fixpoint fragmented_loop (fuel : nat) (media : MediaFile) (v : FAT.FAT_Volume)
    (cluster_size offset : Z) (buffer : list Z) (pos size : Z)
    : option (FAT.FAT_Status * MediaFile * FAT.FAT_Volume * list Z) :=
  if negb ((0 <? size) && (offset <? file_size media))
  then Some (FAT.FAT_OK, media, v, buffer)
  else
    match fuel with
    | O => None
    | S fuel' =>
        let '(cluster, media, v) := Media_GetClusterAt media v offset in
        if FAT.FAT_IsEndOfChain cluster then Some (FAT.FAT_OK, media, v, buffer)
        else
          let offset_in_cluster := offset mod cluster_size in
          let sector := u32 (FAT.FAT_ClusterToSector v cluster
                             + offset_in_cluster / SD_BLOCK_SIZE) in
          let sector_offset := offset_in_cluster mod SD_BLOCK_SIZE in
          let '(st, v) := FAT.read_sector v sector in
          if negb (SD.is_ok st) then Some (FAT.FAT_ERROR_READ, media, v, buffer)
          else
            let to_copy := partial_copy media offset size sector_offset in
            fragmented_loop fuel' media v cluster_size
              (u32 (offset + to_copy))
              (write_at buffer pos (slice (FAT.sector_buffer v) sector_offset to_copy))
              (pos + to_copy)
              (u32 (size - to_copy))
    end.

Definition Media_ReadAtFragmented (fuel : nat) (media : MediaFile)
    (offset : Z) (buffer : list Z) (pos size : Z)
    : option (FAT.FAT_Status * MediaFile * list Z) :=
  let cluster_size := FAT.FAT_GetClusterSize (vol media) in
  if cluster_size =? 0 then Some (FAT.FAT_ERROR, media, buffer)
  else
    match vol media with
    | None => None
    | Some v =>
        match fragmented_loop fuel media v cluster_size offset buffer pos size with
        | Some (st, m, v', b) => Some (st, set_vol m v', b)
        | None => None
        end
    end.

(** *** The contiguous fast path *)

(** The run length of an aligned iteration. *)
Definition aligned_run (media : MediaFile) (offset size : Z) : Z :=
  let sectors_available := u32 (file_size media - offset) / SD_BLOCK_SIZE in
  let sectors_needed := size / SD_BLOCK_SIZE in
  let count := if sectors_needed <? sectors_available
               then sectors_needed else sectors_available in
  if MAX_MULTIBLOCK_COUNT <? count then MAX_MULTIBLOCK_COUNT else count.

(** One iteration of the loop of [Media_ReadAtContiguous]: the status of
    its device read, the volume, and the advanced
    [(offset, buffer, buffer position, size)]. *)
Definition contiguous_iteration (media : MediaFile) (v : FAT.FAT_Volume)
    (offset : Z) (buffer : list Z) (pos size : Z)
    : SD.SD_Status * FAT.FAT_Volume * (Z * list Z * Z * Z) :=
  let sector := u32 (first_sector media + offset / SD_BLOCK_SIZE) in
  let sector_offset := offset mod SD_BLOCK_SIZE in
  if negb (sector_offset =? 0) || (size <? SD_BLOCK_SIZE) then
    (* unaligned or partial sector: through the scratch buffer *)
    let '(st, v) := FAT.read_sector v sector in
    if negb (SD.is_ok st) then (st, v, (offset, buffer, pos, size))
    else
      let to_copy := partial_copy media offset size sector_offset in
      (st, v,
       (u32 (offset + to_copy),
        write_at buffer pos (slice (FAT.sector_buffer v) sector_offset to_copy),
        pos + to_copy,
        u32 (size - to_copy)))
  else
    (* aligned sectors: straight into the caller's buffer *)
    let count := aligned_run media offset size in
    let '(st, h, buffer) :=
      if 1 <? count
      then SD.SD_ReadMultipleBlocks (FAT.hsd v) buffer pos sector count
      else SD.SD_ReadBlock (FAT.hsd v) buffer pos sector in
    let v := FAT.mkVolume h (FAT.boot v) (FAT.sector_buffer v) (FAT.mounted v) in
    if negb (SD.is_ok st) then (st, v, (offset, buffer, pos, size))
    else
      let bytes_read := u32 (count * SD_BLOCK_SIZE) in
      (st, v,
       (u32 (offset + bytes_read), buffer, pos + bytes_read,
        u32 (size - bytes_read))).

Fixpoint contiguous_loop (fuel : nat) (media : MediaFile) (v : FAT.FAT_Volume)
    (offset : Z) (buffer : list Z) (pos size : Z)
    : option (FAT.FAT_Status * FAT.FAT_Volume * list Z) :=
  if negb ((0 <? size) && (offset <? file_size media))
  then Some (FAT.FAT_OK, v, buffer)
  else
    match fuel with
    | O => None
    | S fuel' =>
        let '(st, v, (offset, buffer, pos, size)) :=
          contiguous_iteration media v offset buffer pos size in
        if negb (SD.is_ok st) then Some (FAT.FAT_ERROR_READ, v, buffer)
        else contiguous_loop fuel' media v offset buffer pos size
    end.

Definition Media_ReadAtContiguous (fuel : nat) (media : MediaFile)
    (offset : Z) (buffer : list Z) (pos size : Z)
    : option (FAT.FAT_Status * MediaFile * list Z) :=
  match vol media with
  | None =>
      if negb ((0 <? size) && (offset <? file_size media))
      then Some (FAT.FAT_OK, media, buffer) else None
  | Some v =>
      match contiguous_loop fuel media v offset buffer pos size with
      | Some (st, v', b) => Some (st, set_vol media v', b)
      | None => None
      end
  end.

Definition Media_ReadAt (fuel : nat) (media : MediaFile)
    (offset : Z) (buffer : list Z) (pos size : Z)
    : option (FAT.FAT_Status * MediaFile * list Z) :=
  if negb (is_open media) then Some (FAT.FAT_ERROR_INVALID_PARAM, media, buffer)
  else if is_contiguous media && negb (first_sector media =? 0)
  then Media_ReadAtContiguous fuel media offset buffer pos size
  else Media_ReadAtFragmented fuel media offset buffer pos size.

(** *** Contiguity detection *)

(** The chain walk of [Media_CheckContiguous]: [Some (false, _)] when a gap
    is met, [Some (true, _)] when the loop is left at the end of the chain
    or by the safety limit. *)
Fixpoint contiguous_walk (fuel : nat) (v : FAT.FAT_Volume)
    (cluster prev count expected_clusters : Z) : option (bool * FAT.FAT_Volume) :=
  if FAT.FAT_IsEndOfChain cluster then Some (true, v)
  else
    match fuel with
    | O => None
    | S fuel' =>
        let count := u32 (count + 1) in
        if (1 <? count) && negb (cluster =? u32 (prev + 1)) then Some (false, v)
        else
          let prev := cluster in
          let '(cluster, v) := FAT.FAT_GetNextCluster v cluster in
          (* safety limit *)
          if u32 (expected_clusters + 10) <? count then Some (true, v)
          else contiguous_walk fuel' v cluster prev count expected_clusters
    end.

Definition expected_clusters (media : MediaFile) (cluster_size : Z) : Z :=
  u32 (file_size media + cluster_size - 1) / cluster_size.

Definition Media_CheckContiguous (fuel : nat) (media : MediaFile)
    : option (bool * MediaFile) :=
  if negb (is_open media) then Some (false, media)
  else
    match vol media with
    | None => Some (false, media)
    | Some v =>
        let cluster_size := FAT.FAT_GetClusterSize (Some v) in
        if cluster_size =? 0 then Some (false, media)
        else
          match contiguous_walk fuel v (first_cluster media) (first_cluster media)
                  0 (expected_clusters media cluster_size) with
          | None => None
          | Some (false, v') =>
              Some (false, set_contiguous (set_vol media v') false 0)
          | Some (true, v') =>
              let m := set_vol media v' in
              let m := set_contiguous m true
                         (FAT.FAT_ClusterToSector v' (first_cluster m)) in
              Some (true, set_cache m (first_cluster m) 0)
          end
    end.

(** *** Public API *)

Definition Media_Open (fuel : nat) (media : MediaFile)
    (vol : option FAT.FAT_Volume) (file_info : option FAT.FAT_FileInfo)
    : option (FAT.FAT_Status * MediaFile) :=
  match vol, file_info with
  | Some v, Some fi =>
      if negb (FAT.mounted v) then Some (FAT.FAT_ERROR_INVALID_PARAM, media)
      else
        (* clear the handle, store the file location *)
        let first_sector := FAT.FAT_ClusterToSector v (FAT.first_cluster fi) in
        let '(st, v) := FAT.read_sector v first_sector in
        if negb (SD.is_ok st) then
          Some (FAT.FAT_ERROR_READ,
                mkMedia 0 0 0 0 0 (FAT.first_cluster fi) (FAT.size fi) (Some v)
                  0 0 0 0 0 false 0 0 false 0)
        else
          let header := slice (FAT.sector_buffer v) 0 MEDIA_HEADER_SIZE in
          let frame_count := Read32LE header 0 in
          let media :=
            mkMedia frame_count (Read32LE header 4) (Read32LE header 8)
              (Read32LE header 12) (Read32LE header 16)
              (FAT.first_cluster fi) (FAT.size fi) (Some v)
              MEDIA_HEADER_SIZE
              (u32 (MEDIA_HEADER_SIZE + u32 (frame_count * MEDIA_FRAME_SIZE)))
              0 0 MEDIA_DEFAULT_VOLUME true 0 0 false 0 in
          (* try to enable the contiguous fast path *)
          match Media_CheckContiguous fuel media with
          | Some (_, media) => Some (FAT.FAT_OK, media)
          | None => None
          end
  | _, _ => Some (FAT.FAT_ERROR_INVALID_PARAM, media)
  end.

Definition Media_Close (m : MediaFile) : MediaFile :=
  mkMedia (frame_count m) (audio_size m) (sample_rate m) (channels m)
    (bits_per_sample m) (first_cluster m) (file_size m) (vol m)
    (video_offset m) (audio_offset m) 0 0
    (volume_percent m) false 0 0 false 0.

Definition Media_SetVolume (m : MediaFile) (percent : Z) : MediaFile :=
  mkMedia (frame_count m) (audio_size m) (sample_rate m) (channels m)
    (bits_per_sample m) (first_cluster m) (file_size m) (vol m)
    (video_offset m) (audio_offset m) (current_frame m) (current_sample m)
    (if 100 <? percent then 100 else percent)
    (is_open m) (cached_cluster m) (cached_cluster_index m)
    (is_contiguous m) (first_sector m).

Definition Media_ReadFrameAt (fuel : nat) (media : MediaFile)
    (frame_number : Z) (buffer : list Z)
    : option (FAT.FAT_Status * MediaFile * list Z) :=
  if negb (is_open media) then Some (FAT.FAT_ERROR_INVALID_PARAM, media, buffer)
  else if frame_count media <=? frame_number
  then Some (FAT.FAT_ERROR_INVALID_PARAM, media, buffer)
  else
    let offset := u32 (video_offset media + u32 (frame_number * MEDIA_FRAME_SIZE)) in
    Media_ReadAt fuel media offset buffer 0 MEDIA_FRAME_SIZE.

(** [s_audio_buffer[idx]]: the little-endian [int16_t] at byte [2 * idx]
    of the static scratch array. *)
Definition read_i16 (s_audio_buffer : list Z) (idx : Z) : Z :=
  let w := byte_at s_audio_buffer (2 * idx)
           + 256 * byte_at s_audio_buffer (2 * idx + 1) in
  if w <? 32768 then w else w - 65536.

(** Volume scaling and conversion of one signed 16-bit sample to the
    unsigned 12-bit DAC format: [(uint16_t)((raw * vol / 100 + 32768) >> 4)].
    C's [/] truncates toward zero ([Z.quot]); [>>] on [int32_t] is the
    arithmetic shift. *)
Definition dac_sample (raw vol : Z) : Z :=
  let scaled := i32 (Z.quot (i32 (raw * vol)) 100) in
  u16 (Z.shiftr (i32 (scaled + 32768)) 4).

(** The conversion loop over [n] samples from index [i] on. *)
Fixpoint convert_loop (n : nat) (i : nat) (s_audio_buffer : list Z) (vol : Z)
    (left right : list Z) : list Z * list Z :=
  match n with
  | O => (left, right)
  | S n' =>
      let l_raw := read_i16 s_audio_buffer (Z.of_nat i * 2) in
      let r_raw := read_i16 s_audio_buffer (Z.of_nat i * 2 + 1) in
      convert_loop n' (S i) s_audio_buffer vol
        (list_set left i (dac_sample l_raw vol))
        (list_set right i (dac_sample r_raw vol))
  end.

(** What a call of [Media_ReadAudioStereo] leaves behind. *)
Record AudioRead := mkAudioRead {
  ar_status : FAT.FAT_Status;
  ar_media : MediaFile;
  ar_scratch : list Z;     (* s_audio_buffer, as bytes *)
  ar_left : list Z;
  ar_right : list Z
}.

Definition Media_ReadAudioStereo (fuel : nat) (media : MediaFile)
    (s_audio_buffer left right : list Z) (count : Z) : option AudioRead :=
  if negb (is_open media)
  then Some (mkAudioRead FAT.FAT_ERROR_INVALID_PARAM media s_audio_buffer left right)
  else
    (* limit to buffer size *)
    let count := if MAX_AUDIO_READ_SAMPLES <? count
                 then MAX_AUDIO_READ_SAMPLES else count in
    let bytes_per_sample := 4 in
    let total_samples := audio_size media / bytes_per_sample in
    if total_samples <=? current_sample media then
      (* past the end: silence *)
      Some (mkAudioRead FAT.FAT_OK media s_audio_buffer
              (fill_range left 0 (Z.to_nat count) DAC_SILENCE)
              (fill_range right 0 (Z.to_nat count) DAC_SILENCE))
    else
      let available := u32 (total_samples - current_sample media) in
      let to_read := if count <? available then count else available in
      let offset := u32 (audio_offset media
                         + u32 (current_sample media * bytes_per_sample)) in
      let bytes_to_read := u32 (to_read * bytes_per_sample) in
      match Media_ReadAt fuel media offset s_audio_buffer 0 bytes_to_read with
      | None => None
      | Some (st, media, s_audio_buffer) =>
          match st with
          | FAT.FAT_OK =>
              let vol := volume_percent media in
              let '(lbuf, rbuf) :=
                convert_loop (Z.to_nat to_read) 0 s_audio_buffer vol left right in
              let media :=
                set_current_sample media (u32 (current_sample media + to_read)) in
              Some (mkAudioRead FAT.FAT_OK media s_audio_buffer
                      (fill_range lbuf (Z.to_nat to_read)
                         (Z.to_nat count - Z.to_nat to_read) DAC_SILENCE)
                      (fill_range rbuf (Z.to_nat to_read)
                         (Z.to_nat count - Z.to_nat to_read) DAC_SILENCE))
          | _ =>
              Some (mkAudioRead FAT.FAT_ERROR_READ media s_audio_buffer
                      (fill_range left 0 (Z.to_nat count) DAC_SILENCE)
                      (fill_range right 0 (Z.to_nat count) DAC_SILENCE))
          end
      end.

(** The commands the card of the handle's volume has received. *)
Definition device_commands (m : MediaFile) : list SD.SD_Command :=
  match vol m with
  | Some v => SD.commands (FAT.hsd v)
  | None => []
  end.

(** An open handle whose audio has been played to its end: 10000 stereo
    samples, all consumed. *)
Definition media_at_end : MediaFile :=
  mkMedia 10 40000 32000 2 16 3 50260 None 20 10260 0 10000 50 true 0 0 false 0.

(** An open handle on a file of [size] bytes starting at cluster 5 of a
    sample volume, before the contiguity check. *)
Definition sample_media (entry : Z -> Z) (size : Z) : MediaFile :=
  mkMedia 10 40000 32000 2 16 5 size (Some (FAT.sample_volume entry))
    20 10260 0 0 50 true 0 0 false 0.

(** A contiguous file of 64 sectors from sector 2104 on, opened, the fast
    path enabled. *)
Definition contiguous_media : MediaFile :=
  mkMedia 10 22508 32000 2 16 5 32768 (Some (FAT.sample_volume FAT.fat_contiguous))
    20 10260 0 0 50 true 5 0 true 2104.

(** What the sectors 2105 .. 2144 of the sample card hold. *)
Definition sample_bytes : list Z :=
  flat_map (fun i => repeat ((2105 + Z.of_nat i) mod 256) 512) (seq 0 40).

(** The same handle on a file cut to 1000 bytes: its header still promises
    ten frames. *)
Definition truncated_media : MediaFile :=
  mkMedia 10 22508 32000 2 16 5 1000 (Some (FAT.sample_volume FAT.fat_contiguous))
    20 10260 0 0 50 true 5 0 true 2104.

End Media.


(** ** ssd1306.h / ssd1306.c: the DMA screen update, and its caller in
    main.c *)

Module SSD1306.

Inductive SSD1306_Status :=
| SSD1306_OK
| SSD1306_ERROR
| SSD1306_ERROR_I2C
| SSD1306_ERROR_BUSY.

(** The I2C handle, the framebuffer pointer, the text cursor and the chunk
    buffer play no part in the DMA update and are left out. *)
Record SSD1306_Handle := mkHandle {
  dma_busy : bool;
  last_error : SSD1306_Status;
  initialized : bool
}.

(** The handle a successful [SSD1306_Init] leaves. *)
Definition display_ready : SSD1306_Handle := mkHandle false SSD1306_OK true.

(** [SSD1306_SetAddressWindow]: six command writes; [i2c_ok] tells whether
    the bus carried them all.  A failed write records SSD1306_ERROR_I2C. *)
Definition SSD1306_SetAddressWindow (hd : SSD1306_Handle) (i2c_ok : bool)
    : SSD1306_Status * SSD1306_Handle :=
  if i2c_ok then (SSD1306_OK, hd)
  else (SSD1306_ERROR, mkHandle (dma_busy hd) SSD1306_ERROR_I2C (initialized hd)).

(** [window_ok]: the address window went through; [dma_ok]: the HAL accepted
    the DMA write. *)
Definition SSD1306_UpdateScreen_DMA (hd : SSD1306_Handle)
    (g : Display.TripleBuffer_State) (window_ok dma_ok : bool)
    : SSD1306_Status * SSD1306_Handle * Display.TripleBuffer_State :=
  if negb (initialized hd) then (SSD1306_ERROR, hd, g)
  else if dma_busy hd then (SSD1306_ERROR_BUSY, hd, g)
  else
    let '(started, g) := Display.Display_StartTransfer g in
    if negb started then (SSD1306_ERROR, hd, g)
    else
      let '(st, hd) := SSD1306_SetAddressWindow hd window_ok in
      match st with
      | SSD1306_OK =>
          if dma_ok
          then (SSD1306_OK, mkHandle true (last_error hd) (initialized hd), g)
          else (SSD1306_ERROR_I2C,
                mkHandle false SSD1306_ERROR_I2C (initialized hd),
                Display.Display_TransferComplete g)
      | _ => (SSD1306_ERROR, hd, Display.Display_TransferComplete g)
      end.

Definition SSD1306_IsDMABusy (hd : SSD1306_Handle) : bool := dma_busy hd.

Definition SSD1306_DMA_CompleteCallback (hd : SSD1306_Handle)
    (g : Display.TripleBuffer_State)
    : SSD1306_Handle * Display.TripleBuffer_State :=
  (mkHandle false (last_error hd) (initialized hd),
   Display.Display_TransferComplete g).

Definition SSD1306_DMA_ErrorCallback (hd : SSD1306_Handle)
    (g : Display.TripleBuffer_State)
    : SSD1306_Handle * Display.TripleBuffer_State :=
  (mkHandle false SSD1306_ERROR_I2C (initialized hd),
   Display.Display_TransferComplete g).

(** [UpdateDisplay] of main.c. *)
Definition UpdateDisplay (hd : SSD1306_Handle) (g : Display.TripleBuffer_State)
    (window_ok dma_ok : bool) : SSD1306_Handle * Display.TripleBuffer_State :=
  if SSD1306_IsDMABusy hd then (hd, g)
  else if negb (Display.Display_HasFrame g) then (hd, g)
  else
    let '(_, hd, g) := SSD1306_UpdateScreen_DMA hd g window_ok dma_ok in (hd, g).

(** What happens to the display pipeline: the foreground swaps after a
    frame is drawn and polls [UpdateDisplay] (or calls the DMA update
    itself), the I2C interrupt reports the end of a DMA or its failure. *)
Inductive Pipe_Op :=
| Pipe_Swap
| Pipe_UpdateDisplay (window_ok dma_ok : bool)
| Pipe_UpdateScreen_DMA (window_ok dma_ok : bool)
| Pipe_DmaComplete
| Pipe_DmaError.

Definition Pipe_State : Type := (SSD1306_Handle * Display.TripleBuffer_State)%type.

Definition pipe_step (st : Pipe_State) (op : Pipe_Op) : Pipe_State :=
  let '(hd, g) := st in
  match op with
  | Pipe_Swap => (hd, Display.Display_SwapBuffers g)
  | Pipe_UpdateDisplay w d => UpdateDisplay hd g w d
  | Pipe_UpdateScreen_DMA w d =>
      let '(_, hd, g) := SSD1306_UpdateScreen_DMA hd g w d in (hd, g)
  | Pipe_DmaComplete => SSD1306_DMA_CompleteCallback hd g
  | Pipe_DmaError => SSD1306_DMA_ErrorCallback hd g
  end.

Definition pipe_run (st : Pipe_State) (ops : list Pipe_Op) : Pipe_State :=
  fold_left pipe_step ops st.

Definition is_dma_callback (op : Pipe_Op) : bool :=
  match op with Pipe_DmaComplete | Pipe_DmaError => true | _ => false end.

(** The I2C interrupt reports on a DMA only while one is in flight. *)
Fixpoint callbacks_in_flight (st : Pipe_State) (ops : list Pipe_Op) : Prop :=
  match ops with
  | [] => True
  | op :: r =>
      (is_dma_callback op = true -> dma_busy (fst st) = true) /\
      callbacks_in_flight (pipe_step st op) r
  end.

Fixpoint swaps (ops : list Pipe_Op) : Z :=
  match ops with
  | [] => 0
  | Pipe_Swap :: r => 1 + swaps r
  | _ :: r => swaps r
  end.

(** The pipeline at startup. *)
Definition pipe_start : Pipe_State := (display_ready, Display.g_display_buffers).

(** What the pipeline keeps true. *)
Definition pipe_ok (st : Pipe_State) : Prop :=
  let '(hd, g) := st in
  initialized hd = true /\
  dma_busy hd = Display.transfer_busy g /\
  0 <= Display.frames_transferred g <= Display.frames_rendered g /\
  (Display.transfer_busy g = true ->
   Display.frames_transferred g < Display.frames_rendered g) /\
  Display.roles_distinct g.

End SSD1306.

(** ** main.c: the foreground's audio refill and frame rendering

    The cycle counter and the timing statistics are hardware and left
    out. *)

Module Main.

Definition FRAMEBUFFER_SIZE : Z := 1024.

(** The globals of the player that the two functions touch:
    [s_audio_buffer] is the static scratch array of the media reader,
    [s_dma_buffer_left] and [s_dma_buffer_right] the circular DMA buffers
    of the audio driver. *)
Record Player := mkPlayer {
  g_audio : Audio.Audio_Handle;
  g_media : Media.MediaFile;
  s_audio_buffer : list Z;
  s_dma_buffer_left : list Z;
  s_dma_buffer_right : list Z;
  g_framebuffer : list (list Z);
  g_display_buffers : Display.TripleBuffer_State
}.



Definition is_fat_ok (st : FAT.FAT_Status) : bool :=
  match st with FAT.FAT_OK => true | _ => false end.

(** [Display_GetRenderBuffer()] *)
Definition Display_GetRenderBuffer (p : Player) : list Z :=
  nth (Z.to_nat (Display.render (g_display_buffers p))) (g_framebuffer p) [].

Definition RenderVideoFrame (fuel : nat) (p : Player) (frame_number : Z)
    : option Player :=
  let slot := Z.to_nat (Display.render (g_display_buffers p)) in
  let render_buffer := Display_GetRenderBuffer p in
  match Media.Media_ReadFrameAt fuel (g_media p) frame_number render_buffer with
  | None => None
  | Some (st, media, render_buffer) =>
      let render_buffer :=
        if negb (is_fat_ok st)
        then fill_range render_buffer 0 (Z.to_nat FRAMEBUFFER_SIZE) 0
        else render_buffer in
      Some (mkPlayer (g_audio p) media (s_audio_buffer p)
              (s_dma_buffer_left p) (s_dma_buffer_right p)
              (list_set (g_framebuffer p) slot render_buffer)
              (Display.Display_SwapBuffers (g_display_buffers p)))
  end.

(** The two DMA buffers hold [AUDIO_FULL_BUFFER_SAMPLES] entries each, the
    three framebuffers [FRAMEBUFFER_SIZE] bytes each. *)
Definition buffers_ok (p : Player) : Prop :=
  Z.of_nat (length (s_dma_buffer_left p)) = Audio.AUDIO_FULL_BUFFER_SAMPLES /\
  Z.of_nat (length (s_dma_buffer_right p)) = Audio.AUDIO_FULL_BUFFER_SAMPLES /\
  length (g_framebuffer p) = 3%nat /\
  Forall (fun b => Z.of_nat (length b) = FRAMEBUFFER_SIZE) (g_framebuffer p).

(** The fields of the media handle hold 32-bit words. *)
Definition media_words (m : Media.MediaFile) : Prop :=
  0 <= Media.audio_size m < 2 ^ 32 /\
  0 <= Media.current_sample m < 2 ^ 32 /\
  0 <= Media.file_size m < 2 ^ 32 /\
  0 <= Media.video_offset m < 2 ^ 32 /\
  0 <= Media.frame_count m < 2 ^ 32.

(** The player of the sample volume, the second half of the audio
    buffers due for a refill. *)
Definition sample_player : Player :=
  mkPlayer (Audio.audio_HandleDMA Audio.audio_playing false)
    (Media.sample_media FAT.fat_late_gap 50260)
    (repeat 0 (Z.to_nat 8192)) (repeat 7 4096) (repeat 7 4096)
    [repeat 1 1024; repeat 2 1024; repeat 3 1024]
    Display.g_display_buffers.

End Main.

(** * Properties *)

(** ** Machine integers *)

Lemma u32_small : forall x, 0 <= x < 2 ^ 32 -> u32 x = x.
Proof. intros x H. unfold u32. now apply Z.mod_small. Qed.

Lemma u32_range : forall x, 0 <= u32 x < 2 ^ 32.
Proof. intros x. unfold u32. apply Z.mod_pos_bound. lia. Qed.

Lemma u16_small : forall x, 0 <= x < 2 ^ 16 -> u16 x = x.
Proof. intros x H. unfold u16. now apply Z.mod_small. Qed.

Lemma i32_small : forall x, - 2 ^ 31 <= x < 2 ^ 31 -> i32 x = x.
Proof.
  intros x H. unfold i32, u32.
  destruct (Z_lt_le_dec x 0) as [Hneg | Hpos].
  - replace (x mod 2 ^ 32) with (x + 2 ^ 32).
    + destruct (Z.ltb_spec (x + 2 ^ 32) (2 ^ 31)); lia.
    + symmetry. rewrite <- (Z_mod_plus_full x 1 (2 ^ 32)).
      rewrite Z.mul_1_l. apply Z.mod_small. lia.
  - rewrite Z.mod_small by lia.
    destruct (Z.ltb_spec x (2 ^ 31)); lia.
Qed.

(** Closed arithmetic facts, by evaluation. *)
Ltac by_eval :=
  vm_compute; repeat split; intros; try discriminate; try reflexivity;
  try match goal with H : _ -> False |- False => apply H; reflexivity end.

(** ** The A/V synchroniser *)

Section AVSyncProperties.
Import AVSync.

Lemma not_running_not_started : forall sync,
  state sync <> AVSYNC_STATE_RUNNING ->
  fst (AVSync_GetFrameDecision sync) = AVSYNC_NOT_STARTED.
Proof.
  intros sync H. unfold AVSync_GetFrameDecision.
  destruct (state sync); simpl; congruence.
Qed.

(** Within the [int32_t] range the drift is the plain difference. *)
Lemma drift_of_exact : forall sync,
  0 <= video_frames_rendered sync < 2 ^ 31 ->
  0 <= audio_samples_played sync / samples_per_frame sync < 2 ^ 31 ->
  drift_of sync =
  video_frames_rendered sync - audio_samples_played sync / samples_per_frame sync.
Proof.
  intros sync Hv Ha. unfold drift_of.
  rewrite (i32_small (video_frames_rendered sync)) by lia.
  rewrite (i32_small (_ / _)) by lia.
  apply i32_small. lia.
Qed.

Lemma decision_cases : forall sync,
  state sync = AVSYNC_STATE_RUNNING ->
  fst (AVSync_GetFrameDecision sync) =
  if drift_of sync <? i32 (- i32 (max_drift_frames sync)) then AVSYNC_SKIP_FRAME
  else if i32 (max_drift_frames sync) <? drift_of sync then AVSYNC_REPEAT_FRAME
  else AVSYNC_RENDER_FRAME.
Proof.
  intros sync H. unfold AVSync_GetFrameDecision. rewrite H. simpl.
  destruct (_ <? i32 _); [reflexivity|].
  destruct (i32 _ <? _); reflexivity.
Qed.

(** C2 (as stated, refuted): a running synchroniser with
    [video_frames_rendered = 2^31], nothing played, S = 1 and D = 2 has
    [video_frames_rendered - audio_samples_played / S > D], yet the decision
    is SKIP, not REPEAT: the [int32_t] cast reads 2^31 as negative. *)
Lemma decision_law_fails_past_int32 :
  state sync_far_ahead = AVSYNC_STATE_RUNNING /\
  fst (AVSync_GetFrameDecision sync_far_ahead) = AVSYNC_SKIP_FRAME /\
  ~ (fst (AVSync_GetFrameDecision sync_far_ahead) = AVSYNC_REPEAT_FRAME <->
     video_frames_rendered sync_far_ahead
       - audio_samples_played sync_far_ahead / samples_per_frame sync_far_ahead
     > max_drift_frames sync_far_ahead).
Proof.
  split; [reflexivity|]. split; [reflexivity|].
  intros [_ H].
  assert (E : fst (AVSync_GetFrameDecision sync_far_ahead) = AVSYNC_SKIP_FRAME)
    by reflexivity.
  rewrite E in H.
  assert (AVSYNC_SKIP_FRAME = AVSYNC_REPEAT_FRAME) by (apply H; reflexivity).
  discriminate.
Qed.

(** C2 (amended): outside RUNNING the decision is NOT_STARTED; in RUNNING,
    with S >= 1 and with D, the video frame index and the audio frame index
    [audio_samples_played / S] all below 2^31, the decision is RENDER iff
    |drift| <= D, SKIP iff drift < -D and REPEAT iff drift > D, where
    drift = video_frames_rendered - audio_samples_played / S. *)
Theorem decision_law : forall sync,
  let S := samples_per_frame sync in
  let D := max_drift_frames sync in
  let d := video_frames_rendered sync - audio_samples_played sync / S in
  let decision := fst (AVSync_GetFrameDecision sync) in
  (state sync <> AVSYNC_STATE_RUNNING -> decision = AVSYNC_NOT_STARTED) /\
  (state sync = AVSYNC_STATE_RUNNING ->
   0 < S -> 0 <= D < 2 ^ 31 ->
   0 <= video_frames_rendered sync < 2 ^ 31 ->
   audio_samples_played sync / S < 2 ^ 31 ->
   0 <= audio_samples_played sync ->
   (decision = AVSYNC_RENDER_FRAME <-> Z.abs d <= D) /\
   (decision = AVSYNC_SKIP_FRAME <-> d < - D) /\
   (decision = AVSYNC_REPEAT_FRAME <-> d > D)).
Proof.
  intros sync S D d decision. split.
  - apply not_running_not_started.
  - intros Hrun HS HD Hv Ha Hp.
    assert (Hq : 0 <= audio_samples_played sync / S)
      by (apply Z.div_pos; lia).
    subst decision. rewrite (decision_cases sync Hrun).
    rewrite (drift_of_exact sync) by (fold S; lia).
    fold S. fold d. fold D.
    rewrite (i32_small D) by lia.
    rewrite (i32_small (- D)) by lia.
    destruct (Z.ltb_spec d (- D)) as [H1 | H1].
    + repeat split; intros; try discriminate; lia.
    + destruct (Z.ltb_spec D d) as [H2 | H2];
        repeat split; intros; try discriminate; lia.
Qed.

Lemma decision_law_witness :
  let decision := fst (AVSync_GetFrameDecision sync_playing) in
  let d := video_frames_rendered sync_playing
           - audio_samples_played sync_playing / samples_per_frame sync_playing in
  (decision = AVSYNC_RENDER_FRAME <-> Z.abs d <= 2) /\
  (decision = AVSYNC_SKIP_FRAME <-> d < - 2) /\
  (decision = AVSYNC_REPEAT_FRAME <-> d > 2).
Proof.
  apply (proj2 (decision_law sync_playing)); by_eval.
Defined.

(** Each operation, on the sample counter. *)

Lemma tick_not_running : forall s n,
  state s <> AVSYNC_STATE_RUNNING -> AVSync_AudioTick s n = s.
Proof.
  intros s n H. unfold AVSync_AudioTick.
  destruct (state s); simpl; congruence.
Qed.

Lemma tick_running : forall s n,
  state s = AVSYNC_STATE_RUNNING ->
  audio_samples_played (AVSync_AudioTick s n) = u32 (audio_samples_played s + n).
Proof. intros s n H. unfold AVSync_AudioTick. rewrite H. reflexivity. Qed.

Lemma decision_keeps_samples : forall s,
  audio_samples_played (snd (AVSync_GetFrameDecision s)) = audio_samples_played s.
Proof.
  intros s. unfold AVSync_GetFrameDecision.
  destruct (negb _); [reflexivity|].
  destruct (_ <? i32 _); [reflexivity|].
  destruct (i32 _ <? _); reflexivity.
Qed.

Lemma start_samples : forall s,
  audio_samples_played (AVSync_Start s) =
  if initialized s then 0 else audio_samples_played s.
Proof. intros s. unfold AVSync_Start. destruct (initialized s); reflexivity. Qed.

(** An operation other than a tick or a start leaves the counter alone. *)
Lemma other_ops_keep_samples : forall s op,
  is_tick op = false -> is_start op = false ->
  audio_samples_played (sync_step s op) = audio_samples_played s.
Proof.
  intros s op Ht Hs. destruct op; simpl in *; try discriminate;
    auto using decision_keeps_samples.
Qed.

Lemma ticked_nonneg : forall ops, ticks_u32 ops -> 0 <= ticked ops.
Proof.
  induction ops as [| op ops IH]; simpl; intros H; [lia|].
  destruct op; auto. destruct H as [Hn Hr]. specialize (IH Hr). lia.
Qed.

(** One step of a start-free run: the counter grows by at most the ticked
    samples and does not shrink. *)
Lemma step_bounds : forall s op,
  is_start op = false -> ticks_u32 [op] ->
  0 <= audio_samples_played s ->
  audio_samples_played s + ticked [op] < 2 ^ 32 ->
  audio_samples_played s <= audio_samples_played (sync_step s op)
    <= audio_samples_played s + ticked [op].
Proof.
  intros s op Hs Hu H0 Hb.
  destruct op; simpl in *; try discriminate;
    try (rewrite ?decision_keeps_samples; lia).
  destruct Hu as [Hn _].
  unfold AVSync_AudioTick. destruct (is_running (state s)); simpl; [|lia].
  rewrite u32_small; lia.
Qed.

Lemma ticked_cons : forall op ops, ticked (op :: ops) = ticked [op] + ticked ops.
Proof. intros op ops. destruct op; simpl; lia. Qed.

Lemma ticks_u32_cons : forall op ops,
  ticks_u32 (op :: ops) -> ticks_u32 [op] /\ ticks_u32 ops.
Proof. intros op ops H. destruct op; simpl in *; tauto. Qed.

Lemma run_monotone : forall ops s,
  forallb (fun op => negb (is_start op)) ops = true ->
  ticks_u32 ops ->
  0 <= audio_samples_played s ->
  audio_samples_played s + ticked ops < 2 ^ 32 ->
  audio_samples_played s <= audio_samples_played (sync_run s ops).
Proof.
  induction ops as [| op ops IH]; intros s Hns Hu H0 Hb.
  - simpl. lia.
  - change (forallb (fun o => negb (is_start o)) (op :: ops))
      with (negb (is_start op) && forallb (fun o => negb (is_start o)) ops)
      in Hns.
    apply andb_prop in Hns. destruct Hns as [Hop Hns].
    apply negb_true_iff in Hop.
    apply ticks_u32_cons in Hu. destruct Hu as [Hu1 Hur].
    rewrite ticked_cons in Hb.
    pose proof (ticked_nonneg ops Hur) as Hr.
    assert (Hs1 : audio_samples_played s <= audio_samples_played (sync_step s op)
                  <= audio_samples_played s + ticked [op]).
    { apply step_bounds; auto. lia. }
    specialize (IH (sync_step s op) Hns Hur).
    change (sync_run s (op :: ops)) with (sync_run (sync_step s op) ops).
    lia.
Qed.

(** C9 (as stated, refuted): [AVSync_Start] is among the listed operations
    and resets the counter, so on a running synchroniser that has played
    4096 samples a start brings [audio_samples_played] back to 0 while the
    state is RUNNING before and after. *)
Lemma start_resets_samples_played :
  state sync_playing = AVSYNC_STATE_RUNNING /\
  state (sync_run sync_playing [Op_Start]) = AVSYNC_STATE_RUNNING /\
  audio_samples_played sync_playing = 4096 /\
  audio_samples_played (sync_run sync_playing [Op_Start]) = 0 /\
  ~ (audio_samples_played sync_playing
     <= audio_samples_played (sync_run sync_playing [Op_Start])).
Proof. by_eval. Qed.

(** C9 (amended): across any run of audio_tick, get_frame_decision,
    frame_rendered, frame_skipped and stop whose ticks do not carry the
    32-bit counter past 2^32, [audio_samples_played] never decreases;
    start on an initialised handle resets it to 0; audio_tick is the only
    operation that can increase it, and only in RUNNING; audio_tick in any
    other state leaves the handle unchanged. *)
Theorem samples_played_monotone : forall s,
  0 <= audio_samples_played s ->
  (forall ops,
     forallb (fun op => negb (is_start op)) ops = true ->
     ticks_u32 ops ->
     audio_samples_played s + ticked ops < 2 ^ 32 ->
     audio_samples_played s <= audio_samples_played (sync_run s ops)) /\
  (initialized s = true -> audio_samples_played (AVSync_Start s) = 0) /\
  (forall op,
     audio_samples_played s < audio_samples_played (sync_step s op) ->
     is_tick op = true /\ state s = AVSYNC_STATE_RUNNING) /\
  (forall n, state s <> AVSYNC_STATE_RUNNING -> AVSync_AudioTick s n = s).
Proof.
  intros s H0. split; [|split; [|split]].
  - intros ops Hns Hu Hb. now apply run_monotone.
  - intros Hi. rewrite start_samples, Hi. reflexivity.
  - intros op Hlt.
    destruct op; simpl in Hlt;
      try (rewrite ?decision_keeps_samples in Hlt; simpl in Hlt; lia).
    + split; [reflexivity|].
      destruct (state s) eqn:E; try reflexivity;
        rewrite tick_not_running in Hlt by congruence; lia.
    + rewrite start_samples in Hlt. destruct (initialized s); lia.
  - intros n. apply tick_not_running.
Qed.

Lemma samples_played_monotone_witness :
  audio_samples_played sync_playing
  <= audio_samples_played
       (sync_run sync_playing
          [Op_GetFrameDecision; Op_FrameRendered; Op_AudioTick 2048;
           Op_FrameSkipped; Op_Stop; Op_AudioTick 2048]).
Proof.
  apply (proj1 (samples_played_monotone sync_playing ltac:(by_eval))); by_eval.
Defined.

End AVSyncProperties.

(** ** The audio DMA handler *)

Section AudioProperties.
Import Audio.

(** The handler never writes [stats.underrun_count], pending refill or
    not. *)
Lemma handler_keeps_underrun_count : forall audio is_half_transfer,
  underrun_count (stats (audio_HandleDMA audio is_half_transfer))
  = underrun_count (stats audio).
Proof.
  intros audio h. unfold audio_HandleDMA.
  destruct (initialized audio); reflexivity.
Qed.

(** C1 (the code at the failing input): the first half-complete interrupt
    has set [needs_refill], the foreground has not refilled, and the next
    interrupt of either kind leaves [underrun_count] at 0 where the claim
    has it become 1. *)
Theorem underrun_not_counted :
  initialized audio_pending = true /\
  needs_refill audio_pending = true /\
  underrun_count (stats audio_pending) = 0 /\
  underrun_count (stats (audio_HandleDMA audio_pending true)) = 0 /\
  underrun_count (stats (audio_HandleDMA audio_pending false)) = 0.
Proof. repeat split. Qed.

End AudioProperties.

(** ** The triple-buffered display state *)

Section DisplayProperties.
Import Display.

Lemma roles_distinct_swap_first : forall a b c,
  Permutation [a; b; c] [0; 1; 2] -> Permutation [b; a; c] [0; 1; 2].
Proof.
  intros a b c H. eapply perm_trans; [apply perm_swap | exact H].
Qed.

Lemma roles_distinct_swap_last : forall a b c,
  Permutation [a; b; c] [0; 1; 2] -> Permutation [a; c; b] [0; 1; 2].
Proof.
  intros a b c H.
  eapply perm_trans; [apply perm_skip, perm_swap | exact H].
Qed.

Lemma step_keeps_roles : forall s op,
  roles_distinct s -> roles_distinct (display_step s op).
Proof.
  intros s op H. unfold roles_distinct in *. destruct op; simpl.
  - now apply roles_distinct_swap_first.
  - unfold Display_StartTransfer.
    destruct (transfer_busy s); [exact H|].
    destruct (negb (Display_HasFrame s)); [exact H|].
    simpl. now apply roles_distinct_swap_last.
  - exact H.
Qed.

Lemma run_keeps_roles : forall ops s,
  roles_distinct s -> roles_distinct (display_run s ops).
Proof.
  induction ops as [| op ops IH]; intros s H; simpl; [exact H|].
  apply IH. now apply step_keeps_roles.
Qed.

Lemma permutation_012_distinct : forall a b c,
  Permutation [a; b; c] [0; 1; 2] -> a <> b /\ b <> c /\ a <> c.
Proof.
  intros a b c H.
  assert (N : NoDup [a; b; c]).
  { apply (Permutation_NoDup (Permutation_sym H)).
    repeat constructor; simpl; intuition lia. }
  inversion N as [| x l Ha Nbc]; subst.
  inversion Nbc as [| y l' Hb Nc]; subst.
  simpl in Ha, Hb. repeat split; intro; subst; tauto.
Qed.

(** C4: from the initial state (render 0, ready 2, transfer 1), after any
    sequence of swap_buffers, start_transfer and transfer_complete, the
    indices render, ready and transfer are a permutation of 0, 1, 2, hence
    pairwise distinct. *)
Theorem triple_buffer_permutation : forall ops,
  let s := display_run g_display_buffers ops in
  Permutation [render s; ready s; transfer s] [0; 1; 2] /\
  render s <> ready s /\ ready s <> transfer s /\ render s <> transfer s.
Proof.
  intros ops s.
  assert (H : roles_distinct s).
  { apply run_keeps_roles. unfold roles_distinct. simpl.
    apply perm_skip, perm_swap. }
  split; [exact H|]. now apply permutation_012_distinct.
Qed.

End DisplayProperties.

(** ** Sample conversion *)

Section ConversionProperties.
Import Media.

Lemma scaled_bounds : forall s v,
  - 32768 <= s <= 32767 -> 0 <= v <= 100 ->
  - 32768 <= Z.quot (s * v) 100 <= 32767.
Proof.
  intros s v Hs Hv.
  destruct (Z_lt_le_dec s 0) as [Hneg | Hpos].
  - assert (E : s * v = - ((- s) * v)) by lia.
    rewrite E, Z.quot_opp_l by lia.
    rewrite Z.quot_div_nonneg by nia.
    assert (0 <= (- s * v) / 100 <= 32768).
    { split; [apply Z.div_pos; nia|].
      apply Z.div_le_upper_bound; nia. }
    lia.
  - rewrite Z.quot_div_nonneg by nia.
    split.
    + assert (0 <= s * v / 100) by (apply Z.div_pos; nia). lia.
    + apply Z.div_le_upper_bound; nia.
Qed.

(** C7: for every signed 16-bit sample [s] and volume [v] in 0..100 the
    conversion is [((s * v) / 100 + 32768) >> 4] with C's truncating
    division, its value lies in 0..4095, and [s = 0] at [v = 100] gives
    0x800. *)
Theorem dac_sample_range : forall s v,
  - 32768 <= s <= 32767 -> 0 <= v <= 100 ->
  dac_sample s v = Z.shiftr (Z.quot (s * v) 100 + 32768) 4 /\
  0 <= dac_sample s v <= 4095 /\
  dac_sample 0 100 = 0x800.
Proof.
  intros s v Hs Hv.
  pose proof (scaled_bounds s v Hs Hv) as Hq.
  assert (Hsh : 0 <= Z.shiftr (Z.quot (s * v) 100 + 32768) 4 <= 4095).
  { rewrite Z.shiftr_div_pow2 by lia. change (2 ^ 4) with 16.
    split; [apply Z.div_pos; lia|].
    apply Z.lt_succ_r. apply Z.div_lt_upper_bound; lia. }
  assert (E : dac_sample s v = Z.shiftr (Z.quot (s * v) 100 + 32768) 4).
  { unfold dac_sample.
    rewrite (i32_small (s * v)) by nia.
    rewrite (i32_small (Z.quot _ _)) by lia.
    rewrite (i32_small (_ + 32768)) by lia.
    apply u16_small. lia. }
  rewrite E. repeat split; try lia. 
Qed.

Lemma dac_sample_range_witness :
  dac_sample (-32768) 100 = Z.shiftr (Z.quot (-32768 * 100) 100 + 32768) 4 /\
  0 <= dac_sample (-32768) 100 <= 4095 /\
  dac_sample 0 100 = 0x800.
Proof. apply (dac_sample_range (-32768) 100); lia. Defined.

End ConversionProperties.

(** ** Byte buffers *)

Lemma list_set_length : forall (A : Type) (l : list A) i x,
  length (list_set l i x) = length l.
Proof.
  induction l as [| h t IH]; intros i x; simpl; [reflexivity|].
  destruct i; simpl; auto.
Qed.

(** A store below the end of a prefix stays in the prefix. *)
Lemma list_set_app : forall (A : Type) (pre post : list A) i x,
  (i < length pre)%nat -> list_set (pre ++ post) i x = list_set pre i x ++ post.
Proof.
  induction pre as [| h t IH]; intros post i x H; simpl in *; [lia|].
  destruct i; simpl; [reflexivity|]. f_equal. apply IH. lia.
Qed.

(** ** FAT_ConvertFilename *)

Section FilenameProperties.
Import FAT.

Lemma memset_app : forall pre post c,
  memset (pre ++ post) c (length pre) = repeat c (length pre) ++ post.
Proof.
  induction pre as [| h t IH]; intros post c; simpl.
  - destruct post; reflexivity.
  - f_equal. apply IH.
Qed.

Lemma copy_name_length : forall input o output,
  length (snd (copy_name input o output)) = length output.
Proof.
  induction input as [| c rest IH]; intros o output; simpl; [reflexivity|].
  destruct (is_nul c || is_dot c || negb (o <? 8)%nat); simpl; [reflexivity|].
  rewrite IH. apply list_set_length.
Qed.

Lemma copy_ext_length : forall input o output,
  length (copy_ext input o output) = length output.
Proof.
  induction input as [| c rest IH]; intros o output; simpl; [reflexivity|].
  destruct (is_nul c || negb (o <? 11)%nat); simpl; [reflexivity|].
  rewrite IH. apply list_set_length.
Qed.

(** Both loops store below index 11 only: what lies behind an 11-byte
    prefix is carried along untouched, and the bytes stored do not depend
    on it. *)
Lemma copy_name_app : forall input o pre post,
  (8 <= length pre)%nat ->
  copy_name input o (pre ++ post)
  = (fst (copy_name input o pre), snd (copy_name input o pre) ++ post).
Proof.
  induction input as [| c rest IH]; intros o pre post H; simpl; [reflexivity|].
  destruct (is_nul c || is_dot c) eqn:E1; simpl; [reflexivity|].
  destruct (Nat.ltb_spec o 8) as [Ho | Ho]; simpl; [|reflexivity].
  rewrite list_set_app by lia.
  apply IH. rewrite list_set_length. exact H.
Qed.

Lemma copy_ext_app : forall input o pre post,
  (11 <= length pre)%nat ->
  copy_ext input o (pre ++ post) = copy_ext input o pre ++ post.
Proof.
  induction input as [| c rest IH]; intros o pre post H; simpl; [reflexivity|].
  destruct (is_nul c); simpl; [reflexivity|].
  destruct (Nat.ltb_spec o 11) as [Ho | Ho]; simpl; [|reflexivity].
  rewrite list_set_app by lia.
  apply IH. rewrite list_set_length. exact H.
Qed.

Lemma convert_length : forall input output,
  length (FAT_ConvertFilename input output) = length output.
Proof.
  intros input output. unfold FAT_ConvertFilename.
  destruct (copy_name input 0 (memset output " "%char FAT_MAX_FILENAME))
    as [rest out] eqn:E.
  rewrite copy_ext_length.
  change out with (snd (rest, out)). rewrite <- E, copy_name_length.
  clear E. generalize FAT_MAX_FILENAME. revert output.
  induction output as [| h t IH]; intros n; destruct n; simpl; auto.
Qed.

Lemma convert_app : forall input pre post,
  length pre = 11%nat ->
  FAT_ConvertFilename input (pre ++ post)
  = FAT_ConvertFilename input name_buffer ++ post.
Proof.
  intros input pre post L.
  unfold FAT_ConvertFilename, FAT_MAX_FILENAME.
  replace (memset (pre ++ post) " "%char 11)
    with (repeat " "%char 11 ++ post)
    by (rewrite <- L; symmetry; apply memset_app).
  change (memset name_buffer " "%char 11) with (repeat " "%char 11).
  rewrite copy_name_app by (rewrite repeat_length; lia).
  destruct (copy_name input 0 (repeat " "%char 11)) as [rest out] eqn:E.
  simpl fst. simpl snd.
  apply copy_ext_app.
  change out with (snd (rest, out)). rewrite <- E, copy_name_length.
  rewrite repeat_length. lia.
Qed.

Lemma convert_frame : forall input output,
  (11 <= length output)%nat ->
  FAT_ConvertFilename input output
  = FAT_ConvertFilename input name_buffer ++ skipn 11 output.
Proof.
  intros input output H.
  rewrite <- (firstn_skipn 11 output) at 1.
  apply convert_app. rewrite length_firstn. lia.
Qed.

(** On canonical bytes the loops take their copying (or skipping) branch. *)
Lemma canonical_char_inv : forall c,
  canonical_char c = true -> is_nul c = false /\ is_dot c = false /\ toupper c = c.
Proof.
  intros c H. unfold canonical_char in H.
  apply andb_prop in H. destruct H as [H H3].
  apply andb_prop in H. destruct H as [H1 H2].
  apply negb_true_iff in H1. apply negb_true_iff in H2.
  apply Ascii.eqb_eq in H3. auto.
Qed.

Lemma copy_name_step : forall c rest o output,
  canonical_char c = true -> (o < 8)%nat ->
  copy_name (String c rest) o output = copy_name rest (S o) (list_set output o c).
Proof.
  intros c rest o output H Ho.
  destruct (canonical_char_inv c H) as (H1 & H2 & H3).
  simpl. rewrite H1, H2, H3.
  destruct (Nat.ltb_spec o 8); [reflexivity | lia].
Qed.

Lemma copy_name_full : forall input output,
  copy_name input 8 output = (input, output).
Proof.
  intros input output. destruct input as [| c rest]; simpl; [reflexivity|].
  now rewrite orb_true_r.
Qed.

Lemma skip_to_dot_step : forall c rest,
  canonical_char c = true -> skip_to_dot (String c rest) = skip_to_dot rest.
Proof.
  intros c rest H. destruct (canonical_char_inv c H) as (H1 & H2 & _).
  simpl. now rewrite H1, H2.
Qed.

(** A canonical name given back to the conversion keeps its 8 name bytes
    and loses its extension: without a dot the skip loop runs to the end
    of the string. *)
Lemma convert_canonical : forall name ext,
  canonical83 name ext ->
  FAT_ConvertFilename (string_of_list_ascii (name ++ ext)) name_buffer
  = name ++ repeat " "%char 3.
Proof.
  intros name ext (Hn & He & Hc).
  do 9 (destruct name as [| ? name]; try discriminate Hn).
  do 4 (destruct ext as [| ? ext]; try discriminate He).
  simpl app in Hc. simpl forallb in Hc.
  repeat match type of Hc with
         | (_ && _ = true) =>
             let H := fresh "Hc" in
             apply andb_prop in Hc; destruct Hc as [H Hc]
         end.
  unfold FAT_ConvertFilename, FAT_MAX_FILENAME.
  change (memset name_buffer " "%char 11) with (repeat " "%char 11).
  simpl string_of_list_ascii.
  repeat (rewrite copy_name_step by (auto; lia)).
  rewrite copy_name_full.
  repeat (rewrite skip_to_dot_step by auto).
  reflexivity.
Qed.

(** C5 (as stated, refuted): the canonical 11 bytes of BADAPPLE.BIN,
    upper-case, no dot, come back as the name followed by three spaces,
    not as themselves. *)
Lemma convert_filename_not_idempotent :
  canonical83 (list_ascii_of_string "BADAPPLE") (list_ascii_of_string "BIN") /\
  FAT_ConvertFilename "BADAPPLEBIN" name_buffer
    = list_ascii_of_string "BADAPPLE   " /\
  FAT_ConvertFilename "BADAPPLEBIN" name_buffer
    <> list_ascii_of_string "BADAPPLEBIN".
Proof.
  split; [repeat split|]. split; [reflexivity|].
  vm_compute. discriminate.
Qed.

(** C5 (amended): the conversion writes exactly the first 11 bytes of its
    output buffer, whatever the input: the bytes behind stay as they were
    and the 11 depend on the input alone.  Applied to a canonical 8.3 name
    (8 + 3 upper-case space-padded bytes, no dot) it gives back the 8 name
    bytes followed by three spaces, hence the same 11 bytes exactly when
    the extension is blank. *)
Theorem convert_filename_canonical : forall input output name ext,
  (11 <= length output)%nat ->
  canonical83 name ext ->
  let canon := string_of_list_ascii (name ++ ext) in
  length (FAT_ConvertFilename input name_buffer) = 11%nat /\
  FAT_ConvertFilename input output
    = FAT_ConvertFilename input name_buffer ++ skipn 11 output /\
  FAT_ConvertFilename canon name_buffer = name ++ repeat " "%char 3 /\
  (FAT_ConvertFilename canon name_buffer = name ++ ext
   <-> ext = repeat " "%char 3).
Proof.
  intros input output name ext Hlen Hc canon.
  split; [apply convert_length|].
  split; [now apply convert_frame|].
  pose proof (convert_canonical name ext Hc) as E. fold canon in E.
  split; [exact E|].
  rewrite E. split; intros H.
  - apply app_inv_head in H. now symmetry.
  - now rewrite H.
Qed.

Lemma convert_filename_canonical_witness :
  let name := list_ascii_of_string "README  " in
  let ext := repeat " "%char 3 in
  let output := repeat "#"%char 13 in
  let canon := string_of_list_ascii (name ++ ext) in
  length (FAT_ConvertFilename "BADAPPLE.BIN" name_buffer) = 11%nat /\
  FAT_ConvertFilename "BADAPPLE.BIN" output
    = FAT_ConvertFilename "BADAPPLE.BIN" name_buffer ++ skipn 11 output /\
  FAT_ConvertFilename canon name_buffer = name ++ repeat " "%char 3 /\
  (FAT_ConvertFilename canon name_buffer = name ++ ext
   <-> ext = repeat " "%char 3).
Proof.
  apply (convert_filename_canonical "BADAPPLE.BIN" (repeat "#"%char 13)
           (list_ascii_of_string "README  ") (repeat " "%char 3)).
  - simpl; lia.
  - repeat split.
Defined.

End FilenameProperties.

(** ** Filling with silence *)

Lemma nth_list_set : forall (l : list Z) i j x d,
  nth j (list_set l i x) d
  = if ((j =? i) && (i <? length l))%nat then x else nth j l d.
Proof.
  induction l as [| h t IH]; intros i j x d.
  - simpl. destruct j; rewrite andb_false_r; reflexivity.
  - destruct i, j; simpl; try reflexivity.
    rewrite IH. reflexivity.
Qed.

Lemma fill_range_length : forall n buf from x,
  length (fill_range buf from n x) = length buf.
Proof.
  induction n as [| n IH]; intros buf from x; simpl; [reflexivity|].
  rewrite IH. apply list_set_length.
Qed.

Lemma nth_fill_range : forall n buf from x j d,
  nth j (fill_range buf from n x) d
  = if ((from <=? j) && (j <? from + n) && (j <? length buf))%nat
    then x else nth j buf d.
Proof.
  induction n as [| n IH]; intros buf from x j d; simpl.
  - destruct (Nat.leb_spec from j), (Nat.ltb_spec j (from + 0)); simpl;
      try reflexivity; lia.
  - rewrite IH, list_set_length, nth_list_set.
    destruct (Nat.leb_spec (S from) j), (Nat.ltb_spec j (S from + n)),
      (Nat.ltb_spec j (length buf)), (Nat.leb_spec from j),
      (Nat.ltb_spec j (from + S n)), (Nat.eqb_spec j from),
      (Nat.ltb_spec from (length buf)); simpl; try reflexivity; lia.
Qed.

(** ** The media reader: closed handles and the end of the audio *)

Section MediaProperties.
Import Media.

(** C8 (as stated, refuted): a call past the end of the audio asking for
    2049 samples is cut to the 2048-sample buffer size: it returns OK and
    entry 2048 of the outputs, which was requested, keeps its old value
    instead of silence. *)
Lemma silence_capped_at_2048 :
  is_open media_at_end = true /\
  audio_size media_at_end / 4 <= current_sample media_at_end /\
  match Media_ReadAudioStereo 0 media_at_end [] (repeat 0 2049) (repeat 0 2049) 2049 with
  | Some r =>
      ar_status r = FAT.FAT_OK /\
      nth 2048 (ar_left r) 0 <> DAC_SILENCE /\
      nth 2048 (ar_right r) 0 <> DAC_SILENCE
  | None => False
  end.
Proof. by_eval. Qed.

(** C8 (amended): for every open media file, a read_audio call with
    [current_sample >= audio_size / 4] returns OK, fills the first
    [min (count, 2048)] entries of both output buffers with DAC silence
    0x800 and leaves the entries behind them as they were, and hands the
    handle back unchanged: [current_sample] is the same and the block
    device has received no command. *)
Theorem read_audio_past_end : forall fuel media scratch left right count,
  is_open media = true ->
  audio_size media / 4 <= current_sample media ->
  exists r,
    Media_ReadAudioStereo fuel media scratch left right count = Some r /\
    ar_status r = FAT.FAT_OK /\
    ar_media r = media /\
    current_sample (ar_media r) = current_sample media /\
    device_commands (ar_media r) = device_commands media /\
    ar_scratch r = scratch /\
    (forall i, (i < length left)%nat ->
       nth i (ar_left r) 0
       = if (i <? Z.to_nat (Z.min count 2048))%nat then 2048 else nth i left 0) /\
    (forall i, (i < length right)%nat ->
       nth i (ar_right r) 0
       = if (i <? Z.to_nat (Z.min count 2048))%nat then 2048 else nth i right 0).
Proof.
  intros fuel media scratch left right count Hopen Hend.
  unfold Media_ReadAudioStereo. rewrite Hopen. simpl negb. cbv iota.
  destruct (Z.leb_spec (audio_size media / 4) (current_sample media)) as [_ | H];
    [| lia].
  eexists. split; [reflexivity|]. simpl.
  repeat split; try reflexivity.
  - intros i Hi. rewrite nth_fill_range.
    unfold MAX_AUDIO_READ_SAMPLES, Audio.AUDIO_BUFFER_SAMPLES, DAC_SILENCE.
    replace (if 2048 <? count then 2048 else count) with (Z.min count 2048)
      by (destruct (Z.ltb_spec 2048 count); lia).
    destruct (Nat.ltb_spec i (length left)); [|lia].
    rewrite andb_true_r. reflexivity.
  - intros i Hi. rewrite nth_fill_range.
    unfold MAX_AUDIO_READ_SAMPLES, Audio.AUDIO_BUFFER_SAMPLES, DAC_SILENCE.
    replace (if 2048 <? count then 2048 else count) with (Z.min count 2048)
      by (destruct (Z.ltb_spec 2048 count); lia).
    destruct (Nat.ltb_spec i (length right)); [|lia].
    rewrite andb_true_r. reflexivity.
Qed.

Lemma read_audio_past_end_witness :
  exists r,
    Media_ReadAudioStereo 0 media_at_end [] [7; 7; 7; 7] [9; 9; 9; 9] 3 = Some r /\
    ar_status r = FAT.FAT_OK /\
    ar_media r = media_at_end /\
    current_sample (ar_media r) = current_sample media_at_end /\
    device_commands (ar_media r) = device_commands media_at_end /\
    ar_scratch r = [] /\
    (forall i, (i < 4)%nat ->
       nth i (ar_left r) 0
       = if (i <? Z.to_nat (Z.min 3 2048))%nat then 2048 else nth i [7; 7; 7; 7] 0) /\
    (forall i, (i < 4)%nat ->
       nth i (ar_right r) 0
       = if (i <? Z.to_nat (Z.min 3 2048))%nat then 2048 else nth i [9; 9; 9; 9] 0).
Proof.
  apply (read_audio_past_end 0 media_at_end [] [7; 7; 7; 7] [9; 9; 9; 9] 3).
  - reflexivity.
  - vm_compute. discriminate.
Defined.

(** Reads on a closed handle are refused before anything is touched. *)
Lemma closed_reads_refused : forall media,
  is_open media = false ->
  (forall fuel frame_number buffer,
     Media_ReadFrameAt fuel media frame_number buffer
     = Some (FAT.FAT_ERROR_INVALID_PARAM, media, buffer)) /\
  (forall fuel scratch left right count,
     Media_ReadAudioStereo fuel media scratch left right count
     = Some (mkAudioRead FAT.FAT_ERROR_INVALID_PARAM media scratch left right)).
Proof.
  intros media H. split; intros.
  - unfold Media_ReadFrameAt. now rewrite H.
  - unfold Media_ReadAudioStereo. now rewrite H.
Qed.

(** The parameter guard of [Media_Open] returns before the handle is
    cleared. *)
Lemma open_invalid_param : forall fuel media vol file_info,
  (vol = None \/ file_info = None \/
   exists v, vol = Some v /\ FAT.mounted v = false) ->
  Media_Open fuel media vol file_info = Some (FAT.FAT_ERROR_INVALID_PARAM, media).
Proof.
  intros fuel media vol file_info [H | [H | (v & H & Hm)]]; subst; simpl.
  - reflexivity.
  - destruct vol; reflexivity.
  - destruct file_info; [|reflexivity]. now rewrite Hm.
Qed.

(** A failed read of the header sector leaves the cleared handle. *)
Lemma open_read_error : forall fuel media v fi,
  FAT.mounted v = true ->
  SD.is_ok (fst (FAT.read_sector v (FAT.FAT_ClusterToSector v (FAT.first_cluster fi))))
    = false ->
  exists media',
    Media_Open fuel media (Some v) (Some fi) = Some (FAT.FAT_ERROR_READ, media') /\
    is_open media' = false.
Proof.
  intros fuel media v fi Hm Hr. unfold Media_Open. rewrite Hm. simpl negb.
  cbv iota.
  destruct (FAT.read_sector v _) as [st v'] eqn:E. simpl in Hr. rewrite Hr.
  simpl. eexists. split; reflexivity.
Qed.

(** Every failure of [Media_Open] is one of the two above. *)
Lemma open_failure_cases : forall fuel media vol file_info st media',
  Media_Open fuel media vol file_info = Some (st, media') ->
  st <> FAT.FAT_OK ->
  (st = FAT.FAT_ERROR_INVALID_PARAM /\ media' = media) \/
  (st = FAT.FAT_ERROR_READ /\ is_open media' = false).
Proof.
  intros fuel media vol file_info st media' H Hst.
  unfold Media_Open in H.
  destruct vol as [v |]; [| inversion H; auto].
  destruct file_info as [fi |]; [| inversion H; auto].
  destruct (FAT.mounted v); simpl in H; [| inversion H; auto].
  destruct (FAT.read_sector v _) as [s v'].
  destruct (SD.is_ok s); simpl in H.
  - destruct (Media_CheckContiguous _ _) as [[b m] |]; inversion H; subst.
    congruence.
  - inversion H; subst. right. split; reflexivity.
Qed.

(** C10 (as stated, refuted): [Media_Open] on a handle that is open, with
    no volume, fails with INVALID_PARAM and leaves the handle as it was,
    open; the read_audio call that follows is served (OK), not refused. *)
Lemma failed_open_keeps_open_handle :
  Media_Open 0 media_at_end None None
    = Some (FAT.FAT_ERROR_INVALID_PARAM, media_at_end) /\
  is_open media_at_end = true /\
  match Media_ReadAudioStereo 0 media_at_end [] [0] [0] 1 with
  | Some r => ar_status r = FAT.FAT_OK
  | None => False
  end.
Proof. by_eval. Qed.

(** C10 (amended): when [Media_Open] fails on its parameters (no volume,
    no file info, volume not mounted) it returns INVALID_PARAM and leaves
    the handle untouched, so [is_open] keeps the value it had; when it
    fails on the read of the header sector it returns READ and leaves the
    handle with [is_open = false]; these are its only failures.  On a
    handle with [is_open = false], [Media_ReadFrameAt] and
    [Media_ReadAudioStereo] return INVALID_PARAM and hand back the handle
    and the buffers unchanged, no device command issued. *)
Theorem open_failure : forall fuel media vol file_info,
  ((vol = None \/ file_info = None \/
    exists v, vol = Some v /\ FAT.mounted v = false) ->
   Media_Open fuel media vol file_info
   = Some (FAT.FAT_ERROR_INVALID_PARAM, media)) /\
  (forall v fi,
     vol = Some v -> file_info = Some fi -> FAT.mounted v = true ->
     SD.is_ok (fst (FAT.read_sector v
                      (FAT.FAT_ClusterToSector v (FAT.first_cluster fi)))) = false ->
     exists media',
       Media_Open fuel media vol file_info = Some (FAT.FAT_ERROR_READ, media') /\
       is_open media' = false) /\
  (forall st media',
     Media_Open fuel media vol file_info = Some (st, media') ->
     st <> FAT.FAT_OK ->
     ((st = FAT.FAT_ERROR_INVALID_PARAM /\ media' = media) \/
      (st = FAT.FAT_ERROR_READ /\ is_open media' = false)) /\
     (is_open media' = false ->
      (forall fuel' frame_number buffer,
         Media_ReadFrameAt fuel' media' frame_number buffer
         = Some (FAT.FAT_ERROR_INVALID_PARAM, media', buffer)) /\
      (forall fuel' scratch left right count,
         Media_ReadAudioStereo fuel' media' scratch left right count
         = Some (mkAudioRead FAT.FAT_ERROR_INVALID_PARAM media' scratch left right)))).
Proof.
  intros fuel media vol file_info. split; [|split].
  - apply open_invalid_param.
  - intros v fi -> -> Hm Hr. now apply open_read_error.
  - intros st media' H Hst. split.
    + eapply open_failure_cases; eauto.
    + apply closed_reads_refused.
Qed.

(** ** Contiguity detection *)

Lemma write_at_length : forall buf pos data,
  length (write_at buf pos data) = length buf.
Proof.
  intros buf pos data. unfold write_at.
  rewrite !length_app, !length_firstn, length_skipn. lia.
Qed.

Lemma write_at_whole : forall buf data,
  length buf = length data -> write_at buf 0 data = data.
Proof.
  intros buf data H. unfold write_at. simpl.
  rewrite Nat.sub_0_r, H, firstn_all.
  rewrite skipn_all2 by lia. apply app_nil_r.
Qed.

Lemma block_data_length : forall d, length (SD.block_data d) = 512%nat.
Proof.
  intros d. unfold SD.block_data.
  rewrite length_firstn, length_app, repeat_length. lia.
Qed.

Lemma same_fat_refl : forall v, FAT.same_fat v v.
Proof. intros v. repeat split. Qed.

Lemma same_fat_trans : forall a b c,
  FAT.same_fat a b -> FAT.same_fat b c -> FAT.same_fat a c.
Proof.
  intros a b c (H1 & H2 & H3 & H4) (K1 & K2 & K3 & K4).
  repeat split; congruence.
Qed.

(** Reading a sector changes the scratch buffer and the command log, not
    the card, the boot sector or the mount flag. *)
Lemma read_sector_keeps : forall v sector,
  FAT.same_fat v (snd (FAT.read_sector v sector)) /\
  (FAT.scratch_ok v -> FAT.scratch_ok (snd (FAT.read_sector v sector))).
Proof.
  intros v sector. unfold FAT.read_sector, SD.SD_ReadBlock, FAT.scratch_ok.
  destruct (SD.initialized (FAT.hsd v)) eqn:Ei; simpl.
  - destruct (SD.card (FAT.hsd v) sector); simpl;
      (split; [repeat split; simpl; auto |]); auto.
    intros H. now rewrite write_at_length.
  - split; [repeat split | auto].
Qed.

Lemma next_cluster_keeps : forall v c,
  FAT.same_fat v (snd (FAT.FAT_GetNextCluster v c)) /\
  (FAT.scratch_ok v -> FAT.scratch_ok (snd (FAT.FAT_GetNextCluster v c))).
Proof.
  intros v c. unfold FAT.FAT_GetNextCluster.
  destruct (negb (FAT.mounted v) || (c <? 2)).
  - split; [apply same_fat_refl | auto].
  - pose proof (read_sector_keeps v
      (u32 (FAT.fat_start_sector (FAT.boot v)
            + u32 (c * 4) / FAT.FAT_SECTOR_SIZE))) as K.
    destruct (FAT.read_sector v _) as [st v']. simpl in K.
    destruct (negb (SD.is_ok st)); exact K.
Qed.

(** The entry read for a cluster is a matter of the card and the boot
    sector alone. *)
Lemma fat_entry_same : forall v v' c,
  FAT.same_fat v v' -> FAT.scratch_ok v -> FAT.scratch_ok v' ->
  FAT.fat_entry v' c = FAT.fat_entry v c.
Proof.
  intros v v' c (H1 & H2 & H3 & H4) K K'.
  unfold FAT.fat_entry, FAT.FAT_GetNextCluster.
  rewrite <- H1, <- H2.
  destruct (negb (FAT.mounted v) || (c <? 2)); [reflexivity|].
  unfold FAT.read_sector, SD.SD_ReadBlock.
  rewrite <- H3, <- H4.
  destruct (SD.initialized (FAT.hsd v)); simpl; [|reflexivity].
  destruct (SD.card (FAT.hsd v) _) as [d |]; simpl; [|reflexivity].
  rewrite !write_at_whole; [reflexivity | |];
    rewrite block_data_length; assumption.
Qed.

Lemma cluster_to_sector_same : forall v v' c,
  FAT.same_fat v v' -> FAT.FAT_ClusterToSector v' c = FAT.FAT_ClusterToSector v c.
Proof.
  intros v v' c (H1 & H2 & _). unfold FAT.FAT_ClusterToSector.
  now rewrite H1, H2.
Qed.

Lemma not_end_of_chain_range : forall c,
  FAT.FAT_IsEndOfChain c = false -> 2 <= c < 0x0FFFFFF8.
Proof.
  intros c H. unfold FAT.FAT_IsEndOfChain, FAT.FAT_CLUSTER_END in H.
  apply orb_false_iff in H. destruct H as [H1 H2].
  apply Z.ltb_ge in H1. apply Z.leb_gt in H2. lia.
Qed.

Lemma chain_from_head : forall v c rest,
  FAT.chain_from v c rest -> FAT.FAT_IsEndOfChain c = false.
Proof. intros v c rest H. destruct rest; simpl in H; tauto. Qed.

(** One turn of the walk, for a cluster that is valid and not yet beyond
    the safety limit. *)
Lemma contiguous_walk_turn : forall fuel v c prev count E,
  FAT.FAT_IsEndOfChain c = false ->
  0 <= E -> E + 11 < 2 ^ 32 -> 0 <= count <= E + 10 ->
  contiguous_walk (S fuel) v c prev count E
  = if (1 <? count + 1) && negb (c =? u32 (prev + 1)) then Some (false, v)
    else if E + 10 <? count + 1
         then Some (true, snd (FAT.FAT_GetNextCluster v c))
         else contiguous_walk fuel (snd (FAT.FAT_GetNextCluster v c))
                (FAT.fat_entry v c) c (count + 1) E.
Proof.
  intros fuel v c prev count E Hc HE HE' Hcount.
  simpl. rewrite Hc.
  rewrite (u32_small (count + 1)) by lia.
  rewrite (u32_small (E + 10)) by lia.
  destruct ((1 <? count + 1) && negb (c =? u32 (prev + 1))); [reflexivity|].
  unfold FAT.fat_entry.
  destruct (FAT.FAT_GetNextCluster v c) as [n v']. reflexivity.
Qed.

Lemma contiguous_walk_end : forall fuel v c prev count E,
  FAT.FAT_IsEndOfChain c = true ->
  contiguous_walk fuel v c prev count E = Some (true, v).
Proof. intros fuel v c prev count E H. destruct fuel; simpl; now rewrite H. Qed.

Section Walk.
Variable v0 : FAT.FAT_Volume.
Variable E : Z.
Hypothesis v0_ok : FAT.scratch_ok v0.
Hypothesis E_nonneg : 0 <= E.
Hypothesis E_small : E + 11 < 2 ^ 32.

(** A chain of consecutive clusters is walked to its end, or to the safety
    limit, without a gap being reported. *)
Lemma walk_consecutive : forall rest c v prev count fuel,
  FAT.same_fat v0 v -> FAT.scratch_ok v ->
  FAT.chain_from v0 c rest -> FAT.consecutive c rest ->
  0 <= count <= E + 10 ->
  (count = 0 \/ c = prev + 1) ->
  (length rest < fuel)%nat ->
  exists v',
    contiguous_walk fuel v c prev count E = Some (true, v') /\ FAT.same_fat v0 v'.
Proof.
  induction rest as [| d r IH]; intros c v prev count fuel Hs Hok Hch Hcons Hcount Hprev Hf.
  - destruct Hch as [Hc Hend].
    destruct fuel as [| fuel]; [simpl in Hf; lia|].
    pose proof (not_end_of_chain_range c Hc) as Hr.
    destruct (next_cluster_keeps v c) as [Ks Kok].
    rewrite contiguous_walk_turn by auto.
    replace ((1 <? count + 1) && negb (c =? u32 (prev + 1))) with false.
    2:{ destruct Hprev as [-> | ->]; [reflexivity|].
        rewrite u32_small by lia. rewrite Z.eqb_refl. simpl.
        now rewrite andb_false_r. }
    destruct (E + 10 <? count + 1).
    + eexists. split; [reflexivity|]. eapply same_fat_trans; eauto.
    + rewrite contiguous_walk_end.
      * eexists. split; [reflexivity|]. eapply same_fat_trans; eauto.
      * rewrite (fat_entry_same v0 v c) by auto. exact Hend.
  - destruct Hch as [Hc [Hd Hch]]. destruct Hcons as [Hdc Hcons].
    destruct fuel as [| fuel]; [simpl in Hf; lia|].
    pose proof (not_end_of_chain_range c Hc) as Hr.
    destruct (next_cluster_keeps v c) as [Ks Kok].
    rewrite contiguous_walk_turn by auto.
    replace ((1 <? count + 1) && negb (c =? u32 (prev + 1))) with false.
    2:{ destruct Hprev as [-> | ->]; [reflexivity|].
        rewrite u32_small by lia. rewrite Z.eqb_refl. simpl.
        now rewrite andb_false_r. }
    destruct (Z.ltb_spec (E + 10) (count + 1)) as [Hb | Hb].
    + eexists. split; [reflexivity|]. eapply same_fat_trans; eauto.
    + rewrite (fat_entry_same v0 v c) by auto. rewrite Hd.
      apply IH; auto.
      * eapply same_fat_trans; eauto.
      * lia.
      * simpl in Hf. lia.
Qed.

(** A gap that lies within the clusters the walk visits is reported. *)
Lemma walk_gap : forall j rest c v prev count fuel,
  FAT.same_fat v0 v -> FAT.scratch_ok v ->
  FAT.chain_from v0 c rest ->
  (j < length rest)%nat ->
  nth (S j) (c :: rest) 0 <> nth j (c :: rest) 0 + 1 ->
  0 <= count -> count + Z.of_nat j + 2 <= E + 11 ->
  (length rest < fuel)%nat ->
  exists v',
    contiguous_walk fuel v c prev count E = Some (false, v') /\ FAT.same_fat v0 v'.
Proof.
  induction j as [| j IH]; intros rest c v prev count fuel Hs Hok Hch Hj Hgap Hc0 Hb Hf;
    (destruct rest as [| d r]; [simpl in Hj; lia|]);
    destruct Hch as [Hc [Hd Hch]];
    (destruct fuel as [| fuel]; [simpl in Hf; lia|]);
    pose proof (not_end_of_chain_range c Hc) as Hr;
    destruct (next_cluster_keeps v c) as [Ks Kok];
    rewrite contiguous_walk_turn by (auto; lia);
    (destruct ((1 <? count + 1) && negb (c =? u32 (prev + 1)));
       [eexists; split; [reflexivity | assumption] |]);
    (destruct (Z.ltb_spec (E + 10) (count + 1)) as [Hlim | Hlim]; [lia|]);
    rewrite (fat_entry_same v0 v c) by auto; rewrite Hd.
  - (* the gap is between [c] and [d] *)
    simpl in Hgap.
    destruct fuel as [| fuel]; [simpl in Hf; lia|].
    pose proof (chain_from_head v0 d r Hch) as Hdv.
    rewrite contiguous_walk_turn by (auto; lia).
    rewrite (u32_small (c + 1)) by lia.
    destruct (Z.ltb_spec 1 (count + 1 + 1)); [|lia].
    destruct (Z.eqb_spec d (c + 1)); [contradiction|].
    simpl. eexists. split; [reflexivity|]. eapply same_fat_trans; eauto.
  - apply (IH r); auto.
    + eapply same_fat_trans; eauto.
    + simpl in Hj. lia.
    + lia.
    + lia.
    + simpl in Hf. lia.
Qed.

End Walk.

Lemma cluster_size_bounds : forall v,
  FAT.FAT_GetClusterSize (Some v) <> 0 ->
  FAT.mounted v = true /\ 512 <= FAT.FAT_GetClusterSize (Some v) < 2 ^ 32.
Proof.
  intros v H. unfold FAT.FAT_GetClusterSize in *.
  destruct (FAT.mounted v); simpl in *; [|congruence].
  split; [reflexivity|].
  unfold u32, FAT.FAT_SECTOR_SIZE, SD.SD_BLOCK_SIZE in *.
  change (2 ^ 32) with (2 ^ 23 * 512) in *.
  rewrite Z.mul_mod_distr_r in * by lia.
  pose proof (Z.mod_pos_bound (FAT.sectors_per_cluster (FAT.boot v)) (2 ^ 23)
                ltac:(lia)).
  lia.
Qed.

Lemma expected_clusters_bounds : forall media cs,
  512 <= cs -> 0 <= expected_clusters media cs /\ expected_clusters media cs + 11 < 2 ^ 32.
Proof.
  intros media cs H. unfold expected_clusters.
  pose proof (u32_range (file_size media + cs - 1)) as R.
  split.
  - apply Z.div_pos; lia.
  - assert (u32 (file_size media + cs - 1) / cs < 2 ^ 23); [|lia].
    apply Z.div_lt_upper_bound; lia.
Qed.

(** C3 (as stated, refuted): a file of one cluster's size whose chain is
    5, 6, ..., 16, 40 has a gap between 16 and 40, but the walk stops at
    its safety limit of [expected_clusters + 10] clusters before it gets
    there and the file is taken for contiguous. *)
Lemma late_gap_missed :
  let v := FAT.sample_volume FAT.fat_late_gap in
  let media := sample_media FAT.fat_late_gap 4096 in
  vol media = Some v /\ first_cluster media = 5 /\
  FAT.chain_from v 5 [6; 7; 8; 9; 10; 11; 12; 13; 14; 15; 16; 40] /\
  40 <> 16 + 1 /\
  match Media_CheckContiguous 100 media with
  | Some (result, media') =>
      result = true /\ is_contiguous media' = true /\ first_sector media' = 2104
  | None => False
  end.
Proof. split; [reflexivity|]. by_eval. Qed.

(** C3 (amended): for an open file on a mounted volume whose cluster chain
    from [first_cluster = c] is [c :: rest], closed by an end-of-chain
    mark: if the chain is c, c+1, ..., c+k-1 the detector returns true,
    sets [is_contiguous], sets [first_sector = cluster_to_sector c] and
    seeds the cache with [(c, 0)]; if an adjacent pair of the chain differs
    by other than +1 and lies within its first [expected_clusters + 11]
    clusters (expected_clusters = ceil (file_size / cluster_size)), the
    detector returns false, clears [is_contiguous] and sets
    [first_sector = 0].  The scratch buffer of the volume is the 512-byte
    array of the struct. *)
Theorem check_contiguous : forall media v c rest,
  is_open media = true ->
  vol media = Some v ->
  first_cluster media = c ->
  FAT.FAT_GetClusterSize (Some v) <> 0 ->
  FAT.scratch_ok v ->
  FAT.chain_from v c rest ->
  (FAT.consecutive c rest ->
   forall fuel, (length rest < fuel)%nat ->
   exists media',
     Media_CheckContiguous fuel media = Some (true, media') /\
     is_contiguous media' = true /\
     first_sector media' = FAT.FAT_ClusterToSector v c /\
     cached_cluster media' = c /\
     cached_cluster_index media' = 0) /\
  (forall j,
     (j < length rest)%nat ->
     nth (S j) (c :: rest) 0 <> nth j (c :: rest) 0 + 1 ->
     Z.of_nat j + 2
       <= expected_clusters media (FAT.FAT_GetClusterSize (Some v)) + 11 ->
     forall fuel, (length rest < fuel)%nat ->
     exists media',
       Media_CheckContiguous fuel media = Some (false, media') /\
       is_contiguous media' = false /\
       first_sector media' = 0).
Proof.
  intros media v c rest Hopen Hvol Hfirst Hcs Hok Hch.
  destruct (cluster_size_bounds v Hcs) as [Hm Hcsr].
  destruct (expected_clusters_bounds media _ (proj1 Hcsr)) as [HE0 HE1].
  assert (Hz : (FAT.FAT_GetClusterSize (Some v) =? 0) = false)
    by (apply Z.eqb_neq; exact Hcs).
  split.
  - intros Hcons fuel Hf.
    destruct (walk_consecutive v (expected_clusters media
                (FAT.FAT_GetClusterSize (Some v))) Hok HE0 HE1
                rest c v c 0 fuel) as (v' & Hw & Hs);
      auto using same_fat_refl; try lia.
    unfold Media_CheckContiguous. rewrite Hopen, Hvol. simpl negb. cbv iota.
    rewrite Hz, Hfirst, Hw. simpl.
    eexists. split; [reflexivity|]. simpl.
    repeat split; auto. rewrite Hfirst. now apply cluster_to_sector_same.
  - intros j Hj Hgap Hb fuel Hf.
    destruct (walk_gap v (expected_clusters media
                (FAT.FAT_GetClusterSize (Some v))) Hok HE0 HE1
                j rest c v c 0 fuel) as (v' & Hw & Hs);
      auto using same_fat_refl; try lia.
    unfold Media_CheckContiguous. rewrite Hopen, Hvol. simpl negb. cbv iota.
    rewrite Hz, Hfirst, Hw. simpl.
    eexists. split; [reflexivity|]. simpl. split; reflexivity.
Qed.

Lemma check_contiguous_witness :
  (exists media',
     Media_CheckContiguous 4 (sample_media FAT.fat_contiguous 16384)
       = Some (true, media') /\
     is_contiguous media' = true /\
     first_sector media'
       = FAT.FAT_ClusterToSector (FAT.sample_volume FAT.fat_contiguous) 5 /\
     cached_cluster media' = 5 /\
     cached_cluster_index media' = 0) /\
  (exists media',
     Media_CheckContiguous 4 (sample_media FAT.fat_early_gap 16384)
       = Some (false, media') /\
     is_contiguous media' = false /\
     first_sector media' = 0).
Proof.
  split.
  - (* chain 5, 6, 7, 8 *)
    apply (proj1 (check_contiguous (sample_media FAT.fat_contiguous 16384)
                    (FAT.sample_volume FAT.fat_contiguous) 5 [6; 7; 8]
                    ltac:(by_eval) ltac:(reflexivity) ltac:(by_eval)
                    ltac:(by_eval) ltac:(by_eval) ltac:(by_eval))).
    + by_eval.
    + simpl; lia.
  - (* chain 5, 6, 9, 10: the pair (6, 9) *)
    apply (proj2 (check_contiguous (sample_media FAT.fat_early_gap 16384)
                    (FAT.sample_volume FAT.fat_early_gap) 5 [6; 9; 10]
                    ltac:(by_eval) ltac:(reflexivity) ltac:(by_eval)
                    ltac:(by_eval) ltac:(by_eval) ltac:(by_eval)) 1%nat).
    + simpl; lia.
    + simpl; lia.
    + by_eval.
    + simpl; lia.
Defined.

(** ** The contiguous fast path *)

Lemma write_at_in_range : forall buf pos data,
  0 <= pos -> (Z.to_nat pos + length data <= length buf)%nat ->
  write_at buf pos data
  = firstn (Z.to_nat pos) buf ++ data ++ skipn (Z.to_nat pos + length data) buf.
Proof.
  intros buf pos data H0 H. unfold write_at.
  rewrite (firstn_all2 (n := length buf - Z.to_nat pos)) by lia. reflexivity.
Qed.

Lemma firstn_exact : forall (a b : list Z) n,
  n = length a -> firstn n (a ++ b) = a.
Proof.
  intros a b n ->. rewrite firstn_app, Nat.sub_diag, firstn_all. simpl.
  apply app_nil_r.
Qed.

Lemma skipn_past : forall (a b : list Z) n m,
  n = length a -> skipn (n + m) (a ++ b) = skipn m b.
Proof.
  intros a b n m ->. rewrite skipn_app, skipn_all2 by lia.
  simpl. f_equal. lia.
Qed.

(** Two adjacent stores are one store of the two pieces. *)
Lemma write_at_app : forall buf pos d1 d2,
  0 <= pos ->
  (Z.to_nat pos + length d1 + length d2 <= length buf)%nat ->
  write_at (write_at buf pos d1) (pos + Z.of_nat (length d1)) d2
  = write_at buf pos (d1 ++ d2).
Proof.
  intros buf pos d1 d2 H0 H.
  rewrite (write_at_in_range _ (pos + _)) by (rewrite ?write_at_length; lia).
  rewrite (write_at_in_range buf pos d1) by lia.
  rewrite (write_at_in_range buf pos (d1 ++ d2)) by (rewrite ?length_app; lia).
  set (p := Z.to_nat pos) in *. set (l1 := length d1) in *.
  replace (Z.to_nat (pos + Z.of_nat l1)) with (p + l1)%nat by lia.
  assert (L1 : (p + l1)%nat = length (firstn p buf ++ d1)).
  { rewrite length_app, length_firstn. lia. }
  rewrite (app_assoc (firstn p buf) d1).
  rewrite (firstn_exact _ _ _ L1), (skipn_past _ _ _ _ L1).
  rewrite skipn_skipn, length_app. fold l1.
  replace (length d2 + (p + l1))%nat with (p + (l1 + length d2))%nat by lia.
  now rewrite <- !app_assoc.
Qed.

Lemma device_bytes_length : forall card n block bytes,
  SD.device_bytes card block n = Some bytes -> length bytes = (512 * n)%nat.
Proof.
  induction n as [| n IH]; intros block bytes H; simpl in H.
  - inversion H. reflexivity.
  - destruct (card block) as [d |]; [|discriminate].
    destruct (SD.device_bytes card (block + 1) n) as [r |] eqn:E; [|discriminate].
    inversion H. rewrite length_app, block_data_length, (IH _ _ E). lia.
Qed.

Lemma device_bytes_split : forall card n m block bytes,
  SD.device_bytes card block (n + m) = Some bytes ->
  exists b1 b2,
    SD.device_bytes card block n = Some b1 /\
    SD.device_bytes card (block + Z.of_nat n) m = Some b2 /\
    bytes = b1 ++ b2.
Proof.
  induction n as [| n IH]; intros m block bytes H.
  - exists [], bytes. simpl. rewrite Z.add_0_r. auto.
  - simpl in H.
    destruct (card block) as [d |] eqn:Ed; [|discriminate].
    destruct (SD.device_bytes card (block + 1) (n + m)) as [r |] eqn:E;
      [|discriminate].
    destruct (IH m (block + 1) r E) as (b1 & b2 & H1 & H2 & H3).
    exists (SD.block_data d ++ b1), b2. simpl. rewrite Ed, H1.
    replace (block + Z.pos (Pos.of_succ_nat n)) with (block + 1 + Z.of_nat n)
      by lia.
    inversion H. subst. rewrite app_assoc. auto.
Qed.

(** The block loop of CMD18 delivers the blocks in order. *)
Lemma read_stream_ok : forall hsd n buffer pos block bytes,
  SD.device_bytes (SD.card hsd) block n = Some bytes ->
  0 <= pos -> (Z.to_nat pos + 512 * n <= length buffer)%nat ->
  SD.read_stream hsd buffer pos block n = (SD.SD_OK, write_at buffer pos bytes).
Proof.
  induction n as [| n IH]; intros buffer pos block bytes H H0 Hlen; simpl in *.
  - inversion H. rewrite write_at_in_range by (simpl; lia). simpl.
    rewrite Nat.add_0_r, firstn_skipn. reflexivity.
  - destruct (SD.card hsd block) as [d |]; [|discriminate].
    destruct (SD.device_bytes (SD.card hsd) (block + 1) n) as [r |] eqn:E;
      [|discriminate].
    inversion H. subst bytes.
    pose proof (device_bytes_length _ _ _ _ E) as Lr.
    rewrite (IH _ _ _ r E) by (rewrite ?write_at_length; unfold SD.SD_BLOCK_SIZE; lia).
    f_equal. unfold SD.SD_BLOCK_SIZE.
    replace 512 with (Z.of_nat (length (SD.block_data d)))
      by (rewrite block_data_length; reflexivity).
    apply write_at_app; [lia|]. rewrite block_data_length. lia.
Qed.

Lemma aligned_run_min : forall media offset size,
  0 <= offset <= file_size media -> file_size media < 2 ^ 32 ->
  aligned_run media offset size
  = Z.min (Z.min (size / 512) ((file_size media - offset) / 512)) 16.
Proof.
  intros media offset size Ho Hf. unfold aligned_run, SD_BLOCK_SIZE,
    SD.SD_BLOCK_SIZE, MAX_MULTIBLOCK_COUNT.
  rewrite u32_small by lia.
  destruct (Z.ltb_spec (size / 512) ((file_size media - offset) / 512));
    match goal with |- context [16 <? ?x] => destruct (Z.ltb_spec 16 x) end; lia.
Qed.

Lemma run_bounds : forall media offset size,
  0 <= offset < file_size media -> 512 <= size ->
  let k := Z.min (Z.min (size / 512) ((file_size media - offset) / 512)) 16 in
  0 <= k <= 16 /\ k * 512 <= size /\ offset + k * 512 <= file_size media.
Proof.
  intros media offset size Ho Hs k.
  pose proof (Z.mul_div_le size 512 ltac:(lia)).
  pose proof (Z.mul_div_le (file_size media - offset) 512 ltac:(lia)).
  assert (1 <= size / 512) by (apply Z.div_le_lower_bound; lia).
  assert (0 <= (file_size media - offset) / 512) by (apply Z.div_pos; lia).
  subst k. lia.
Qed.

(** What an aligned iteration does, whatever the card answers. *)
Lemma aligned_iteration : forall media v offset buffer pos size,
  SD.initialized (FAT.hsd v) = true ->
  0 <= offset < file_size media -> file_size media < 2 ^ 32 ->
  offset mod 512 = 0 -> 512 <= size < 2 ^ 32 ->
  let k := Z.min (Z.min (size / 512) ((file_size media - offset) / 512)) 16 in
  let sector := u32 (first_sector media + offset / 512) in
  forall st v' offset' buffer' pos' size',
    contiguous_iteration media v offset buffer pos size
    = (st, v', (offset', buffer', pos', size')) ->
    k <= MAX_MULTIBLOCK_COUNT /\
    (2 <= k ->
     SD.commands (FAT.hsd v') = SD.commands (FAT.hsd v) ++ [SD.CMD18 sector k]) /\
    (k = 1 ->
     SD.commands (FAT.hsd v') = SD.commands (FAT.hsd v) ++ [SD.CMD17 sector]) /\
    (st = SD.SD_OK ->
     offset' = offset + k * 512 /\ pos' = pos + k * 512 /\ size' = size - k * 512).
Proof.
  intros media v offset buffer pos size Hi Ho Hf Ha Hs k sector
    st v' offset' buffer' pos' size' H.
  destruct (run_bounds media offset size Ho (proj1 Hs)) as (Hk & Hks & Hko).
  fold k in Hk, Hks, Hko.
  unfold contiguous_iteration, SD_BLOCK_SIZE, SD.SD_BLOCK_SIZE in H.
  rewrite Ha in H. simpl (negb (0 =? 0)) in H.
  destruct (Z.ltb_spec size 512) as [Hlt | _]; [lia|]. simpl orb in H. cbv iota in H.
  rewrite aligned_run_min in H by lia. fold k in H. fold sector in H.
  split; [exact (proj2 Hk)|].
  destruct (Z.ltb_spec 1 k) as [Hk2 | Hk1].
  - unfold SD.SD_ReadMultipleBlocks in H. rewrite Hi in H.
    destruct (Z.eqb_spec k 0); [lia|]. destruct (Z.eqb_spec k 1); [lia|].
    simpl in H.
    destruct (SD.read_stream _ _ _ _ _) as [st1 b1].
    destruct st1; simpl in H; inversion H; subst; simpl;
      repeat split; intros; try discriminate; try lia;
      rewrite u32_small; try rewrite u32_small; lia.
  - unfold SD.SD_ReadBlock in H. rewrite Hi in H. simpl in H.
    destruct (SD.card (FAT.hsd v) sector); simpl in H; inversion H; subst; simpl;
      repeat split; intros; try discriminate; try lia;
      rewrite u32_small; try rewrite u32_small; lia.
Qed.

(** An aligned run of at least two blocks that the card delivers. *)
Lemma aligned_iteration_multi : forall media v q buffer pos size k bytes,
  SD.initialized (FAT.hsd v) = true ->
  0 <= q -> q * 512 < file_size media -> file_size media < 2 ^ 32 ->
  512 <= size < 2 ^ 32 ->
  0 <= first_sector media -> first_sector media + q < 2 ^ 32 ->
  k = Z.min (Z.min (size / 512) ((file_size media - q * 512) / 512)) 16 ->
  2 <= k ->
  SD.device_bytes (SD.card (FAT.hsd v)) (first_sector media + q) (Z.to_nat k)
    = Some bytes ->
  0 <= pos -> pos + k * 512 <= Z.of_nat (length buffer) ->
  contiguous_iteration media v (q * 512) buffer pos size
  = (SD.SD_OK,
     FAT.mkVolume (SD.issue (FAT.hsd v) (SD.CMD18 (first_sector media + q) k))
       (FAT.boot v) (FAT.sector_buffer v) (FAT.mounted v),
     ((q + k) * 512, write_at buffer pos bytes, pos + k * 512, size - k * 512)).
Proof.
  intros media v q buffer pos size k bytes Hi Hq Hqf Hf Hs Hfs Hfs' Hk Hk2
    Hb Hp Hroom.
  destruct (run_bounds media (q * 512) size ltac:(lia) (proj1 Hs))
    as (Hkr & Hks & Hko).
  rewrite <- Hk in Hkr, Hks, Hko.
  unfold contiguous_iteration, SD_BLOCK_SIZE, SD.SD_BLOCK_SIZE.
  rewrite Z_mod_mult, Z_div_mult by lia. simpl (negb (0 =? 0)).
  destruct (Z.ltb_spec size 512) as [Hlt | _]; [lia|]. simpl orb. cbv iota.
  rewrite aligned_run_min, <- Hk by lia.
  rewrite (u32_small (first_sector media + q)) by lia.
  destruct (Z.ltb_spec 1 k) as [_ | Hk1]; [|lia].
  unfold SD.SD_ReadMultipleBlocks. rewrite Hi.
  destruct (Z.eqb_spec k 0); [lia|]. destruct (Z.eqb_spec k 1); [lia|].
  simpl negb. simpl orb. cbv iota.
  rewrite (read_stream_ok _ _ _ _ _ bytes Hb) by lia.
  simpl. rewrite (u32_small (k * 512)) by lia. rewrite !u32_small by lia.
  replace (q * 512 + k * 512) with ((q + k) * 512) by lia. reflexivity.
Qed.

Lemma contiguous_loop_step : forall fuel media v offset buffer pos size v' o' b' p' s',
  0 < size -> offset < file_size media ->
  contiguous_iteration media v offset buffer pos size
    = (SD.SD_OK, v', (o', b', p', s')) ->
  contiguous_loop (S fuel) media v offset buffer pos size
  = contiguous_loop fuel media v' o' b' p' s'.
Proof.
  intros fuel media v offset buffer pos size v' o' b' p' s' Hs Ho Hit.
  change (contiguous_loop (S fuel) media v offset buffer pos size)
    with (if negb ((0 <? size) && (offset <? file_size media))
          then Some (FAT.FAT_OK, v, buffer)
          else
            let '(st, v1, (o1, b1, p1, s1)) :=
              contiguous_iteration media v offset buffer pos size in
            if negb (SD.is_ok st) then Some (FAT.FAT_ERROR_READ, v1, b1)
            else contiguous_loop fuel media v1 o1 b1 p1 s1).
  rewrite (proj2 (Z.ltb_lt 0 size) Hs), (proj2 (Z.ltb_lt offset _) Ho), Hit.
  reflexivity.
Qed.

Lemma contiguous_loop_done : forall fuel media v offset buffer pos,
  contiguous_loop fuel media v offset buffer pos 0 = Some (FAT.FAT_OK, v, buffer).
Proof. intros. destruct fuel; reflexivity. Qed.

(** Forty aligned blocks: three multi-block reads of 16, 16 and 8 blocks
    that fill the caller's buffer with the bytes of the forty sectors. *)
Lemma read_40_blocks : forall fuel media v q buffer bytes,
  vol media = Some v ->
  SD.initialized (FAT.hsd v) = true ->
  0 <= q -> q * 512 + 40 * 512 <= file_size media -> file_size media < 2 ^ 32 ->
  0 <= first_sector media -> first_sector media + q + 40 <= 2 ^ 32 ->
  Z.of_nat (length buffer) = 40 * 512 ->
  SD.device_bytes (SD.card (FAT.hsd v)) (first_sector media + q) 40 = Some bytes ->
  (3 <= fuel)%nat ->
  exists media',
    Media_ReadAtContiguous fuel media (q * 512) buffer 0 (40 * 512)
      = Some (FAT.FAT_OK, media', bytes) /\
    device_commands media'
      = device_commands media
        ++ [SD.CMD18 (first_sector media + q) 16;
            SD.CMD18 (first_sector media + q + 16) 16;
            SD.CMD18 (first_sector media + q + 32) 8].
Proof.
  intros fuel media v q buffer bytes Hvol Hi Hq Hfile Hf Hfs Hfs' Hlen Hb Hfuel.
  destruct fuel as [| [| [| fuel]]]; try lia. clear Hfuel.
  set (s := first_sector media + q) in *.
  (* the three runs of blocks *)
  destruct (device_bytes_split _ 16 24 _ _ Hb) as (b1 & b23 & H1 & H23 & E1).
  destruct (device_bytes_split _ 16 8 _ _ H23) as (b2 & b3 & H2 & H3 & E2).
  pose proof (device_bytes_length _ _ _ _ H1) as L1.
  pose proof (device_bytes_length _ _ _ _ H2) as L2.
  pose proof (device_bytes_length _ _ _ _ H3) as L3.
  change (Z.of_nat 16) with 16 in *.
  assert (A40 : 40 <= (file_size media - q * 512) / 512)
    by (apply Z.div_le_lower_bound; lia).
  assert (A24 : 24 <= (file_size media - (q + 16) * 512) / 512)
    by (apply Z.div_le_lower_bound; lia).
  assert (A8 : 8 <= (file_size media - (q + 16 + 16) * 512) / 512)
    by (apply Z.div_le_lower_bound; lia).
  unfold Media_ReadAtContiguous. rewrite Hvol.
  (* first run *)
  pose proof (aligned_iteration_multi media v q buffer 0 (40 * 512) 16 b1
                Hi Hq ltac:(lia) Hf ltac:(lia) Hfs ltac:(lia)
                ltac:(change (40 * 512 / 512) with 40; lia) ltac:(lia)
                H1 ltac:(lia) ltac:(lia)) as It1.
  rewrite (contiguous_loop_step _ _ _ _ _ _ _ _ _ _ _ _
             (ltac:(lia) : 0 < 40 * 512)
             (ltac:(lia) : q * 512 < file_size media) It1).
  clear It1. set (v1 := FAT.mkVolume _ _ _ _).
  (* second run *)
  assert (H2' : SD.device_bytes (SD.card (FAT.hsd v1)) (first_sector media + (q + 16))
                  (Z.to_nat 16) = Some b2).
  { replace (first_sector media + (q + 16)) with (s + 16) by (subst s; lia).
    exact H2. }
  pose proof (aligned_iteration_multi media v1 (q + 16) (write_at buffer 0 b1)
                (0 + 16 * 512) (40 * 512 - 16 * 512) 16 b2
                Hi ltac:(lia) ltac:(lia) Hf ltac:(lia) Hfs ltac:(lia)
                ltac:(change ((40 * 512 - 16 * 512) / 512) with 24; lia) ltac:(lia)
                H2' ltac:(lia) ltac:(rewrite write_at_length; lia)) as It2.
  rewrite (contiguous_loop_step _ _ _ _ _ _ _ _ _ _ _ _
             (ltac:(lia) : 0 < 40 * 512 - 16 * 512)
             (ltac:(lia) : (q + 16) * 512 < file_size media) It2).
  clear It2. set (v2 := FAT.mkVolume _ _ _ _).
  (* third run *)
  assert (H3' : SD.device_bytes (SD.card (FAT.hsd v2))
                  (first_sector media + (q + 16 + 16)) (Z.to_nat 8) = Some b3).
  { replace (first_sector media + (q + 16 + 16)) with (s + 16 + 16)
      by (subst s; lia).
    exact H3. }
  pose proof (aligned_iteration_multi media v2 (q + 16 + 16)
                (write_at (write_at buffer 0 b1) (0 + 16 * 512) b2)
                (0 + 16 * 512 + 16 * 512) (40 * 512 - 16 * 512 - 16 * 512) 8 b3
                Hi ltac:(lia) ltac:(lia) Hf ltac:(lia) Hfs ltac:(lia)
                ltac:(change ((40 * 512 - 16 * 512 - 16 * 512) / 512) with 8; lia)
                ltac:(lia)
                H3' ltac:(lia) ltac:(rewrite !write_at_length; lia)) as It3.
  rewrite (contiguous_loop_step _ _ _ _ _ _ _ _ _ _ _ _
             (ltac:(lia) : 0 < 40 * 512 - 16 * 512 - 16 * 512)
             (ltac:(lia) : (q + 16 + 16) * 512 < file_size media) It3).
  clear It3.
  change (40 * 512 - 16 * 512 - 16 * 512 - 8 * 512) with 0.
  rewrite contiguous_loop_done.
  eexists. split.
  - f_equal. f_equal.
    (* the three stores make up the forty blocks *)
    replace (0 + 16 * 512) with (0 + Z.of_nat (length b1)) by lia.
    rewrite write_at_app by lia.
    replace (0 + Z.of_nat (length b1) + 16 * 512)
      with (0 + Z.of_nat (length (b1 ++ b2))) by (rewrite length_app; lia).
    rewrite write_at_app by (rewrite ?length_app; lia).
    rewrite write_at_whole by (rewrite !length_app; lia).
    subst bytes b23. now rewrite app_assoc.
  - unfold device_commands. rewrite Hvol. simpl.
    rewrite <- !app_assoc. simpl.
    replace (first_sector media + (q + 16)) with (s + 16) by (subst s; lia).
    replace (first_sector media + (q + 16 + 16)) with (s + 32) by (subst s; lia).
    reflexivity.
Qed.

(** C6: on the contiguous fast path an aligned whole-block iteration
    (offset on a sector boundary, at least 512 bytes wanted) issues one
    device read of k = min (n / 512, (size - off) / 512, 16) blocks, at
    most MAX_MULTIBLOCK = 16: a multi-block read (CMD18) when k >= 2, a
    single-block read (CMD17) when k = 1, and a successful read advances the
    request by k * 512 bytes.  A call for 40 aligned blocks that the file
    holds and the card delivers returns OK after exactly three device
    reads, of 16, 16 and 8 blocks, and the caller's buffer holds the bytes
    of the forty sectors of the file, in order. *)
Theorem contiguous_aligned_reads : forall media v,
  vol media = Some v ->
  SD.initialized (FAT.hsd v) = true ->
  file_size media < 2 ^ 32 ->
  (forall offset buffer pos size,
     0 <= offset < file_size media -> offset mod 512 = 0 ->
     512 <= size < 2 ^ 32 ->
     let k := Z.min (Z.min (size / 512) ((file_size media - offset) / 512)) 16 in
     let sector := u32 (first_sector media + offset / 512) in
     forall st v' offset' buffer' pos' size',
       contiguous_iteration media v offset buffer pos size
       = (st, v', (offset', buffer', pos', size')) ->
       k <= MAX_MULTIBLOCK_COUNT /\
       (2 <= k ->
        SD.commands (FAT.hsd v')
        = SD.commands (FAT.hsd v) ++ [SD.CMD18 sector k]) /\
       (k = 1 ->
        SD.commands (FAT.hsd v')
        = SD.commands (FAT.hsd v) ++ [SD.CMD17 sector]) /\
       (st = SD.SD_OK ->
        offset' = offset + k * 512 /\ pos' = pos + k * 512 /\
        size' = size - k * 512)) /\
  (forall fuel offset buffer bytes,
     0 <= offset -> offset mod 512 = 0 ->
     offset + 40 * 512 <= file_size media ->
     0 <= first_sector media ->
     first_sector media + offset / 512 + 40 <= 2 ^ 32 ->
     Z.of_nat (length buffer) = 40 * 512 ->
     SD.device_bytes (SD.card (FAT.hsd v)) (first_sector media + offset / 512) 40
       = Some bytes ->
     (3 <= fuel)%nat ->
     exists media',
       Media_ReadAtContiguous fuel media offset buffer 0 (40 * 512)
         = Some (FAT.FAT_OK, media', bytes) /\
       device_commands media'
         = device_commands media
           ++ [SD.CMD18 (first_sector media + offset / 512) 16;
               SD.CMD18 (first_sector media + offset / 512 + 16) 16;
               SD.CMD18 (first_sector media + offset / 512 + 32) 8]).
Proof.
  intros media v Hvol Hi Hf. split.
  - intros offset buffer pos size Ho Ha Hs. now apply aligned_iteration.
  - intros fuel offset buffer bytes Ho Ha Hfile Hfs Hfs' Hlen Hb Hfuel.
    assert (Eq : offset = offset / 512 * 512).
    { rewrite Z.mul_comm. apply Z.div_exact; lia. }
    assert (Hq : 0 <= offset / 512) by (apply Z.div_pos; lia).
    remember (offset / 512) as q eqn:Eq'. clear Eq'. subst offset.
    apply (read_40_blocks fuel media v q buffer bytes); auto; lia.
Qed.

Lemma contiguous_aligned_reads_witness :
  exists media',
    Media_ReadAtContiguous 3 contiguous_media 512 (repeat 0 (Z.to_nat 20480)) 0
      (40 * 512)
      = Some (FAT.FAT_OK, media', sample_bytes) /\
    device_commands media'
      = device_commands contiguous_media
        ++ [SD.CMD18 (first_sector contiguous_media + 512 / 512) 16;
            SD.CMD18 (first_sector contiguous_media + 512 / 512 + 16) 16;
            SD.CMD18 (first_sector contiguous_media + 512 / 512 + 32) 8].
Proof.
  apply (proj2 (contiguous_aligned_reads contiguous_media
                  (FAT.sample_volume FAT.fat_contiguous)
                  ltac:(reflexivity) ltac:(reflexivity) ltac:(by_eval))).
  - by_eval.
  - by_eval.
  - by_eval.
  - by_eval.
  - by_eval.
  - by_eval.
  - (* the forty sectors, compared by evaluation *)
    vm_cast_no_check (@eq_refl _ (Some sample_bytes)).
  - by_eval.
Defined.

Lemma open_failure_witness :
  exists media',
    Media_Open 0 media_at_end (Some FAT.dead_volume)
      (Some (FAT.mkFileInfo 5 16384 0))
      = Some (FAT.FAT_ERROR_READ, media') /\
    is_open media' = false.
Proof.
  apply (proj1 (proj2 (open_failure 0 media_at_end (Some FAT.dead_volume)
                         (Some (FAT.mkFileInfo 5 16384 0))))
           FAT.dead_volume (FAT.mkFileInfo 5 16384 0));
    reflexivity.
Defined.

End MediaProperties.

(** * Further properties of the code *)

Lemma u32_idem_add : forall a b, u32 (u32 a + b) = u32 (a + b).
Proof. intros a b. unfold u32. apply Zplus_mod_idemp_l. Qed.

(** ** The synchroniser: initialisation, accounting, statistics *)

Section AVSyncAccounting.
Import AVSync.

(** X1.  [AVSync_Init] leaves the handle untouched when the sample rate or
    the frame rate is 0.  Otherwise the handle is READY and initialised
    with both counters at 0, the drift band is the caller's value or 2 when
    the caller passes 0, and [samples_per_frame] is at least 1 exactly when
    the sample rate is not below the frame rate: a rate below the frame
    rate is accepted and gives the divisor 0. *)
Theorem init_postconditions : forall sync rate fps max_drift,
  0 <= rate -> 0 <= fps -> 0 <= max_drift ->
  let s := AVSync_Init sync rate fps max_drift in
  ((rate = 0 \/ fps = 0) -> s = sync) /\
  (rate <> 0 -> fps <> 0 ->
   state s = AVSYNC_STATE_READY /\ initialized s = true /\
   audio_samples_played s = 0 /\ video_frames_rendered s = 0 /\
   stats s = zero_stats /\
   max_drift_frames s = (if max_drift =? 0 then 2 else max_drift) /\
   samples_per_frame s = rate / fps /\
   (1 <= samples_per_frame s <-> fps <= rate)).
Proof.
  intros sync rate fps max_drift Hr Hf Hm s. subst s. unfold AVSync_Init.
  split.
  - intros [-> | ->]; simpl; [reflexivity|].
    now rewrite orb_true_r.
  - intros Hr0 Hf0.
    destruct (Z.eqb_spec rate 0); [contradiction|].
    destruct (Z.eqb_spec fps 0); [contradiction|]. simpl.
    repeat split; try reflexivity.
    + unfold AVSYNC_DEFAULT_MAX_DRIFT.
      destruct (Z.ltb_spec 0 max_drift), (Z.eqb_spec max_drift 0); lia.
    + intros H. destruct (Z_lt_le_dec rate fps) as [Hlt | Hle]; [|exact Hle].
      rewrite Z.div_small in H by lia. lia.
    + intros H. apply Z.div_le_lower_bound; lia.
Qed.

Lemma init_postconditions_witness :
  let s := AVSync_Init zero_handle 32000 30 0 in
  state s = AVSYNC_STATE_READY /\ initialized s = true /\
  audio_samples_played s = 0 /\ video_frames_rendered s = 0 /\
  stats s = zero_stats /\
  max_drift_frames s = (if 0 =? 0 then 2 else 0) /\
  samples_per_frame s = 32000 / 30 /\
  (1 <= samples_per_frame s <-> 30 <= 32000).
Proof.
  apply (proj2 (init_postconditions zero_handle 32000 30 0
                  ltac:(lia) ltac:(lia) ltac:(lia))); lia.
Defined.

(** What an operation other than a start does to the frame counters. *)
Lemma step_frames : forall s op,
  is_start op = false ->
  video_frames_rendered (sync_step s op)
    = u32 (video_frames_rendered s + frames_committed [op]) \/
  (frames_committed [op] = 0 /\
   video_frames_rendered (sync_step s op) = video_frames_rendered s).
Proof.
  intros s op H. destruct op; simpl in *; try discriminate; auto.
  - right. split; [reflexivity|]. unfold AVSync_AudioTick.
    destruct (negb _); reflexivity.
  - right. split; [reflexivity|]. unfold AVSync_GetFrameDecision.
    destruct (negb _); [reflexivity|].
    destruct (_ <? i32 _); [reflexivity|]. destruct (i32 _ <? _); reflexivity.
Qed.

Lemma step_skipped : forall s op,
  is_start op = false ->
  frames_skipped (stats (sync_step s op))
    = u32 (frames_skipped (stats s) + frames_dropped [op]) \/
  (frames_dropped [op] = 0 /\
   frames_skipped (stats (sync_step s op)) = frames_skipped (stats s)).
Proof.
  intros s op H. destruct op; simpl in *; try discriminate; auto.
  - right. split; [reflexivity|]. unfold AVSync_AudioTick.
    destruct (negb _); reflexivity.
  - right. split; [reflexivity|]. unfold AVSync_GetFrameDecision.
    destruct (negb _); [reflexivity|].
    destruct (max_drift (stats s) <? _), (_ <? min_drift _); simpl;
      destruct (_ <? i32 _); try reflexivity;
      destruct (i32 _ <? _); reflexivity.
Qed.

Lemma frames_committed_cons : forall op ops,
  frames_committed (op :: ops) = frames_committed [op] + frames_committed ops.
Proof. intros op ops. destruct op; simpl; lia. Qed.

Lemma frames_dropped_cons : forall op ops,
  frames_dropped (op :: ops) = frames_dropped [op] + frames_dropped ops.
Proof. intros op ops. destruct op; simpl; lia. Qed.

Lemma run_frames : forall ops s,
  forallb (fun op => negb (is_start op)) ops = true ->
  0 <= video_frames_rendered s < 2 ^ 32 ->
  0 <= frames_skipped (stats s) < 2 ^ 32 ->
  video_frames_rendered (sync_run s ops)
    = u32 (video_frames_rendered s + frames_committed ops) /\
  frames_skipped (stats (sync_run s ops))
    = u32 (frames_skipped (stats s) + frames_dropped ops).
Proof.
  induction ops as [| op ops IH]; intros s Hns Hv Hk.
  - simpl. rewrite !Z.add_0_r, !u32_small by lia. auto.
  - change (forallb (fun o => negb (is_start o)) (op :: ops))
      with (negb (is_start op) && forallb (fun o => negb (is_start o)) ops)
      in Hns.
    apply andb_prop in Hns. destruct Hns as [Hop Hns].
    apply negb_true_iff in Hop.
    change (sync_run s (op :: ops)) with (sync_run (sync_step s op) ops).
    rewrite frames_committed_cons, frames_dropped_cons.
    assert (Hv' : video_frames_rendered (sync_step s op)
                  = u32 (video_frames_rendered s + frames_committed [op])).
    { destruct (step_frames s op Hop) as [E | [E0 E]]; [exact E|].
      rewrite E, E0, Z.add_0_r, u32_small; [reflexivity | lia]. }
    assert (Hk' : frames_skipped (stats (sync_step s op))
                  = u32 (frames_skipped (stats s) + frames_dropped [op])).
    { destruct (step_skipped s op Hop) as [E | [E0 E]]; [exact E|].
      rewrite E, E0, Z.add_0_r, u32_small; [reflexivity | lia]. }
    destruct (IH (sync_step s op) Hns) as [IH1 IH2].
    + rewrite Hv'. apply u32_range.
    + rewrite Hk'. apply u32_range.
    + rewrite IH1, IH2, Hv', Hk', !u32_idem_add, !Z.add_assoc. auto.
Qed.

(** X2.  Frame accounting: from [AVSync_Start] on, through any run of
    ticks, decisions, rendered and skipped frames and stops,
    [video_frames_rendered] is the number of frames rendered or skipped and
    [stats.frames_skipped] the number skipped (both modulo 2^32);
    decisions, REPEAT included, and ticks do not advance them. *)
Theorem frame_accounting : forall s ops,
  initialized s = true ->
  forallb (fun op => negb (is_start op)) ops = true ->
  video_frames_rendered (sync_run (AVSync_Start s) ops)
    = u32 (frames_committed ops) /\
  frames_skipped (stats (sync_run (AVSync_Start s) ops))
    = u32 (frames_dropped ops).
Proof.
  intros s ops Hi Hns.
  destruct (run_frames ops (AVSync_Start s) Hns) as [H1 H2];
    unfold AVSync_Start; rewrite Hi; simpl; try lia.
  unfold AVSync_Start in H1, H2. rewrite Hi in H1, H2. simpl in H1, H2.
  auto.
Qed.

Lemma frame_accounting_witness :
  let ops := [Op_AudioTick 2048; Op_GetFrameDecision; Op_FrameRendered;
              Op_FrameSkipped; Op_GetFrameDecision; Op_FrameSkipped; Op_Stop] in
  video_frames_rendered (sync_run (AVSync_Start sync_playing) ops)
    = u32 (frames_committed ops) /\
  frames_skipped (stats (sync_run (AVSync_Start sync_playing) ops))
    = u32 (frames_dropped ops).
Proof. apply (frame_accounting sync_playing); reflexivity. Defined.

End AVSyncAccounting.

Section AVSyncDrift.
Import AVSync.

Lemma decision_stats : forall s,
  state s = AVSYNC_STATE_RUNNING ->
  min_drift (stats (snd (AVSync_GetFrameDecision s)))
    = Z.min (min_drift (stats s)) (drift_of s) /\
  max_drift (stats (snd (AVSync_GetFrameDecision s)))
    = Z.max (max_drift (stats s)) (drift_of s).
Proof.
  intros s H. unfold AVSync_GetFrameDecision. rewrite H. simpl negb. cbv iota.
  destruct (Z.ltb_spec (max_drift (stats s)) (drift_of s));
    simpl min_drift;
    destruct (Z.ltb_spec (drift_of s) (min_drift (stats s)));
    destruct (_ <? i32 _); try destruct (i32 _ <? _); simpl; lia.
Qed.

Lemma step_envelope : forall s op,
  drift_envelope s -> drift_envelope (sync_step s op).
Proof.
  intros s op H. unfold drift_envelope in *. destruct op; simpl.
  - unfold AVSync_AudioTick. destruct (negb _); simpl; exact H.
  - destruct (state s) eqn:E;
      try (unfold AVSync_GetFrameDecision; rewrite E; simpl; exact H).
    destruct (decision_stats s E) as [-> ->]. lia.
  - exact H.
  - exact H.
  - unfold AVSync_Start. destruct (negb _); simpl; [exact H | lia].
  - exact H.
Qed.

Lemma run_envelope : forall ops s,
  drift_envelope s -> drift_envelope (sync_run s ops).
Proof.
  induction ops as [| op ops IH]; intros s H; simpl; [exact H|].
  apply IH. now apply step_envelope.
Qed.

(** X3.  Drift statistics: after [AVSync_Start] on an initialised handle and
    any run of operations, [min_drift <= 0 <= max_drift]; a decision taken
    in RUNNING state only widens the pair, and the drift it decided on lies
    between the [min_drift] and [max_drift] it leaves. *)
Theorem drift_statistics : forall s ops,
  initialized s = true ->
  let s1 := sync_run (AVSync_Start s) ops in
  let s2 := snd (AVSync_GetFrameDecision s1) in
  drift_envelope s1 /\
  (state s1 = AVSYNC_STATE_RUNNING ->
   min_drift (stats s2) <= drift_of s1 <= max_drift (stats s2) /\
   min_drift (stats s2) <= min_drift (stats s1) /\
   max_drift (stats s1) <= max_drift (stats s2)).
Proof.
  intros s ops Hi s1 s2. split.
  - apply run_envelope. unfold drift_envelope, AVSync_Start. rewrite Hi.
    simpl. lia.
  - intros Hrun. subst s2. destruct (decision_stats s1 Hrun) as [-> ->]. lia.
Qed.

Lemma drift_statistics_witness :
  let s1 := sync_run (AVSync_Start sync_playing)
              [Op_AudioTick 2048; Op_AudioTick 2048; Op_GetFrameDecision;
               Op_FrameRendered; Op_FrameRendered; Op_FrameRendered;
               Op_GetFrameDecision] in
  let s2 := snd (AVSync_GetFrameDecision s1) in
  min_drift (stats s2) <= drift_of s1 <= max_drift (stats s2) /\
  min_drift (stats s2) <= min_drift (stats s1) /\
  max_drift (stats s1) <= max_drift (stats s2).
Proof.
  apply (proj2 (drift_statistics sync_playing
                  [Op_AudioTick 2048; Op_AudioTick 2048; Op_GetFrameDecision;
                   Op_FrameRendered; Op_FrameRendered; Op_FrameRendered;
                   Op_GetFrameDecision] ltac:(reflexivity))).
  reflexivity.
Defined.

(** Skipped frames move the video index and nothing the decision reads
    besides. *)
Lemma iter_skipped : forall i s,
  0 <= video_frames_rendered s ->
  video_frames_rendered s + Z.of_nat i < 2 ^ 32 ->
  let s' := Nat.iter i AVSync_FrameSkipped s in
  video_frames_rendered s' = video_frames_rendered s + Z.of_nat i /\
  state s' = state s /\
  audio_samples_played s' = audio_samples_played s /\
  samples_per_frame s' = samples_per_frame s /\
  max_drift_frames s' = max_drift_frames s.
Proof.
  induction i as [| i IH]; intros s H0 Hb; simpl.
  - repeat split. lia.
  - destruct (IH s H0 ltac:(lia)) as (E1 & E2 & E3 & E4 & E5).
    simpl in *. rewrite E1, u32_small by lia. repeat split; auto. lia.
Qed.

Lemma decision_in_range : forall s,
  state s = AVSYNC_STATE_RUNNING ->
  0 < samples_per_frame s -> 0 <= max_drift_frames s < 2 ^ 31 ->
  0 <= video_frames_rendered s < 2 ^ 31 ->
  0 <= audio_samples_played s ->
  audio_samples_played s / samples_per_frame s < 2 ^ 31 ->
  fst (AVSync_GetFrameDecision s) =
  let d := video_frames_rendered s
           - audio_samples_played s / samples_per_frame s in
  if d <? - max_drift_frames s then AVSYNC_SKIP_FRAME
  else if max_drift_frames s <? d then AVSYNC_REPEAT_FRAME
  else AVSYNC_RENDER_FRAME.
Proof.
  intros s Hrun HS HD Hv Hp Ha.
  assert (0 <= audio_samples_played s / samples_per_frame s)
    by (apply Z.div_pos; lia).
  rewrite (decision_cases s Hrun), (drift_of_exact s) by lia.
  rewrite (i32_small (max_drift_frames s)) by lia.
  rewrite (i32_small (- max_drift_frames s)) by lia.
  reflexivity.
Qed.

(** X4.  Catching up: when the video is behind the band (drift < -D, no
    audio interrupt in between), each SKIP followed by [AVSync_FrameSkipped]
    raises the drift by one; the decision stays SKIP for the first
    [-D - drift - 1] skipped frames and is RENDER after [-D - drift] of
    them. *)
Theorem skip_catches_up : forall s,
  state s = AVSYNC_STATE_RUNNING ->
  0 < samples_per_frame s -> 0 <= max_drift_frames s < 2 ^ 31 ->
  0 <= video_frames_rendered s -> 0 <= audio_samples_played s ->
  audio_samples_played s / samples_per_frame s < 2 ^ 31 ->
  let d := video_frames_rendered s
           - audio_samples_played s / samples_per_frame s in
  d < - max_drift_frames s ->
  let k := Z.to_nat (- max_drift_frames s - d) in
  (forall i, (i < k)%nat ->
     fst (AVSync_GetFrameDecision (Nat.iter i AVSync_FrameSkipped s))
     = AVSYNC_SKIP_FRAME) /\
  fst (AVSync_GetFrameDecision (Nat.iter k AVSync_FrameSkipped s))
  = AVSYNC_RENDER_FRAME.
Proof.
  intros s Hrun HS HD Hv Hp Ha d Hd k.
  assert (Hstep : forall i, (i <= k)%nat ->
            fst (AVSync_GetFrameDecision (Nat.iter i AVSync_FrameSkipped s))
            = if d + Z.of_nat i <? - max_drift_frames s then AVSYNC_SKIP_FRAME
              else if max_drift_frames s <? d + Z.of_nat i
                   then AVSYNC_REPEAT_FRAME else AVSYNC_RENDER_FRAME).
  { intros i Hi.
    destruct (iter_skipped i s Hv ltac:(subst k d; lia))
      as (E1 & E2 & E3 & E4 & E5).
    rewrite decision_in_range; rewrite ?E1, ?E2, ?E3, ?E4, ?E5; auto;
      try (subst k d; lia).
    cbv zeta. fold d.
    replace (video_frames_rendered s + Z.of_nat i
             - audio_samples_played s / samples_per_frame s)
      with (d + Z.of_nat i) by (subst d; lia).
    reflexivity. }
  split.
  - intros i Hi. rewrite Hstep by lia.
    destruct (Z.ltb_spec (d + Z.of_nat i) (- max_drift_frames s)); [reflexivity|].
    subst k. lia.
  - rewrite Hstep by lia.
    destruct (Z.ltb_spec (d + Z.of_nat k) (- max_drift_frames s));
      [subst k; lia|].
    destruct (Z.ltb_spec (max_drift_frames s) (d + Z.of_nat k));
      [subst k; lia | reflexivity].
Qed.

Lemma skip_catches_up_witness :
  (forall i, (i < 1)%nat ->
     fst (AVSync_GetFrameDecision (Nat.iter i AVSync_FrameSkipped sync_behind))
     = AVSYNC_SKIP_FRAME) /\
  fst (AVSync_GetFrameDecision (Nat.iter 1 AVSync_FrameSkipped sync_behind))
  = AVSYNC_RENDER_FRAME.
Proof.
  apply (skip_catches_up sync_behind); by_eval.
Defined.

End AVSyncDrift.

(** ** The audio path: counters *)

Section AudioCounters.
Import Audio.

Lemma interrupts_cons : forall op ops,
  interrupts (op :: ops) = interrupts [op] + interrupts ops.
Proof. intros op ops. destruct op; simpl; lia. Qed.

Lemma refills_cons : forall op ops,
  refills (op :: ops) = refills [op] + refills ops.
Proof. intros op ops. destruct op; simpl; lia. Qed.

Lemma audio_step_sync : forall a op n,
  initialized a = true -> sync_running a = true -> sync_samples a = Some n ->
  sync_running (audio_step a op) = true /\
  sync_samples (audio_step a op) = Some (if Z.eqb (interrupts [op]) 0 then n
                                         else u32 (n + 2048)).
Proof.
  intros a op n Hi Hr Hs. unfold sync_running, sync_samples in *.
  destruct (avsync a) as [s |] eqn:Es; [|discriminate].
  inversion Hs; subst n. clear Hs.
  destruct op; simpl; unfold audio_HandleDMA; rewrite ?Hi, ?Es; simpl;
    unfold AVSync.AVSync_AudioTick; rewrite ?Hr; simpl; auto.
Qed.

(** X5.  Counters of the audio path: on an initialised handle, after any
    sequence of LEFT-channel interrupts and [audio_BufferFilled] calls,
    [stats.samples_played] has grown by 2048 per interrupt and
    [stats.refill_count] by one per call (modulo 2^32), a running
    synchroniser attached to the handle has received exactly the same 2048
    samples per interrupt, and [stats.underrun_count] is what it was. *)
Theorem audio_counters : forall ops a n,
  initialized a = true ->
  0 <= samples_played (stats a) < 2 ^ 32 ->
  0 <= refill_count (stats a) < 2 ^ 32 ->
  sync_running a = true -> sync_samples a = Some n -> 0 <= n < 2 ^ 32 ->
  let a' := audio_run a ops in
  samples_played (stats a')
    = u32 (samples_played (stats a) + 2048 * interrupts ops) /\
  refill_count (stats a') = u32 (refill_count (stats a) + refills ops) /\
  sync_samples a' = Some (u32 (n + 2048 * interrupts ops)) /\
  underrun_count (stats a') = underrun_count (stats a).
Proof.
  induction ops as [| op ops IH]; intros a n Hi Hsp Hrc Hr Hs Hn.
  - simpl. rewrite !Z.add_0_r, !u32_small by lia. auto.
  - intros a'. subst a'.
    change (audio_run a (op :: ops)) with (audio_run (audio_step a op) ops).
    rewrite interrupts_cons, refills_cons.
    destruct (audio_step_sync a op n Hi Hr Hs) as [Hr' Hs'].
    assert (Hi' : initialized (audio_step a op) = true).
    { destruct op; simpl; unfold audio_HandleDMA; rewrite ?Hi; auto. }
    assert (Esp : samples_played (stats (audio_step a op))
                  = u32 (samples_played (stats a) + 2048 * interrupts [op])).
    { destruct op; simpl; unfold audio_HandleDMA; rewrite ?Hi; simpl;
        unfold AUDIO_HALF_BUFFER_SAMPLES, AUDIO_BUFFER_SAMPLES; auto.
      rewrite Z.add_0_r, u32_small; auto. }
    assert (Erc : refill_count (stats (audio_step a op))
                  = u32 (refill_count (stats a) + refills [op])).
    { destruct op; simpl; unfold audio_HandleDMA; rewrite ?Hi; simpl; auto;
        rewrite Z.add_0_r, u32_small; auto. }
    assert (Eun : underrun_count (stats (audio_step a op))
                  = underrun_count (stats a)).
    { destruct op; simpl; unfold audio_HandleDMA; rewrite ?Hi; auto. }
    assert (Esy : sync_samples (audio_step a op)
                  = Some (u32 (n + 2048 * interrupts [op]))).
    { rewrite Hs'. destruct op; simpl; auto;
        rewrite Z.add_0_r, u32_small; auto. }
    destruct (IH (audio_step a op) (u32 (n + 2048 * interrupts [op])) Hi')
      as (H1 & H2 & H3 & H4); auto;
      try (rewrite ?Esp, ?Erc; apply u32_range).
    rewrite H1, H2, H3, H4, Esp, Erc, Eun, !u32_idem_add.
    rewrite Z.mul_add_distr_l, !Z.add_assoc. auto.
Qed.

Lemma audio_counters_witness :
  let ops := [Op_HalfComplete; Op_BufferFilled; Op_Complete; Op_HalfComplete;
              Op_BufferFilled] in
  let a' := audio_run audio_playing ops in
  samples_played (stats a')
    = u32 (samples_played (stats audio_playing) + 2048 * interrupts ops) /\
  refill_count (stats a')
    = u32 (refill_count (stats audio_playing) + refills ops) /\
  sync_samples a' = Some (u32 (0 + 2048 * interrupts ops)) /\
  underrun_count (stats a') = underrun_count (stats audio_playing).
Proof.
  apply (audio_counters
           [Op_HalfComplete; Op_BufferFilled; Op_Complete; Op_HalfComplete;
            Op_BufferFilled] audio_playing 0); by_eval.
Defined.

End AudioCounters.

(** ** The display pipeline *)

Section DisplayPipeline.
Import Display SSD1306.

Lemma swaps_cons : forall op ops, swaps (op :: ops) = swaps [op] + swaps ops.
Proof. intros op ops. destruct op; simpl; lia. Qed.

Lemma swaps_one : forall op, 0 <= swaps [op] <= 1.
Proof. intros op. destruct op; simpl; lia. Qed.

Lemma swaps_nonneg : forall ops, 0 <= swaps ops.
Proof.
  induction ops as [| op ops IH]; [simpl; lia|].
  rewrite swaps_cons. pose proof (swaps_one op). lia.
Qed.

Lemma update_dma_keeps : forall hd g w d,
  pipe_ok (hd, g) -> frames_rendered g < 2 ^ 32 ->
  let '(_, hd', g') := SSD1306_UpdateScreen_DMA hd g w d in
  pipe_ok (hd', g') /\ frames_rendered g' = frames_rendered g.
Proof.
  intros hd g w d Hok Hr. pose proof Hok as (Hi & Hb & Hc & Hlt & Hp).
  unfold SSD1306_UpdateScreen_DMA. rewrite Hi. simpl negb. cbv iota.
  destruct (dma_busy hd) eqn:Eb.
  { split; [exact Hok | reflexivity]. }
  unfold Display_StartTransfer. rewrite <- Hb.
  unfold Display_HasFrame.
  destruct (Z.ltb_spec (frames_transferred g) (frames_rendered g)) as [Hf | Hf];
    simpl.
  2:{ split; [exact Hok | reflexivity]. }
  assert (Hp' : roles_distinct
                  (mkState (render g) (transfer g) (ready g) true
                     (frames_rendered g) (frames_transferred g))).
  { unfold roles_distinct in *. simpl.
    eapply perm_trans; [apply perm_skip, perm_swap | exact Hp]. }
  destruct w; simpl.
  - destruct d; simpl.
    + split; [repeat split; auto; simpl; lia | reflexivity].
    + rewrite u32_small by lia.
      split; [repeat split; auto; simpl; try lia; discriminate | reflexivity].
  - rewrite u32_small by lia.
    split; [repeat split; auto; simpl; try lia; discriminate | reflexivity].
Qed.

Lemma pipe_step_keeps : forall st op,
  pipe_ok st ->
  (is_dma_callback op = true -> dma_busy (fst st) = true) ->
  frames_rendered (snd st) + swaps [op] < 2 ^ 32 ->
  pipe_ok (pipe_step st op) /\
  frames_rendered (snd (pipe_step st op)) = frames_rendered (snd st) + swaps [op].
Proof.
  intros [hd g] op Hok Hcb Hr.
  change (is_dma_callback op = true -> dma_busy hd = true) in Hcb.
  change (frames_rendered g + swaps [op] < 2 ^ 32) in Hr.
  pose proof Hok as (Hi & Hb & Hc & Hlt & Hp).
  pose proof (swaps_one op) as H01.
  destruct op.
  - (* swap *)
    change (swaps [Pipe_Swap]) with 1 in *.
    unfold pipe_step, snd, pipe_ok, Display_SwapBuffers. simpl.
    rewrite u32_small by lia.
    split; [|reflexivity].
    split; [exact Hi|]. split; [exact Hb|]. split; [lia|].
    split; [intros Ht; specialize (Hlt Ht); lia|].
    exact (step_keeps_roles g Op_SwapBuffers Hp).
  - (* UpdateDisplay *)
    change (swaps [Pipe_UpdateDisplay window_ok dma_ok]) with 0 in *.
    unfold pipe_step, UpdateDisplay, SSD1306_IsDMABusy.
    destruct (dma_busy hd) eqn:Eb; [split; [exact Hok | simpl; lia]|].
    destruct (negb (Display_HasFrame g)); [split; [exact Hok | simpl; lia]|].
    pose proof (update_dma_keeps hd g window_ok dma_ok Hok ltac:(lia)) as K.
    destruct (SSD1306_UpdateScreen_DMA hd g window_ok dma_ok) as [[s hd'] g'].
    destruct K as [K1 K2]. split; [exact K1 | simpl; lia].
  - (* SSD1306_UpdateScreen_DMA *)
    change (swaps [Pipe_UpdateScreen_DMA window_ok dma_ok]) with 0 in *.
    unfold pipe_step.
    pose proof (update_dma_keeps hd g window_ok dma_ok Hok ltac:(lia)) as K.
    destruct (SSD1306_UpdateScreen_DMA hd g window_ok dma_ok) as [[s hd'] g'].
    destruct K as [K1 K2]. split; [exact K1 | simpl; lia].
  - (* DMA complete *)
    change (swaps [Pipe_DmaComplete]) with 0 in *.
    specialize (Hcb eq_refl). rewrite Hcb in Hb. symmetry in Hb.
    specialize (Hlt Hb).
    unfold pipe_step, SSD1306_DMA_CompleteCallback, snd, pipe_ok,
      Display_TransferComplete. simpl.
    rewrite u32_small by lia.
    split; [|lia].
    split; [exact Hi|]. split; [reflexivity|]. split; [lia|].
    split; [discriminate|]. exact Hp.
  - (* DMA error *)
    change (swaps [Pipe_DmaError]) with 0 in *.
    specialize (Hcb eq_refl). rewrite Hcb in Hb. symmetry in Hb.
    specialize (Hlt Hb).
    unfold pipe_step, SSD1306_DMA_ErrorCallback, snd, pipe_ok,
      Display_TransferComplete. simpl.
    rewrite u32_small by lia.
    split; [|lia].
    split; [exact Hi|]. split; [reflexivity|]. split; [lia|].
    split; [discriminate|]. exact Hp.
Qed.

Lemma pipe_run_keeps : forall ops st,
  pipe_ok st -> callbacks_in_flight st ops ->
  frames_rendered (snd st) + swaps ops < 2 ^ 32 ->
  pipe_ok (pipe_run st ops) /\
  frames_rendered (snd (pipe_run st ops)) = frames_rendered (snd st) + swaps ops.
Proof.
  induction ops as [| op ops IH]; intros st Hok Hcb Hr.
  - simpl. split; [exact Hok | lia].
  - destruct Hcb as [Hcb Hrest]. rewrite swaps_cons in *.
    pose proof (swaps_nonneg ops).
    destruct (pipe_step_keeps st op Hok Hcb ltac:(lia)) as [K1 K2].
    change (pipe_run st (op :: ops)) with (pipe_run (pipe_step st op) ops).
    destruct (IH (pipe_step st op) K1 Hrest ltac:(lia)) as [L1 L2].
    split; [exact L1 | lia].
Qed.

(** X6.  The display pipeline, from startup: over any sequence of buffer
    swaps, [UpdateDisplay] polls, direct DMA updates with any I2C outcome,
    and DMA completion or error interrupts that arrive only while a DMA is
    in flight, with fewer than 2^32 swaps: the driver's [dma_busy] equals
    [transfer_busy]; [frames_rendered] is the number of swaps;
    [frames_transferred] never exceeds [frames_rendered] and is below it
    while a transfer is in flight; the three roles stay a permutation of
    the three slots. *)
Theorem pipeline_invariant : forall ops,
  callbacks_in_flight pipe_start ops ->
  swaps ops < 2 ^ 32 ->
  let hd := fst (pipe_run pipe_start ops) in
  let g := snd (pipe_run pipe_start ops) in
  dma_busy hd = transfer_busy g /\
  frames_rendered g = swaps ops /\
  0 <= frames_transferred g <= frames_rendered g /\
  (transfer_busy g = true -> frames_transferred g < frames_rendered g) /\
  Permutation [render g; ready g; transfer g] [0; 1; 2].
Proof.
  intros ops Hcb Hs hd g.
  assert (H0 : pipe_ok pipe_start).
  { repeat split; simpl; try lia; try discriminate.
    unfold roles_distinct. simpl. apply perm_skip, perm_swap. }
  destruct (pipe_run_keeps ops pipe_start H0 Hcb ltac:(simpl; lia)) as [K1 K2].
  subst hd g. destruct (pipe_run pipe_start ops) as [hd g].
  destruct K1 as (Hi & Hb & Hc & Hlt & Hp). simpl in *.
  repeat split; auto; lia.
Qed.

Lemma pipeline_invariant_witness :
  let ops := [Pipe_Swap; Pipe_Swap; Pipe_UpdateDisplay true true; Pipe_Swap;
              Pipe_UpdateDisplay true true; Pipe_DmaComplete;
              Pipe_UpdateScreen_DMA false true; Pipe_UpdateDisplay true false] in
  let hd := fst (pipe_run pipe_start ops) in
  let g := snd (pipe_run pipe_start ops) in
  dma_busy hd = transfer_busy g /\
  frames_rendered g = swaps ops /\
  0 <= frames_transferred g <= frames_rendered g /\
  (transfer_busy g = true -> frames_transferred g < frames_rendered g) /\
  Permutation [render g; ready g; transfer g] [0; 1; 2].
Proof.
  apply (pipeline_invariant
           [Pipe_Swap; Pipe_Swap; Pipe_UpdateDisplay true true; Pipe_Swap;
            Pipe_UpdateDisplay true true; Pipe_DmaComplete;
            Pipe_UpdateScreen_DMA false true; Pipe_UpdateDisplay true false]).
  - simpl. repeat split; intros; try discriminate; reflexivity.
  - by_eval.
Defined.

(** X7.  The newest frame wins: on a pipeline that is idle (no transfer in
    flight) and has counted no more transfers than frames, a swap followed
    by [Display_StartTransfer] always starts a transfer, of the slot that
    was the render buffer before the swap, whatever was queued in [ready];
    the slot that was in [transfer] becomes [ready] and the old [ready]
    slot is the next render buffer.  [Display_StartTransfer] changes
    nothing and returns false while a transfer is in flight or when no
    frame has been rendered since the last transfer. *)
Theorem newest_frame_wins : forall g,
  0 <= frames_transferred g <= frames_rendered g ->
  frames_rendered g + 1 < 2 ^ 32 ->
  (transfer_busy g = false ->
   let r := Display_StartTransfer (Display_SwapBuffers g) in
   fst r = true /\
   transfer (snd r) = render g /\
   ready (snd r) = transfer g /\
   render (snd r) = ready g /\
   transfer_busy (snd r) = true) /\
  ((transfer_busy g = true \/ frames_rendered g = frames_transferred g) ->
   Display_StartTransfer g = (false, g)).
Proof.
  intros g Hc Hr. split.
  - intros Hb. unfold Display_StartTransfer, Display_SwapBuffers,
      Display_HasFrame. simpl. rewrite Hb, u32_small by lia.
    destruct (Z.ltb_spec (frames_transferred g) (frames_rendered g + 1)); [|lia].
    simpl. repeat split.
  - intros [Hb | He]; unfold Display_StartTransfer.
    + now rewrite Hb.
    + destruct (transfer_busy g); [reflexivity|].
      unfold Display_HasFrame. rewrite He, Z.ltb_irrefl. reflexivity.
Qed.

Lemma newest_frame_wins_witness :
  let g := Display_SwapBuffers g_display_buffers in
  let r := Display_StartTransfer (Display_SwapBuffers g) in
  fst r = true /\
  transfer (snd r) = render g /\
  ready (snd r) = transfer g /\
  render (snd r) = ready g /\
  transfer_busy (snd r) = true.
Proof.
  apply (proj1 (newest_frame_wins (Display_SwapBuffers g_display_buffers)
                  ltac:(by_eval) ltac:(by_eval))).
  reflexivity.
Defined.

End DisplayPipeline.

(** ** The block device *)

Section BlockDevice.
Import SD.





End BlockDevice.

(** ** Little-endian fields and the FAT *)

Section FatFields.
Import FAT.

Lemma lor_shiftl_add : forall a b n,
  0 <= n -> 0 <= a < 2 ^ n -> Z.lor a (Z.shiftl b n) = a + b * 2 ^ n.
Proof.
  intros a b n Hn Ha.
  assert (L : Z.land a (Z.shiftl b n) = 0).
  { apply Z.bits_inj'. intros i Hi.
    rewrite Z.land_spec, Z.bits_0.
    destruct (Z_lt_le_dec i n) as [Hlt | Hge].
    - rewrite Z.shiftl_spec_low by lia. apply andb_false_r.
    - rewrite <- (Z.mod_small a (2 ^ n)) by lia.
      rewrite Z.mod_pow2_bits_high by lia. reflexivity. }
  pose proof (Z.add_lor_land a (Z.shiftl b n)) as E.
  rewrite L, Z.add_0_r in E. rewrite E. now rewrite Z.shiftl_mul_pow2 by lia.
Qed.

Lemma read32_value : forall buf off,
  is_byte (byte_at buf off) -> is_byte (byte_at buf (off + 1)) ->
  is_byte (byte_at buf (off + 2)) -> is_byte (byte_at buf (off + 3)) ->
  FAT_Read32 buf off
  = byte_at buf off + 256 * byte_at buf (off + 1)
    + 65536 * byte_at buf (off + 2) + 16777216 * byte_at buf (off + 3).
Proof.
  unfold is_byte. intros buf off H0 H1 H2 H3. unfold FAT_Read32.
  rewrite (lor_shiftl_add _ _ 8) by lia.
  rewrite (lor_shiftl_add _ _ 16) by lia.
  rewrite (lor_shiftl_add _ _ 24) by lia.
  rewrite u32_small by lia. lia.
Qed.

Lemma read16_value : forall buf off,
  is_byte (byte_at buf off) -> is_byte (byte_at buf (off + 1)) ->
  FAT_Read16 buf off = byte_at buf off + 256 * byte_at buf (off + 1).
Proof.
  unfold is_byte. intros buf off H0 H1. unfold FAT_Read16.
  rewrite (lor_shiftl_add _ _ 8) by lia.
  rewrite u16_small by lia. lia.
Qed.

Lemma byte_at_app : forall pre l i,
  0 <= i -> byte_at (pre ++ l) (Z.of_nat (length pre) + i) = byte_at l i.
Proof.
  intros pre l i Hi. unfold byte_at.
  replace (Z.to_nat (Z.of_nat (length pre) + i))
    with (length pre + Z.to_nat i)%nat by lia.
  now rewrite app_nth2_plus.
Qed.

Lemma byte_at_is_byte : forall buf i, Forall is_byte buf -> is_byte (byte_at buf i).
Proof.
  intros buf i H. unfold byte_at.
  destruct (nth_in_or_default (Z.to_nat i) buf 0) as [Hin | ->].
  - rewrite Forall_forall in H. now apply H.
  - unfold is_byte. lia.
Qed.

Lemma block_data_bytes : forall d, Forall is_byte d -> Forall is_byte (SD.block_data d).
Proof.
  intros d H. unfold SD.block_data. rewrite Forall_forall in *.
  intros x Hx.
  assert (Hin : In x (d ++ repeat 0 512)).
  { rewrite <- (firstn_skipn 512). apply in_or_app. now left. }
  clear Hx. apply in_app_or in Hin. rename Hin into Hx.
  destruct Hx as [Hx | Hx]; [now apply H|].
  apply repeat_spec in Hx. subst x. unfold is_byte. lia.
Qed.

(** X9.  The little-endian field readers: on a buffer of bytes,
    [FAT_Read16] is [b0 + 256 b1], [FAT_Read32] is
    [b0 + 256 b1 + 65536 b2 + 16777216 b3], and [Read32LE] of the media
    reader is the same function as [FAT_Read32]; the or-ed, shifted bytes
    never overlap and never leave the width of the result. *)
Theorem little_endian_fields : forall buf off,
  Forall is_byte buf -> 0 <= off -> off + 3 < Z.of_nat (length buf) ->
  FAT_Read16 buf off = byte_at buf off + 256 * byte_at buf (off + 1) /\
  FAT_Read32 buf off
  = byte_at buf off + 256 * byte_at buf (off + 1)
    + 65536 * byte_at buf (off + 2) + 16777216 * byte_at buf (off + 3) /\
  Media.Read32LE buf off = FAT_Read32 buf off /\
  FAT_Read32 buf off = FAT_Read16 buf off + 65536 * FAT_Read16 buf (off + 2).
Proof.
  intros buf off Hb H0 Hlen.
  pose proof (byte_at_is_byte buf off Hb) as B0.
  pose proof (byte_at_is_byte buf (off + 1) Hb) as B1.
  pose proof (byte_at_is_byte buf (off + 2) Hb) as B2.
  pose proof (byte_at_is_byte buf (off + 3) Hb) as B3.
  split; [now apply read16_value|].
  split; [now apply read32_value|].
  split; [reflexivity|].
  rewrite read32_value, !read16_value; auto.
  - replace (off + 2 + 1) with (off + 3) by lia. lia.
  - now replace (off + 2 + 1) with (off + 3) by lia.
Qed.

Lemma little_endian_fields_witness :
  FAT_Read16 [120; 86; 52; 18] 0 = 22136 /\
  FAT_Read32 [120; 86; 52; 18] 0 = 305419896 /\
  Media.Read32LE [120; 86; 52; 18] 0 = 305419896.
Proof.
  assert (Hb : Forall is_byte [120; 86; 52; 18])
    by (repeat constructor; unfold is_byte; lia).
  destruct (little_endian_fields [120; 86; 52; 18] 0 Hb ltac:(lia)
              ltac:(simpl; lia)) as (H16 & H32 & HLE & _).
  rewrite HLE, H16, H32. repeat split; reflexivity.
Defined.

(** X10.  [FAT_GetNextCluster] on a mounted volume whose FAT sector reads:
    one CMD17 for sector [fat_start + cluster*4/512], the scratch buffer
    holds that sector afterwards, and the value returned is the
    little-endian entry at byte [cluster*4 mod 512] of the sector with
    its four top bits cleared. *)
Theorem next_cluster_decodes : forall v c d,
  mounted v = true -> SD.initialized (hsd v) = true -> scratch_ok v ->
  2 <= c < 2 ^ 32 ->
  SD.card (hsd v) (u32 (fat_start_sector (boot v) + u32 (c * 4) / 512)) = Some d ->
  Forall is_byte d ->
  let e := u32 (c * 4) mod 512 in
  let b := fun i => byte_at (SD.block_data d) (e + i) in
  let '(next, v') := FAT_GetNextCluster v c in
  next = (b 0 + 256 * b 1 + 65536 * b 2 + 16777216 * b 3) mod 2 ^ 28 /\
  sector_buffer v' = SD.block_data d /\
  SD.commands (hsd v')
  = SD.commands (hsd v)
    ++ [SD.CMD17 (u32 (fat_start_sector (boot v) + u32 (c * 4) / 512))].
Proof.
  intros v c d Hm Hi Hs Hc Hd Hb e b.
  unfold FAT_GetNextCluster, read_sector, SD.SD_ReadBlock.
  rewrite Hm, Hi. replace (c <? 2) with false by (symmetry; apply Z.ltb_ge; lia).
  simpl negb. simpl orb. cbv iota.
  change FAT_SECTOR_SIZE with 512. rewrite Hd. simpl.
  rewrite write_at_whole by (rewrite block_data_length; exact Hs).
  split; [| split; reflexivity].
  pose proof (block_data_bytes d Hb) as Hbd.
  rewrite read32_value by (apply byte_at_is_byte; exact Hbd).
  change 268435455 with (Z.ones 28). rewrite Z.land_ones by lia.
  subst b e. simpl. rewrite Z.add_0_r. reflexivity.
Qed.

Lemma fat_sector_bytes : forall entry, Forall is_byte (fat_sector_of entry).
Proof.
  intros entry. unfold fat_sector_of. rewrite Forall_forall. intros x Hx.
  apply in_flat_map in Hx. destruct Hx as (i & _ & Hx).
  unfold le32, is_byte in *. simpl in Hx.
  destruct Hx as [<- | [<- | [<- | [<- | []]]]]; apply Z.mod_pos_bound; lia.
Qed.

Lemma next_cluster_decodes_witness :
  fst (FAT_GetNextCluster (sample_volume fat_late_gap) 16) = 40.
Proof.
  pose proof (next_cluster_decodes (sample_volume fat_late_gap) 16
                (fat_sector_of fat_late_gap) eq_refl eq_refl eq_refl
                ltac:(lia) eq_refl (fat_sector_bytes _)) as H.
  cbv zeta in H.
  destruct (FAT_GetNextCluster (sample_volume fat_late_gap) 16) as [next v'].
  destruct H as (H & _). simpl fst. rewrite H. reflexivity.
Defined.



End FatFields.

(** ** Mounting and the root directory *)

Section Mounting.
Import FAT.

Lemma read_block_whole : forall h buf block st h' buf',
  length buf = 512%nat ->
  SD.SD_ReadBlock h buf 0 block = (st, h', buf') ->
  length buf' = 512%nat /\
  SD.card h' = SD.card h /\ SD.initialized h' = SD.initialized h /\
  (SD.is_ok st = true ->
   exists d, SD.card h block = Some d /\ buf' = SD.block_data d /\
             SD.commands h' = SD.commands h ++ [SD.CMD17 block]).
Proof.
  intros h buf block st h' buf' L. unfold SD.SD_ReadBlock.
  destruct (SD.initialized h) eqn:Ei; simpl.
  - destruct (SD.card h block) as [d |]; intros E; inversion E; subst; simpl.
    + rewrite write_at_whole by (now rewrite block_data_length).
      rewrite block_data_length.
      split; [reflexivity|]. split; [reflexivity|]. split; [exact Ei|].
      intros _. now exists d.
    + split; [exact L|]. split; [reflexivity|]. split; [exact Ei|]. discriminate.
  - intros E; inversion E; subst; simpl.
    split; [exact L|]. split; [reflexivity|]. split; [exact Ei|]. discriminate.
Qed.

Lemma read_sector_ok : forall v sector st v',
  scratch_ok v -> read_sector v sector = (st, v') ->
  scratch_ok v' /\ same_fat v v' /\
  (SD.is_ok st = true ->
   exists d, SD.card (hsd v) sector = Some d /\
             sector_buffer v' = SD.block_data d /\
             SD.commands (hsd v') = SD.commands (hsd v) ++ [SD.CMD17 sector]).
Proof.
  intros v sector st v' L. unfold read_sector.
  destruct (SD.SD_ReadBlock (hsd v) (sector_buffer v) 0 sector)
    as [[st0 h0] b0] eqn:E.
  intros R. inversion R; subst. clear R.
  destruct (read_block_whole _ _ _ _ _ _ L E) as (L' & C & I & K).
  split; [exact L'|]. split.
  - repeat split; simpl; auto.
  - exact K.
Qed.

(** X12.  What a successful [FAT_Mount] leaves: exactly two single-block
    reads (sector 0, then the partition start found at 0x1C6 of
    sector 0), both sectors signed 55 AA, the boot sector still in the
    scratch buffer, 512-byte sectors, between 1 and 255 sectors per
    cluster and FATs, the FAT placed after the reserved sectors, and a
    cluster size of [512 * sectors_per_cluster]. *)
Theorem mount_ok : forall vol h v',
  SD.card_bytes h ->
  FAT_Mount (Some vol) (Some h) = (FAT_OK, Some v') ->
  mounted v' = true /\ scratch_ok v' /\
  bytes_per_sector (boot v') = 512 /\
  1 <= sectors_per_cluster (boot v') <= 255 /\
  1 <= num_fats (boot v') <= 255 /\
  FAT_GetClusterSize (Some v') = 512 * sectors_per_cluster (boot v') /\
  fat_start_sector (boot v')
  = u32 (partition_lba (boot v') + reserved_sectors (boot v')) /\
  SD.card (hsd v') = SD.card h /\
  SD.commands (hsd v')
  = SD.commands h ++ [SD.CMD17 0; SD.CMD17 (partition_lba (boot v'))] /\
  exists mbr vbr,
    SD.card h 0 = Some mbr /\
    SD.card h (partition_lba (boot v')) = Some vbr /\
    boot_signature (SD.block_data mbr) = true /\
    boot_signature (SD.block_data vbr) = true /\
    partition_lba (boot v') = FAT_Read32 (SD.block_data mbr) (0x1BE + 8) /\
    sector_buffer v' = SD.block_data vbr.
Proof.
  intros vol h v' Hb H. unfold FAT_Mount in H.
  destruct (SD.initialized h) eqn:Ei; cbn [negb] in H; cbv iota in H;
    [|discriminate].
  destruct (read_sector (mkVolume h zero_boot (repeat 0 512) false) 0)
    as [st1 v1] eqn:R1.
  destruct (SD.is_ok st1) eqn:O1; cbn [negb] in H; cbv iota in H;
    [|discriminate].
  destruct (boot_signature (sector_buffer v1)) eqn:S1; cbn [negb] in H;
    cbv iota in H; [|discriminate].
  cbv zeta in H.
  remember (FAT_Read32 (sector_buffer v1) (0x1BE + 8)) as lba eqn:Elba.
  destruct (read_sector (set_boot v1 (mkBoot 0 0 0 0 0 0 0 lba 0 0)) lba)
    as [st2 v2] eqn:R2.
  destruct (SD.is_ok st2) eqn:O2; cbn [negb] in H; cbv iota in H;
    [|discriminate].
  destruct (boot_signature (sector_buffer v2)) eqn:S2; cbn [negb] in H;
    cbv iota in H; [|discriminate].
  change (bytes_per_sector (boot (set_boot v2 (parse_bpb (sector_buffer v2) lba))))
    with (FAT_Read16 (sector_buffer v2) 11) in H.
  change (sectors_per_cluster (boot (set_boot v2 (parse_bpb (sector_buffer v2) lba))))
    with (byte_at (sector_buffer v2) 13) in H.
  change (num_fats (boot (set_boot v2 (parse_bpb (sector_buffer v2) lba))))
    with (byte_at (sector_buffer v2) 16) in H.
  destruct (FAT_Read16 (sector_buffer v2) 11 =? FAT_SECTOR_SIZE) eqn:B1;
    cbn [negb] in H; cbv iota in H; [|discriminate].
  destruct (byte_at (sector_buffer v2) 13 =? 0) eqn:B2; [discriminate|].
  destruct (byte_at (sector_buffer v2) 16 =? 0) eqn:B3; [discriminate|].
  apply Z.eqb_eq in B1. apply Z.eqb_neq in B2, B3.
  change FAT_SECTOR_SIZE with 512 in B1.
  destruct (read_sector_ok _ _ _ _ (eq_refl : scratch_ok
              (mkVolume h zero_boot (repeat 0 512) false)) R1)
    as (L1 & (_ & _ & C1 & I1) & K1).
  destruct (K1 O1) as (mbr & Cm & Bm & Km). clear K1.
  assert (L1' : scratch_ok (set_boot v1 (mkBoot 0 0 0 0 0 0 0 lba 0 0)))
    by exact L1.
  destruct (read_sector_ok _ _ _ _ L1' R2) as (L2 & (_ & _ & C2 & I2) & K2).
  destruct (K2 O2) as (vbr & Cv & Bv & Kv). clear K2.
  simpl in C1, Cm, Km, C2, Cv, Kv.
  rewrite <- C1 in Cv.
  assert (Hv : Forall is_byte (sector_buffer v2)).
  { rewrite Bv. apply block_data_bytes. exact (Hb _ _ Cv). }
  pose proof (byte_at_is_byte _ 13 Hv) as P13.
  pose proof (byte_at_is_byte _ 16 Hv) as P16.
  unfold is_byte in P13, P16.
  inversion H; subst v'; clear H.
  unfold set_mounted, set_boot, locate_regions, parse_bpb, FAT_GetClusterSize,
    scratch_ok.
  cbn [mounted boot sector_buffer hsd bytes_per_sector sectors_per_cluster
       reserved_sectors num_fats partition_lba fat_start_sector negb].
  change FAT_SECTOR_SIZE with 512.
  repeat match goal with |- _ /\ _ => split end; auto; try lia.
  - rewrite u32_small; lia.
  - congruence.
  - rewrite Kv, Km. rewrite <- app_assoc. reflexivity.
  - exists mbr, vbr. rewrite <- Bm, <- Bv. repeat split; auto.
Qed.

Lemma is_byteb_spec : forall l, forallb is_byteb l = true -> Forall is_byte l.
Proof.
  intros l H. rewrite Forall_forall. intros x Hx.
  rewrite forallb_forall in H. specialize (H x Hx).
  unfold is_byteb in H. unfold is_byte. lia.
Qed.

Lemma repeat_bytes : forall b n, is_byte b -> Forall is_byte (repeat b n).
Proof.
  intros b n H. rewrite Forall_forall. intros x Hx.
  apply repeat_spec in Hx. now subst x.
Qed.

Lemma image_card_bytes : SD.card_bytes image_handle.
Proof.
  intros lba d. change (SD.card image_handle lba) with (image_card lba).
  unfold image_card.
  destruct (lba =? 0); [intros E; inversion E; now apply is_byteb_spec|].
  destruct (lba =? 2048); [intros E; inversion E; now apply is_byteb_spec|].
  destruct (lba =? 2080); [intros E; inversion E; apply fat_sector_bytes|].
  destruct (lba =? 2096); [intros E; inversion E; now apply is_byteb_spec|].
  destruct ((2097 <=? lba) && (lba <? 2103)); [|discriminate].
  intros E. assert (D : d = repeat (lba mod 256) 512) by congruence.
  rewrite D. apply repeat_bytes. apply Z.mod_pos_bound. lia.
Qed.

Lemma mount_ok_witness :
  FAT_Mount (Some dead_volume) (Some image_handle) = (FAT_OK, Some image_volume) /\
  FAT_GetClusterSize (Some image_volume) = 512 * 1 /\
  fat_start_sector (boot image_volume) = 2080.
Proof.
  assert (E : FAT_Mount (Some dead_volume) (Some image_handle)
              = (FAT_OK, Some image_volume)) by reflexivity.
  destruct (mount_ok dead_volume image_handle image_volume image_card_bytes E)
    as (_ & _ & _ & _ & _ & Hc & Hf & _).
  split; [exact E|]. split; [exact Hc|]. rewrite Hf. reflexivity.
Defined.

(** X13.  A [FAT_Mount] that does not succeed.  Refused for its
    arguments, it leaves the volume as it was, so a volume mounted
    before stays mounted.  Failed after that, it leaves
    the volume unmounted, and every later call of the FAT layer on it is
    refused: the cluster size, the next cluster and the cluster's sector
    are 0 and [FAT_FindFile] returns FAT_ERROR_INVALID_PARAM. *)
Theorem mount_failure : forall vol h st r,
  FAT_Mount vol h = (st, r) -> st <> FAT_OK ->
  (st = FAT_ERROR_INVALID_PARAM /\ r = vol /\
   (vol = None \/ h = None \/ exists h', h = Some h' /\ SD.initialized h' = false)) \/
  (exists v', r = Some v' /\ (st = FAT_ERROR_READ \/ st = FAT_ERROR) /\
     mounted v' = false /\
     FAT_GetClusterSize r = 0 /\
     (forall c, FAT_GetNextCluster v' c = (0, v')) /\
     (forall c, FAT_ClusterToSector v' c = 0) /\
     (forall fuel name info,
        FAT_FindFile fuel r name info = Some (FAT_ERROR_INVALID_PARAM, r, info))).
Proof.
  intros vol h st r H Hst.
  assert (U : forall v', mounted v' = false ->
    FAT_GetClusterSize (Some v') = 0 /\
    (forall c, FAT_GetNextCluster v' c = (0, v')) /\
    (forall c, FAT_ClusterToSector v' c = 0) /\
    (forall fuel name info,
       FAT_FindFile fuel (Some v') name info
       = Some (FAT_ERROR_INVALID_PARAM, Some v', info))).
  { intros v' M. unfold FAT_GetClusterSize, FAT_GetNextCluster,
      FAT_ClusterToSector, FAT_FindFile. rewrite M. simpl.
    repeat split; auto. intros fuel [name |] [info |]; reflexivity. }
  unfold FAT_Mount in H.
  destruct vol as [vol |];
    [| left; inversion H; subst; repeat split; auto].
  destruct h as [h |];
    [| left; inversion H; subst; repeat split; auto].
  destruct (SD.initialized h) eqn:Ei; cbn [negb] in H; cbv iota in H;
    [| left; inversion H; subst; repeat split; auto;
       right; right; now exists h].
  right.
  destruct (read_sector (mkVolume h zero_boot (repeat 0 512) false) 0)
    as [st1 v1] eqn:R1.
  assert (M1 : mounted v1 = false).
  { unfold read_sector in R1.
    destruct (SD.SD_ReadBlock _ _ _ _) as [[s0 h0] b0]. now inversion R1. }
  destruct (negb (SD.is_ok st1));
    [inversion H; subst; exists v1; repeat split; auto; apply U; auto|].
  destruct (negb (boot_signature (sector_buffer v1)));
    [inversion H; subst; exists v1; repeat split; auto; apply U; auto|].
  cbv zeta in H.
  remember (FAT_Read32 (sector_buffer v1) (0x1BE + 8)) as lba eqn:Elba.
  destruct (read_sector (set_boot v1 (mkBoot 0 0 0 0 0 0 0 lba 0 0)) lba)
    as [st2 v2] eqn:R2.
  assert (M2 : mounted v2 = false).
  { unfold read_sector in R2.
    destruct (SD.SD_ReadBlock _ _ _ _) as [[s0 h0] b0]. inversion R2.
    simpl. exact M1. }
  destruct (negb (SD.is_ok st2));
    [inversion H; subst; exists v2; repeat split; auto; apply U; auto|].
  destruct (negb (boot_signature (sector_buffer v2)));
    [inversion H; subst; exists v2; repeat split; auto; apply U; auto|].
  assert (M3 : mounted (set_boot v2 (parse_bpb (sector_buffer v2) lba)) = false)
    by exact M2.
  destruct (negb (_ =? FAT_SECTOR_SIZE));
    [inversion H; subst; eexists; repeat split; auto; apply U; auto|].
  destruct (_ =? 0);
    [inversion H; subst; eexists; repeat split; auto; apply U; auto|].
  destruct (_ =? 0);
    [inversion H; subst; eexists; repeat split; auto; apply U; auto|].
  inversion H; subst. now elim Hst.
Qed.

Lemma mount_failure_witness :
  FAT_Mount (Some image_volume) (Some (hsd dead_volume))
  = (FAT_ERROR_READ,
     Some (mkVolume (SD.mkHandle true (fun _ => None) [SD.CMD17 0])
             zero_boot (repeat 0 512) false)) /\
  FAT_FindFile 5 (snd (FAT_Mount (Some image_volume) (Some (hsd dead_volume))))
    (Some "BADAPPLE.BIN"%string) (Some (mkFileInfo 0 0 0))
  = Some (FAT_ERROR_INVALID_PARAM,
          snd (FAT_Mount (Some image_volume) (Some (hsd dead_volume))),
          Some (mkFileInfo 0 0 0)).
Proof.
  assert (E : FAT_Mount (Some image_volume) (Some (hsd dead_volume))
              = (FAT_ERROR_READ,
                 Some (mkVolume (SD.mkHandle true (fun _ => None) [SD.CMD17 0])
                         zero_boot (repeat 0 512) false))) by reflexivity.
  split; [exact E|].
  destruct (mount_failure _ _ _ _ E ltac:(discriminate))
    as [(D & _) | (v' & _ & _ & _ & _ & _ & _ & F)]; [discriminate D|].
  rewrite E. simpl snd. apply F.
Defined.

Lemma scan_entries_found : forall n buf nm e i,
  0 <= e -> e + Z.of_nat n <= 16 ->
  scan_entries buf nm e n = Scan_Found i -> entry_found buf nm i.
Proof.
  induction n as [| n IH]; intros buf nm e i He Hn; simpl; [discriminate|].
  assert (Next : scan_entries buf nm (e + 1) n = Scan_Found i ->
                 entry_found buf nm i) by (apply IH; lia).
  destruct (Z.eqb_spec (byte_at buf (e * 32)) 0); [discriminate|].
  destruct (Z.eqb_spec (byte_at buf (e * 32)) 229); [exact Next|].
  destruct (Z.eqb_spec (Z.land (byte_at buf (e * 32 + 11)) FAT_ATTR_LONG_NAME)
              FAT_ATTR_LONG_NAME); [exact Next|].
  destruct (name_matches buf (e * 32) nm) eqn:M; [|exact Next].
  intros [= <-]. exists e. repeat split; auto; lia.
Qed.

Lemma scan_sectors_spec : forall n v nm sector s r v',
  scan_sectors v nm sector s n = (r, v') ->
  same_fat v v' /\ (scratch_ok v -> scratch_ok v') /\
  match r with
  | Some (st, found) => search_result nm st found v'
  | None => True
  end.
Proof.
  induction n as [| n IH]; intros v nm sector s r v'; cbn [scan_sectors].
  - intros [= <- <-]. split; [apply same_fat_refl | auto].
  - pose proof (read_sector_keeps v (u32 (sector + s))) as [Ks Kok].
    destruct (read_sector v (u32 (sector + s))) as [st v1]. simpl in Ks, Kok.
    destruct (negb (SD.is_ok st)).
    + intros [= <- <-]. repeat split; auto; apply Ks.
    + destruct (scan_entries (sector_buffer v1) nm 0 16) as [| i |] eqn:Sc.
      * intros [= <- <-]. repeat split; auto; apply Ks.
      * intros [= <- <-]. split; [exact Ks|]. split; [exact Kok|].
        cbn [search_result]. apply (scan_entries_found 16 _ _ 0); auto; lia.
      * intros R. destruct (IH _ _ _ _ _ _ R) as (Is & Iok & Ir).
        split; [eapply same_fat_trans; eauto|]. split; auto.
Qed.

Lemma find_loop_spec : forall fuel v nm c st found v',
  find_loop fuel v nm c = Some (st, found, v') ->
  same_fat v v' /\ (scratch_ok v -> scratch_ok v') /\ search_result nm st found v'.
Proof.
  induction fuel as [| fuel IH]; intros v nm c st found v'; cbn [find_loop];
    [discriminate|].
  destruct (FAT_IsEndOfChain c).
  - intros [= <- <- <-]. split; [apply same_fat_refl|]. split; simpl; auto.
  - destruct (scan_sectors v nm (FAT_ClusterToSector v c) 0
                (Z.to_nat (sectors_per_cluster (boot v)))) as [r v1] eqn:Sc.
    destruct (scan_sectors_spec _ _ _ _ _ _ _ Sc) as (Ks & Kok & Kr).
    destruct r as [[st1 f1] |].
    + intros [= <- <- <-]. auto.
    + pose proof (next_cluster_keeps v1 c) as [Ns Nok].
      destruct (FAT_GetNextCluster v1 c) as [next v2]. simpl in Ns, Nok.
      intros R. destruct (IH _ _ _ _ _ _ R) as (Is & Iok & Ir).
      split; [eapply same_fat_trans; [exact Ks|];
              eapply same_fat_trans; eauto|].
      split; auto.
Qed.

(** X14.  What [FAT_FindFile] returns.  The card, the boot sector and the
    mount flag are as before.  The status is FAT_OK only with a live
    short-name entry of the sector now in the scratch buffer whose eleven
    name bytes are the converted file name, and [info] is then decoded
    from that entry; with every other status [info] is untouched, and the
    status is never the plain FAT_ERROR. *)
Theorem find_file_sound : forall fuel v name info st v' info',
  FAT_FindFile fuel (Some v) (Some name) (Some info) = Some (st, v', info') ->
  exists w, v' = Some w /\ same_fat v w /\ st <> FAT_ERROR /\
    (st <> FAT_OK -> info' = Some info) /\
    (st = FAT_OK ->
     exists i, info' = Some i /\
       entry_found (sector_buffer w) (FAT_ConvertFilename name name_buffer) i).
Proof.
  intros fuel v name info st v' info'. unfold FAT_FindFile.
  destruct (negb (mounted v)).
  - intros [= <- <- <-]. exists v. split; [reflexivity|].
    split; [apply same_fat_refl|]. repeat split; auto; discriminate.
  - cbv zeta.
    destruct (find_loop fuel v (FAT_ConvertFilename name name_buffer)
                (root_cluster (boot v))) as [[[st1 f1] v1] |] eqn:L;
      [|discriminate].
    destruct (find_loop_spec _ _ _ _ _ _ _ L) as (Ks & _ & Kr).
    destruct f1 as [i |]; intros [= <- <- <-]; exists v1;
      (split; [reflexivity|]); (split; [exact Ks|]);
      destruct st1; simpl in Kr; try contradiction;
      repeat split; try discriminate; auto;
      try (intros C; now elim C).
    intros _. now exists i.
Qed.

Lemma find_file_sound_witness :
  match FAT_FindFile 5 (Some image_volume) (Some "badapple.bin"%string)
          (Some (mkFileInfo 0 0 0)) with
  | Some (st, Some w, Some i) =>
      st = FAT_OK /\ i = mkFileInfo 3 3000 32 /\
      entry_found (sector_buffer w)
        (FAT_ConvertFilename "badapple.bin" name_buffer) i
  | _ => False
  end.
Proof.
  assert (P : match FAT_FindFile 5 (Some image_volume)
                      (Some "badapple.bin"%string) (Some (mkFileInfo 0 0 0)) with
              | Some (s, _, i) => s = FAT_OK /\ i = Some (mkFileInfo 3 3000 32)
              | None => False
              end) by (vm_compute; split; reflexivity).
  pose proof (find_file_sound 5 image_volume "badapple.bin"%string
                (mkFileInfo 0 0 0)) as H.
  destruct (FAT_FindFile 5 (Some image_volume) (Some "badapple.bin"%string)
              (Some (mkFileInfo 0 0 0))) as [[[st v'] i'] |];
    [| exact P].
  destruct P as (-> & ->).
  destruct (H FAT_OK v' _ eq_refl) as (w & -> & _ & _ & _ & Hok).
  destruct (Hok eq_refl) as (i & [= <-] & Hf).
  repeat split; auto.
Defined.

Lemma find_loop_total : forall rest v0 c v nm fuel,
  same_fat v0 v -> scratch_ok v0 -> scratch_ok v ->
  chain_from v0 c rest -> (length rest + 2 <= fuel)%nat ->
  exists r, find_loop fuel v nm c = Some r.
Proof.
  induction rest as [| d r IH]; intros v0 c v nm fuel Hs H0 Hok Hch Hf;
    (destruct fuel as [| fuel]; [simpl in Hf; lia|]);
    cbn [find_loop]; rewrite (chain_from_head v0 c _ Hch);
    destruct (scan_sectors v nm (FAT_ClusterToSector v c) 0
                (Z.to_nat (sectors_per_cluster (boot v)))) as [res v1] eqn:Sc;
    destruct (scan_sectors_spec _ _ _ _ _ _ _ Sc) as (Ks & Kok & _);
    (destruct res as [[st1 f1] |]; [eexists; reflexivity|]);
    pose proof (next_cluster_keeps v1 c) as [Ns Nok];
    assert (Hs1 : same_fat v0 v1) by (eapply same_fat_trans; eauto);
    assert (En : fat_entry v1 c = fat_entry v0 c)
      by (apply fat_entry_same; auto);
    unfold fat_entry in En at 1;
    destruct (FAT_GetNextCluster v1 c) as [next v2]; simpl in Ns, Nok, En;
    subst next.
  - destruct Hch as [_ Hend].
    destruct fuel as [| fuel]; [simpl in Hf; lia|].
    cbn [find_loop]. rewrite Hend. eexists; reflexivity.
  - destruct Hch as [_ [Hd Hch]]. rewrite Hd.
    apply (IH v0); auto.
    + eapply same_fat_trans; eauto.
    + simpl in Hf. lia.
Qed.

(** X15.  The search of the root directory ends: when the FAT records a
    chain for the root cluster that reaches an end mark, [FAT_FindFile]
    returns after at most one turn of its outer loop per cluster of the
    chain, with one of the statuses FAT_OK, FAT_ERROR_READ and
    FAT_ERROR_NOT_FOUND. *)
Theorem find_file_terminates : forall v name info rest fuel,
  mounted v = true -> scratch_ok v ->
  chain_from v (root_cluster (boot v)) rest ->
  (length rest + 2 <= fuel)%nat ->
  exists st v' info',
    FAT_FindFile fuel (Some v) (Some name) (Some info) = Some (st, Some v', info') /\
    (st = FAT_OK \/ st = FAT_ERROR_READ \/ st = FAT_ERROR_NOT_FOUND).
Proof.
  intros v name info rest fuel Hm Hok Hch Hf. unfold FAT_FindFile.
  rewrite Hm. cbn [negb]. cbv iota zeta.
  destruct (find_loop_total rest v _ v (FAT_ConvertFilename name name_buffer)
              fuel (same_fat_refl v) Hok Hok Hch Hf) as ([[st f] v'] & L).
  rewrite L. destruct (find_loop_spec _ _ _ _ _ _ _ L) as (_ & _ & Kr).
  destruct f as [i |]; eexists st, v', _; (split; [reflexivity|]);
    destruct st; simpl in Kr; try contradiction; auto.
Qed.

Lemma find_file_terminates_witness :
  exists st v' info',
    FAT_FindFile 2 (Some image_volume) (Some "OTHER.BIN"%string)
      (Some (mkFileInfo 0 0 0)) = Some (st, Some v', info') /\
    (st = FAT_OK \/ st = FAT_ERROR_READ \/ st = FAT_ERROR_NOT_FOUND).
Proof.
  apply (find_file_terminates image_volume "OTHER.BIN"%string
           (mkFileInfo 0 0 0) [] 2 eq_refl eq_refl).
  - split; vm_compute; reflexivity.
  - simpl. lia.
Defined.

End Mounting.

(** ** The read paths of the media reader *)

Section ReadPath.
Import Media.

(** [a] and [b] agree outside the window [from .. from + len - 1]. *)
Lemma nth_write_at_outside : forall buf pos data j d,
  (j < Z.to_nat pos \/ Z.to_nat pos + length data <= j)%nat ->
  nth j (write_at buf pos data) d = nth j buf d.
Proof.
  intros buf pos data j d Hj.
  destruct (Nat.le_gt_cases (length buf) j) as [Hout | Hin].
  - rewrite !nth_overflow; auto. now rewrite write_at_length.
  - unfold write_at. set (p := Z.to_nat pos) in *.
    destruct Hj as [Hj | Hj].
    + rewrite app_nth1 by (rewrite length_firstn; lia).
      rewrite nth_firstn.
      destruct (Nat.ltb_spec j p); [reflexivity | lia].
    + assert (L1 : length (firstn p buf) = p) by (rewrite length_firstn; lia).
      assert (L2 : length (firstn (length buf - p) data) = length data)
        by (rewrite length_firstn; lia).
      rewrite app_nth2 by lia. rewrite app_nth2 by lia.
      rewrite L1, L2, nth_skipn. f_equal. lia.
Qed.

Lemma same_outside_refl : forall a from len, same_outside a a from len.
Proof. intros. split; auto. Qed.

Lemma same_outside_trans : forall a b c f1 l1 f2 l2 from len,
  same_outside a b f1 l1 -> same_outside b c f2 l2 ->
  from <= f1 -> f1 + l1 <= from + len ->
  from <= f2 -> f2 + l2 <= from + len ->
  same_outside a c from len.
Proof.
  intros a b c f1 l1 f2 l2 from len (La & Ha) (Lb & Hb) H1 H2 H3 H4.
  split; [congruence|]. intros j Hj.
  rewrite Hb by lia. apply Ha. lia.
Qed.

Lemma same_outside_write_at : forall buf pos data len,
  0 <= pos -> Z.of_nat (length data) <= len ->
  same_outside buf (write_at buf pos data) pos len.
Proof.
  intros buf pos data len Hp Hl. split; [apply write_at_length|].
  intros j Hj. apply nth_write_at_outside. lia.
Qed.

Lemma read_block_outside : forall h buf pos block st h' buf',
  0 <= pos -> SD.SD_ReadBlock h buf pos block = (st, h', buf') ->
  same_outside buf buf' pos 512.
Proof.
  intros h buf pos block st h' buf' Hp. unfold SD.SD_ReadBlock.
  destruct (negb (SD.initialized h)).
  - intros [= <- <- <-]. apply same_outside_refl.
  - destruct (SD.card h block).
    + intros [= <- <- <-]. apply same_outside_write_at; auto.
      rewrite block_data_length. lia.
    + intros [= <- <- <-]. apply same_outside_refl.
Qed.

Lemma read_stream_outside : forall n h buf pos block st buf',
  0 <= pos -> SD.read_stream h buf pos block n = (st, buf') ->
  same_outside buf buf' pos (512 * Z.of_nat n).
Proof.
  induction n as [| n IH]; intros h buf pos block st buf' Hp;
    cbn [SD.read_stream].
  - intros [= <- <-]. apply same_outside_refl.
  - destruct (SD.card h block) as [d |].
    + intros R. change SD.SD_BLOCK_SIZE with 512 in R.
      apply IH in R; [|lia].
      eapply same_outside_trans;
        [apply (same_outside_write_at buf pos (SD.block_data d) 512); auto;
         rewrite block_data_length; lia
        | exact R | | | |]; lia.
    + intros [= <- <-]. apply same_outside_refl.
Qed.

Lemma read_multi_outside : forall h buf pos start count st h' buf',
  0 <= pos -> 1 <= count ->
  SD.SD_ReadMultipleBlocks h buf pos start count = (st, h', buf') ->
  same_outside buf buf' pos (512 * count).
Proof.
  intros h buf pos start count st h' buf' Hp Hc. unfold SD.SD_ReadMultipleBlocks.
  destruct (negb (SD.initialized h) || (count =? 0)).
  - intros [= <- <- <-]. apply same_outside_refl.
  - destruct (Z.eqb_spec count 1) as [-> | Hn].
    + apply read_block_outside; auto.
    + destruct (SD.read_stream h buf pos start (Z.to_nat count)) as [s b] eqn:R.
      intros [= <- <- <-]. apply read_stream_outside in R; auto.
      now rewrite Z2Nat.id in R by lia.
Qed.

Lemma slice_length : forall buf off len,
  Z.of_nat (length (slice buf off len)) <= Z.max len 0.
Proof.
  intros buf off len. unfold slice. rewrite length_firstn. lia.
Qed.

Lemma partial_copy_bounds : forall media offset size so,
  0 <= offset < file_size media -> file_size media < 2 ^ 32 ->
  0 < size -> 0 <= so < 512 ->
  1 <= partial_copy media offset size so <= size.
Proof.
  intros media offset size so Ho Hf Hs Hso. unfold partial_copy.
  change SD_BLOCK_SIZE with 512.
  set (t := if size <? 512 - so then size else 512 - so).
  assert (Ht : 1 <= t <= size)
    by (subst t; destruct (Z.ltb_spec size (512 - so)); lia).
  destruct (Z.ltb_spec (file_size media) (u32 (offset + t))) as [Hlt | Hge];
    [|exact Ht].
  rewrite u32_small by lia.
  assert (u32 (offset + t) <= offset + t).
  { unfold u32. apply Z.mod_le; lia. }
  lia.
Qed.

(** One turn of the loop of [Media_ReadAtContiguous]. *)
Lemma contiguous_iteration_spec :
  forall media v offset buffer pos size st v' o' b' p' s',
  0 <= offset < file_size media -> file_size media < 2 ^ 32 ->
  0 < size < 2 ^ 32 -> 0 <= pos ->
  contiguous_iteration media v offset buffer pos size = (st, v', (o', b', p', s')) ->
  same_outside buffer b' pos size /\
  (SD.is_ok st = true ->
   pos <= p' /\ 0 <= s' <= size /\ p' + s' = pos + size /\ 0 <= o' /\
   (offset + size <= file_size media -> s' < size /\ o' + s' = offset + size)).
Proof.
  intros media v offset buffer pos size st v' o' b' p' s' Ho Hf Hs Hp.
  unfold contiguous_iteration. change SD_BLOCK_SIZE with 512.
  pose proof (Z.mod_pos_bound offset 512 ltac:(lia)) as Hm.
  destruct (negb (offset mod 512 =? 0) || (size <? 512)) eqn:C.
  - destruct (FAT.read_sector v _) as [st1 v1].
    destruct (SD.is_ok st1) eqn:O; cbn [negb]; cbv iota.
    + pose proof (partial_copy_bounds media offset size (offset mod 512)
                    Ho Hf ltac:(lia) Hm) as Ht.
      intros [= <- <- <- <- <- <-]. split.
      * apply same_outside_write_at; auto.
        pose proof (slice_length (FAT.sector_buffer v1) (offset mod 512)
                      (partial_copy media offset size (offset mod 512))). lia.
      * intros _. rewrite (u32_small (size - _)) by lia.
        pose proof (u32_range (offset + partial_copy media offset size
                                          (offset mod 512))).
        repeat split; try lia. rewrite u32_small; lia.
    + intros [= <- <- <- <- <- <-]. split; [apply same_outside_refl|].
      rewrite O. discriminate.
  - apply orb_false_elim in C. destruct C as [Ca Cs].
    apply negb_false_iff in Ca. apply Z.eqb_eq in Ca. apply Z.ltb_ge in Cs.
    rewrite aligned_run_min by lia.
    destruct (run_bounds media offset size Ho Cs) as (Hk & Hks & Hko).
    set (k := Z.min (Z.min (size / 512) ((file_size media - offset) / 512)) 16)
      in *.
    destruct (if 1 <? k
              then SD.SD_ReadMultipleBlocks (FAT.hsd v) buffer pos
                     (u32 (first_sector media + offset / 512)) k
              else SD.SD_ReadBlock (FAT.hsd v) buffer pos
                     (u32 (first_sector media + offset / 512)))
      as [[st1 h1] b1] eqn:R.
    assert (W : same_outside buffer b1 pos size).
    { destruct (Z.ltb_spec 1 k).
      - apply read_multi_outside in R; try lia.
        apply (same_outside_trans buffer b1 b1 pos (512 * k) pos 0 pos size R
                 (same_outside_refl _ _ _)); lia.
      - apply read_block_outside in R; try lia.
        apply (same_outside_trans buffer b1 b1 pos 512 pos 0 pos size R
                 (same_outside_refl _ _ _)); lia. }
    destruct (SD.is_ok st1) eqn:O; cbn [negb]; cbv iota.
    + intros [= <- <- <- <- <- <-]. split; [exact W|]. intros _.
      rewrite (u32_small (k * 512)) by lia.
      rewrite (u32_small (size - _)) by lia.
      rewrite (u32_small (offset + _)) by lia.
      repeat split; try lia.
      * assert (1 <= size / 512) by (apply Z.div_le_lower_bound; lia).
        assert (1 <= (file_size media - offset) / 512)
          by (apply Z.div_le_lower_bound; lia).
        lia.
    + intros [= <- <- <- <- <- <-]. split; [exact W|].
      rewrite O. discriminate.
Qed.

Lemma same_file_refl : forall m, same_file m m.
Proof. intros []. reflexivity. Qed.

Lemma same_file_trans : forall a b c, same_file a b -> same_file b c -> same_file a c.
Proof.
  intros a b c Hab Hbc. unfold same_file in *. rewrite Hbc at 1.
  rewrite Hab at 1. destruct a; reflexivity.
Qed.

Lemma same_file_set_vol : forall m v, same_file m (set_vol m v).
Proof. intros [] v. reflexivity. Qed.

Lemma same_file_set_cache : forall m c i, same_file m (set_cache m c i).
Proof. intros [] c i. reflexivity. Qed.

Lemma same_file_size : forall m m', same_file m m' -> file_size m' = file_size m.
Proof. intros m m' H. rewrite H. reflexivity. Qed.

Lemma get_cluster_at_file : forall media v off,
  same_file media (snd (fst (Media_GetClusterAt media v off))).
Proof.
  intros media v off. unfold Media_GetClusterAt.
  destruct (FAT.FAT_GetClusterSize (Some v) =? 0);
    [apply same_file_refl|].
  match goal with
  | |- context [if ?c then _ else _] => destruct c
  end;
    match goal with
    | |- context [walk_chain ?n ?w ?c] => destruct (walk_chain n w c)
    end; apply same_file_set_cache.
Qed.

Lemma contiguous_loop_eq : forall fuel media v offset buffer pos size,
  contiguous_loop fuel media v offset buffer pos size
  = if negb ((0 <? size) && (offset <? file_size media))
    then Some (FAT.FAT_OK, v, buffer)
    else
      match fuel with
      | O => None
      | S fuel' =>
          let '(st, v1, (o1, b1, p1, s1)) :=
            contiguous_iteration media v offset buffer pos size in
          if negb (SD.is_ok st) then Some (FAT.FAT_ERROR_READ, v1, b1)
          else contiguous_loop fuel' media v1 o1 b1 p1 s1
      end.
Proof. intros [] *; reflexivity. Qed.

Lemma contiguous_loop_window : forall fuel media v offset buffer pos size st v' b',
  0 <= offset -> file_size media < 2 ^ 32 -> 0 <= size < 2 ^ 32 -> 0 <= pos ->
  contiguous_loop fuel media v offset buffer pos size = Some (st, v', b') ->
  same_outside buffer b' pos size /\ (st = FAT.FAT_OK \/ st = FAT.FAT_ERROR_READ).
Proof.
  induction fuel as [| fuel IH]; intros media v offset buffer pos size st v' b'
    Ho Hf Hs Hp; rewrite contiguous_loop_eq;
    (destruct (negb ((0 <? size) && (offset <? file_size media))) eqn:C;
      [intros [= <- <- <-]; split; [apply same_outside_refl | now left] |]);
    [discriminate|].
  apply negb_false_iff, andb_true_iff in C. destruct C as [C1 C2].
  apply Z.ltb_lt in C1, C2.
  destruct (contiguous_iteration media v offset buffer pos size)
    as [[st1 v1] [[[o1 b1] p1] s1]] eqn:It.
  destruct (contiguous_iteration_spec media v offset buffer pos size
              st1 v1 o1 b1 p1 s1) as (W & K);
    [lia | assumption | lia | assumption | exact It |].
  destruct (SD.is_ok st1) eqn:O; cbn [negb]; cbv iota.
  - destruct (K eq_refl) as (K1 & K2 & K3 & K4 & _).
    intros R. apply IH in R; try lia. destruct R as (R & Rst).
    split; [|exact Rst].
    apply (same_outside_trans buffer b1 b' pos size p1 s1 pos size W R); lia.
  - intros [= <- <- <-]. split; [exact W | now right].
Qed.

Lemma contiguous_loop_total : forall fuel media v offset buffer pos size,
  0 <= offset -> file_size media < 2 ^ 32 -> 0 <= size < 2 ^ 32 -> 0 <= pos ->
  offset + size <= file_size media -> (Z.to_nat size <= fuel)%nat ->
  exists r, contiguous_loop fuel media v offset buffer pos size = Some r.
Proof.
  induction fuel as [| fuel IH]; intros media v offset buffer pos size
    Ho Hf Hs Hp Hin Hfuel; rewrite contiguous_loop_eq;
    (destruct (negb ((0 <? size) && (offset <? file_size media))) eqn:C;
      [eexists; reflexivity |]);
    apply negb_false_iff, andb_true_iff in C; destruct C as [C1 C2];
    apply Z.ltb_lt in C1, C2; [lia|].
  destruct (contiguous_iteration media v offset buffer pos size)
    as [[st1 v1] [[[o1 b1] p1] s1]] eqn:It.
  destruct (contiguous_iteration_spec media v offset buffer pos size
              st1 v1 o1 b1 p1 s1) as (W & K);
    [lia | assumption | lia | assumption | exact It |].
  destruct (SD.is_ok st1) eqn:O; cbn [negb]; cbv iota;
    [|eexists; reflexivity].
  destruct (K eq_refl) as (K1 & K2 & K3 & K4 & K5).
  destruct (K5 Hin) as (K6 & K7).
  apply IH; lia.
Qed.

Lemma contiguous_stuck : forall fuel media v buffer offset pos size d,
  SD.initialized (FAT.hsd v) = true ->
  SD.card (FAT.hsd v) (u32 (first_sector media + offset / 512)) = Some d ->
  0 <= offset < file_size media -> file_size media < 2 ^ 32 ->
  offset mod 512 = 0 -> 512 <= size < 2 ^ 32 ->
  file_size media - offset < 512 ->
  contiguous_loop fuel media v offset buffer pos size = None.
Proof.
  induction fuel as [| fuel IH]; intros media v buffer offset pos size d
    Hi Hc Ho Hf Ha Hs Hlast; rewrite contiguous_loop_eq;
    replace (0 <? size) with true by (symmetry; apply Z.ltb_lt; lia);
    replace (offset <? file_size media) with true
      by (symmetry; apply Z.ltb_lt; lia);
    cbn [andb negb]; cbv iota; [reflexivity|].
  unfold contiguous_iteration. change SD_BLOCK_SIZE with 512.
  rewrite Ha. replace (size <? 512) with false by (symmetry; apply Z.ltb_ge; lia).
  cbn [Z.eqb negb orb]. cbv iota.
  rewrite aligned_run_min by lia.
  replace (Z.min (Z.min (size / 512) ((file_size media - offset) / 512)) 16)
    with 0.
  2:{ rewrite (Z.div_small (file_size media - offset) 512) by lia.
      assert (1 <= size / 512) by (apply Z.div_le_lower_bound; lia). lia. }
  cbn [Z.ltb Z.compare]. cbv iota.
  unfold SD.SD_ReadBlock. rewrite Hi, Hc. cbn [negb SD.is_ok]. cbv iota beta.
  change (u32 (0 * 512)) with 0.
  rewrite !Z.add_0_r, Z.sub_0_r, (u32_small offset), (u32_small size) by lia.
  apply (IH media _ _ offset pos size d); auto.
Qed.

Lemma fragmented_loop_eq : forall fuel media v cs offset buffer pos size,
  fragmented_loop fuel media v cs offset buffer pos size
  = if negb ((0 <? size) && (offset <? file_size media))
    then Some (FAT.FAT_OK, media, v, buffer)
    else
      match fuel with
      | O => None
      | S fuel' =>
          let '(cluster, media, v) := Media_GetClusterAt media v offset in
          if FAT.FAT_IsEndOfChain cluster then Some (FAT.FAT_OK, media, v, buffer)
          else
            let offset_in_cluster := offset mod cs in
            let sector := u32 (FAT.FAT_ClusterToSector v cluster
                               + offset_in_cluster / SD_BLOCK_SIZE) in
            let sector_offset := offset_in_cluster mod SD_BLOCK_SIZE in
            let '(st, v) := FAT.read_sector v sector in
            if negb (SD.is_ok st) then Some (FAT.FAT_ERROR_READ, media, v, buffer)
            else
              let to_copy := partial_copy media offset size sector_offset in
              fragmented_loop fuel' media v cs
                (u32 (offset + to_copy))
                (write_at buffer pos
                   (slice (FAT.sector_buffer v) sector_offset to_copy))
                (pos + to_copy)
                (u32 (size - to_copy))
      end.
Proof. intros [] *; reflexivity. Qed.

(** The loop of [Media_ReadAtFragmented]: it ends within [size] turns,
    and what it returns. *)
Lemma fragmented_loop_spec : forall fuel media v cs offset buffer pos size,
  0 <= offset -> file_size media < 2 ^ 32 -> 0 <= size < 2 ^ 32 -> 0 <= pos ->
  ((Z.to_nat size <= fuel)%nat ->
   exists r, fragmented_loop fuel media v cs offset buffer pos size = Some r) /\
  (forall st m' v' b',
   fragmented_loop fuel media v cs offset buffer pos size = Some (st, m', v', b') ->
   same_outside buffer b' pos size /\ same_file media m' /\
   (st = FAT.FAT_OK \/ st = FAT.FAT_ERROR_READ)).
Proof.
  induction fuel as [| fuel IH]; intros media v cs offset buffer pos size
    Ho Hf Hs Hp; rewrite fragmented_loop_eq;
    (destruct (negb ((0 <? size) && (offset <? file_size media))) eqn:C;
      [split; [eexists; reflexivity |];
       intros st m' v' b' [= <- <- <- <-];
       split; [apply same_outside_refl|]; split; [apply same_file_refl | now left]
      |]);
    apply negb_false_iff, andb_true_iff in C; destruct C as [C1 C2];
    apply Z.ltb_lt in C1, C2;
    [split; [lia | discriminate]|].
  pose proof (get_cluster_at_file media v offset) as G.
  destruct (Media_GetClusterAt media v offset) as [[cluster m1] v1].
  simpl in G. pose proof (same_file_size _ _ G) as Gs.
  destruct (FAT.FAT_IsEndOfChain cluster).
  { split; [eexists; reflexivity|].
    intros st m' v' b' [= <- <- <- <-].
    split; [apply same_outside_refl|]. split; [exact G | now left]. }
  cbv zeta. change SD_BLOCK_SIZE with 512.
  destruct (FAT.read_sector v1 _) as [st1 v2].
  destruct (SD.is_ok st1); cbn [negb]; cbv iota.
  2:{ split; [eexists; reflexivity|].
      intros st m' v' b' [= <- <- <- <-].
      split; [apply same_outside_refl|]. split; [exact G | now right]. }
  set (so := (offset mod cs) mod 512).
  assert (Hso : 0 <= so < 512) by (apply Z.mod_pos_bound; lia).
  pose proof (partial_copy_bounds m1 offset size so ltac:(lia) ltac:(lia)
                ltac:(lia) Hso) as Ht.
  set (t := partial_copy m1 offset size so) in *.
  pose proof (u32_range (offset + t)) as Hu.
  rewrite (u32_small (size - t)) by lia.
  destruct (IH m1 v2 cs (u32 (offset + t))
              (write_at buffer pos (slice (FAT.sector_buffer v2) so t))
              (pos + t) (size - t)) as (It & Iw); try lia.
  split.
  - intros Hfuel. apply It. lia.
  - intros st m' v' b' R. destruct (Iw _ _ _ _ R) as (W & F & S).
    split; [|split; [eapply same_file_trans; eauto | exact S]].
    pose proof (slice_length (FAT.sector_buffer v2) so t) as Hl.
    assert (W0 : same_outside buffer
                   (write_at buffer pos (slice (FAT.sector_buffer v2) so t))
                   pos t) by (apply same_outside_write_at; lia).
    apply (same_outside_trans buffer _ b' pos t (pos + t) (size - t) pos size
             W0 W); lia.
Qed.

Lemma read_at_returned : forall fuel media offset buffer pos size st m' b',
  0 <= offset -> file_size media < 2 ^ 32 -> 0 <= size < 2 ^ 32 -> 0 <= pos ->
  Media_ReadAt fuel media offset buffer pos size = Some (st, m', b') ->
  same_outside buffer b' pos size /\ same_file media m' /\
  (st = FAT.FAT_ERROR_INVALID_PARAM -> is_open media = false /\ b' = buffer) /\
  (st = FAT.FAT_ERROR -> FAT.FAT_GetClusterSize (vol media) = 0 /\ b' = buffer) /\
  st <> FAT.FAT_ERROR_NOT_FOUND.
Proof.
  intros fuel media offset buffer pos size st m' b' Ho Hf Hs Hp.
  unfold Media_ReadAt.
  destruct (is_open media); cbn [negb]; cbv iota.
  2:{ intros [= <- <- <-]. split; [apply same_outside_refl|].
      split; [apply same_file_refl|]. repeat split; auto; discriminate. }
  destruct (is_contiguous media && negb (first_sector media =? 0)).
  - unfold Media_ReadAtContiguous. destruct (vol media) as [v |].
    + destruct (contiguous_loop fuel media v offset buffer pos size)
        as [[[st1 v1] b1] |] eqn:L; [|discriminate].
      intros [= <- <- <-].
      destruct (contiguous_loop_window _ _ _ _ _ _ _ _ _ _ Ho Hf Hs Hp L)
        as (W & S).
      split; [exact W|]. split; [apply same_file_set_vol|].
      destruct S as [-> | ->]; repeat split; discriminate.
    + destruct (negb ((0 <? size) && (offset <? file_size media)));
        [|discriminate].
      intros [= <- <- <-]. split; [apply same_outside_refl|].
      split; [apply same_file_refl|]. repeat split; discriminate.
  - unfold Media_ReadAtFragmented.
    destruct (Z.eqb_spec (FAT.FAT_GetClusterSize (vol media)) 0) as [Ez | Ez].
    + intros [= <- <- <-]. split; [apply same_outside_refl|].
      split; [apply same_file_refl|]. repeat split; auto; discriminate.
    + destruct (vol media) as [v |]; [|discriminate].
      destruct (fragmented_loop fuel media v _ offset buffer pos size)
        as [[[[st1 m1] v1] b1] |] eqn:L; [|discriminate].
      intros [= <- <- <-].
      destruct (fragmented_loop_spec fuel media v
                  (FAT.FAT_GetClusterSize (Some v)) offset buffer pos size
                  Ho Hf Hs Hp) as (_ & K).
      destruct (K _ _ _ _ L) as (W & F & S).
      split; [exact W|].
      split; [eapply same_file_trans; [exact F | apply same_file_set_vol]|].
      destruct S as [-> | ->]; repeat split; discriminate.
Qed.

(** X16.  [Media_ReadAt] stays inside the caller's buffer and the file
    handle: whatever the card answers, the bytes outside
    [buffer[pos .. pos + size - 1]] are not written, the handle changes in
    the state of its volume and in its cluster cache only, and the status
    is FAT_OK, FAT_ERROR_READ, or one of the two refusals. *)
Theorem read_at_window : forall fuel media offset buffer pos size st m' b',
  0 <= offset -> file_size media < 2 ^ 32 -> 0 <= size < 2 ^ 32 -> 0 <= pos ->
  Media_ReadAt fuel media offset buffer pos size = Some (st, m', b') ->
  same_outside buffer b' pos size /\ same_file media m' /\
  (st = FAT.FAT_ERROR_INVALID_PARAM -> is_open media = false /\ b' = buffer) /\
  (st = FAT.FAT_ERROR -> FAT.FAT_GetClusterSize (vol media) = 0 /\ b' = buffer) /\
  st <> FAT.FAT_ERROR_NOT_FOUND.
Proof. exact read_at_returned. Qed.

Lemma read_at_window_witness :
  match Media_ReadAt 9 contiguous_media 100 (repeat 7 600) 40 500 with
  | Some (st, m', b') =>
      st = FAT.FAT_OK /\ same_outside (repeat 7 600) b' 40 500 /\
      byte_at b' 39 = 7 /\ byte_at b' 40 = 56 /\ byte_at b' 540 = 7
  | None => False
  end.
Proof.
  destruct (Media_ReadAt 9 contiguous_media 100 (repeat 7 600) 40 500)
    as [[[st m'] b'] |] eqn:E.
  - destruct (read_at_window 9 contiguous_media 100 (repeat 7 600) 40 500
                st m' b' ltac:(lia) ltac:(simpl; lia) ltac:(lia) ltac:(lia) E)
      as (W & _).
    assert (P : match Media_ReadAt 9 contiguous_media 100 (repeat 7 600) 40 500 with
                | Some (st, _, b') =>
                    st = FAT.FAT_OK /\ byte_at b' 39 = 7 /\ byte_at b' 40 = 56 /\
                    byte_at b' 540 = 7
                | None => False
                end) by (vm_compute; repeat split; reflexivity).
    rewrite E in P. destruct P as (P1 & P2 & P3 & P4). repeat split; auto;
      apply W.
  - assert (P : match Media_ReadAt 9 contiguous_media 100 (repeat 7 600) 40 500 with
                | Some _ => True
                | None => False
                end) by (vm_compute; exact I).
    rewrite E in P. exact P.
Defined.

Lemma read_at_total : forall fuel media offset buffer pos size,
  0 <= offset -> file_size media < 2 ^ 32 -> 0 <= size < 2 ^ 32 -> 0 <= pos ->
  (Z.to_nat size <= fuel)%nat ->
  is_contiguous media && negb (first_sector media =? 0) = false \/
  (vol media <> None /\ offset + size <= file_size media) ->
  exists st m' b', Media_ReadAt fuel media offset buffer pos size = Some (st, m', b').
Proof.
  intros fuel media offset buffer pos size Ho Hf Hs Hp Hfuel Hpath.
  unfold Media_ReadAt.
  destruct (is_open media); cbn [negb]; cbv iota;
    [|eexists _, _, _; reflexivity].
  destruct (is_contiguous media && negb (first_sector media =? 0)).
  - destruct Hpath as [Hpath | (Hv & Hin)]; [discriminate|].
    unfold Media_ReadAtContiguous. destruct (vol media) as [v |];
      [|now elim Hv].
    destruct (contiguous_loop_total fuel media v offset buffer pos size
                Ho Hf Hs Hp Hin Hfuel) as ([[st1 v1] b1] & L).
    rewrite L. eexists _, _, _; reflexivity.
  - unfold Media_ReadAtFragmented.
    destruct (FAT.FAT_GetClusterSize (vol media) =? 0) eqn:Ez;
      [eexists _, _, _; reflexivity|].
    destruct (vol media) as [v |]; [|discriminate Ez].
    destruct (fragmented_loop_spec fuel media v
                (FAT.FAT_GetClusterSize (Some v)) offset buffer pos size
                Ho Hf Hs Hp) as (T & _).
    destruct (T Hfuel) as ([[[st1 m1] v1] b1] & L).
    rewrite L. eexists _, _, _; reflexivity.
Qed.

(** X17.  [Media_ReadAt] returns.  On the cluster-chain path every turn
    of the loop copies at least one byte, so the call ends within [size]
    turns whatever the FAT and the card hold; on the fast path the same
    holds when the bytes asked for lie inside the file. *)
Theorem read_at_terminates : forall fuel media offset buffer pos size,
  0 <= offset -> file_size media < 2 ^ 32 -> 0 <= size < 2 ^ 32 -> 0 <= pos ->
  (Z.to_nat size <= fuel)%nat ->
  is_contiguous media && negb (first_sector media =? 0) = false \/
  (vol media <> None /\ offset + size <= file_size media) ->
  exists st m' b', Media_ReadAt fuel media offset buffer pos size = Some (st, m', b').
Proof. exact read_at_total. Qed.

Lemma read_at_terminates_witness :
  exists st m' b',
    Media_ReadAt 1024 (sample_media FAT.fat_late_gap 50260) 12308
      (repeat 0 1024) 0 1024 = Some (st, m', b').
Proof.
  apply read_at_terminates;
    [lia | simpl; lia | lia | lia | simpl; lia | left; reflexivity].
Defined.

(** X18.  The fast path can fail to return.  At a sector-aligned offset
    less than 512 bytes before the end of the file, a request for 512
    bytes or more computes a run of zero sectors: the sector is read into
    the buffer, nothing advances, and the loop turns for ever, sending
    the same CMD17 again and again. *)
Theorem read_at_stuck : forall fuel media v offset buffer pos size d,
  is_open media = true -> is_contiguous media = true ->
  first_sector media <> 0 -> vol media = Some v ->
  SD.initialized (FAT.hsd v) = true ->
  SD.card (FAT.hsd v) (u32 (first_sector media + offset / 512)) = Some d ->
  0 <= offset < file_size media -> file_size media < 2 ^ 32 ->
  offset mod 512 = 0 -> 512 <= size < 2 ^ 32 ->
  file_size media - offset < 512 ->
  Media_ReadAt fuel media offset buffer pos size = None.
Proof.
  intros fuel media v offset buffer pos size d Hopen Hc Hfs Hv Hi Hd Ho Hf
    Ha Hs Hlast.
  unfold Media_ReadAt, Media_ReadAtContiguous.
  rewrite Hopen, Hc, Hv.
  destruct (Z.eqb_spec (first_sector media) 0) as [E | _]; [now elim Hfs|].
  cbn [negb andb]. cbv iota.
  now rewrite (contiguous_stuck fuel media v buffer offset pos size d).
Qed.

Lemma read_at_stuck_witness :
  Media_ReadAt 1000 truncated_media 512 (repeat 0 1024) 0 532 = None.
Proof.
  apply (read_at_stuck 1000 truncated_media
           (FAT.sample_volume FAT.fat_contiguous) 512 (repeat 0 1024) 0 532
           (repeat 57 512)); try reflexivity; simpl; lia.
Defined.

Lemma read_frame_spec : forall fuel media n buffer,
  is_open media = true -> 0 <= n < frame_count media ->
  0 <= video_offset media ->
  video_offset media + 1024 * (n + 1) <= file_size media ->
  file_size media < 2 ^ 32 ->
  (1024 <= fuel)%nat ->
  is_contiguous media && negb (first_sector media =? 0) = false \/
  vol media <> None ->
  exists st m' b',
    Media_ReadFrameAt fuel media n buffer = Some (st, m', b') /\
    same_outside buffer b' 0 1024 /\ same_file media m' /\
    (st = FAT.FAT_OK \/ st = FAT.FAT_ERROR_READ \/ st = FAT.FAT_ERROR).
Proof.
  intros fuel media n buffer Hopen Hn Hvo Hin Hf Hfuel Hpath.
  unfold Media_ReadFrameAt. rewrite Hopen. cbn [negb]. cbv iota.
  destruct (Z.leb_spec (frame_count media) n) as [Hge | _]; [lia|].
  change MEDIA_FRAME_SIZE with 1024. cbv zeta.
  rewrite (u32_small (n * 1024)) by lia.
  rewrite (u32_small (video_offset media + n * 1024)) by lia.
  destruct (read_at_total fuel media (video_offset media + n * 1024)
              buffer 0 1024) as (st & m' & b' & R); try lia.
  { destruct Hpath as [Hp | Hp]; [now left | right; split; [exact Hp | lia]]. }
  exists st, m', b'. split; [exact R|].
  destruct (read_at_returned fuel media (video_offset media + n * 1024)
              buffer 0 1024 st m' b') as (W & F & Ei & _ & Enf);
    [lia | exact Hf | lia | lia | exact R |].
  split; [exact W|]. split; [exact F|].
  destruct st; auto.
  - now elim Enf.
  - destruct (Ei eq_refl) as (Ho & _). congruence.
Qed.

(** X19.  Reading a frame that lies inside the file: [Media_ReadFrameAt]
    returns within 1024 turns of the read loop, writes nothing outside
    [buffer[0 .. 1023]], and leaves the handle as it was but for the
    volume state and the cluster cache. *)
Theorem read_frame_within_file : forall fuel media n buffer,
  is_open media = true -> 0 <= n < frame_count media ->
  0 <= video_offset media ->
  video_offset media + 1024 * (n + 1) <= file_size media ->
  file_size media < 2 ^ 32 ->
  (1024 <= fuel)%nat ->
  is_contiguous media && negb (first_sector media =? 0) = false \/
  vol media <> None ->
  exists st m' b',
    Media_ReadFrameAt fuel media n buffer = Some (st, m', b') /\
    same_outside buffer b' 0 1024 /\ same_file media m' /\
    (st = FAT.FAT_OK \/ st = FAT.FAT_ERROR_READ \/ st = FAT.FAT_ERROR).
Proof. exact read_frame_spec. Qed.

Lemma read_frame_within_file_witness :
  exists st m' b',
    Media_ReadFrameAt 1024 (sample_media FAT.fat_late_gap 50260) 3 (repeat 0 1024)
    = Some (st, m', b') /\
    same_outside (repeat 0 1024) b' 0 1024 /\
    same_file (sample_media FAT.fat_late_gap 50260) m' /\
    (st = FAT.FAT_OK \/ st = FAT.FAT_ERROR_READ \/ st = FAT.FAT_ERROR).
Proof.
  apply read_frame_within_file;
    [reflexivity | simpl; lia | simpl; lia | simpl; lia | simpl; lia | lia
    | left; reflexivity].
Defined.

(** X20.  A file cut inside a frame hangs the fast path.  When the file
    ends in the second half of frame [n], less than 512 bytes after the
    sector boundary in the frame's middle, [Media_ReadFrameAt] copies the
    492 bytes up to that boundary and then never returns. *)
Theorem read_frame_truncated_stuck : forall fuel media v n buffer d1 d2,
  is_open media = true -> is_contiguous media = true ->
  0 < first_sector media -> vol media = Some v ->
  SD.initialized (FAT.hsd v) = true ->
  video_offset media = MEDIA_HEADER_SIZE ->
  0 <= n < frame_count media ->
  SD.card (FAT.hsd v) (u32 (first_sector media + 2 * n)) = Some d1 ->
  SD.card (FAT.hsd v) (u32 (first_sector media + (2 * n + 1))) = Some d2 ->
  1024 * n + 512 < file_size media < 1024 * n + 1024 ->
  file_size media < 2 ^ 32 ->
  Media_ReadFrameAt fuel media n buffer = None.
Proof.
  intros fuel media v n buffer d1 d2 Hopen Hc Hfs Hv Hi Hvo Hn Hd1 Hd2 Hcut Hf.
  unfold Media_ReadFrameAt. rewrite Hopen, Hvo. cbn [negb]. cbv iota.
  destruct (Z.leb_spec (frame_count media) n) as [Hge | _]; [lia|].
  change MEDIA_FRAME_SIZE with 1024. change MEDIA_HEADER_SIZE with 20.
  cbv zeta. rewrite (u32_small (n * 1024)) by lia.
  rewrite (u32_small (20 + n * 1024)) by lia.
  unfold Media_ReadAt, Media_ReadAtContiguous. rewrite Hopen, Hc, Hv.
  destruct (Z.eqb_spec (first_sector media) 0) as [E | _]; [lia|].
  cbn [negb andb]. cbv iota.
  rewrite contiguous_loop_eq.
  replace (20 + n * 1024 <? file_size media) with true
    by (symmetry; apply Z.ltb_lt; lia).
  cbn [Z.ltb Z.compare andb negb]. cbv iota.
  destruct fuel as [| fuel]; [reflexivity|].
  unfold contiguous_iteration. change SD_BLOCK_SIZE with 512.
  assert (Em : (20 + n * 1024) mod 512 = 20).
  { replace (20 + n * 1024) with (20 + (2 * n) * 512) by lia.
    rewrite Z.mod_add by lia. reflexivity. }
  assert (Ed : (20 + n * 1024) / 512 = 2 * n).
  { replace (20 + n * 1024) with (20 + (2 * n) * 512) by lia.
    rewrite Z.div_add by lia. reflexivity. }
  rewrite Em, Ed. cbn [Z.eqb negb orb]. cbv iota.
  unfold FAT.read_sector, SD.SD_ReadBlock. rewrite Hi, Hd1.
  cbn [negb SD.is_ok]. cbv iota beta.
  assert (Et : partial_copy media (20 + n * 1024) 1024 20 = 492).
  { unfold partial_copy. change SD_BLOCK_SIZE with 512. cbv zeta.
    change (if 1024 <? 512 - 20 then 1024 else 512 - 20) with 492.
    rewrite u32_small by lia.
    destruct (Z.ltb_spec (file_size media) (20 + n * 1024 + 492)); [lia|].
    reflexivity. }
  rewrite Et. change (u32 (1024 - 492)) with 532.
  rewrite (u32_small (20 + n * 1024 + 492)) by lia.
  rewrite (contiguous_stuck fuel media _ _ (20 + n * 1024 + 492) (0 + 492) 532 d2);
    cbn [FAT.hsd SD.initialized SD.card SD.issue]; try lia; auto.
  - replace (20 + n * 1024 + 492) with ((2 * n + 1) * 512) by lia.
    rewrite Z_div_mult by lia. exact Hd2.
  - replace (20 + n * 1024 + 492) with ((2 * n + 1) * 512) by lia.
    apply Z_mod_mult.
Qed.

Lemma read_frame_truncated_stuck_witness :
  Media_ReadFrameAt 1000 truncated_media 0 (repeat 0 1024) = None.
Proof.
  apply (read_frame_truncated_stuck 1000 truncated_media
           (FAT.sample_volume FAT.fat_contiguous) 0 (repeat 0 1024)
           (repeat 56 512) (repeat 57 512)); try reflexivity; simpl; lia.
Defined.












Lemma contiguous_walk_eq : forall fuel v cluster prev count E,
  contiguous_walk fuel v cluster prev count E
  = if FAT.FAT_IsEndOfChain cluster then Some (true, v)
    else
      match fuel with
      | O => None
      | S fuel' =>
          let count := u32 (count + 1) in
          if (1 <? count) && negb (cluster =? u32 (prev + 1)) then Some (false, v)
          else
            let prev := cluster in
            let '(cluster, v) := FAT.FAT_GetNextCluster v cluster in
            if u32 (E + 10) <? count then Some (true, v)
            else contiguous_walk fuel' v cluster prev count E
      end.
Proof. intros [] *; reflexivity. Qed.

Lemma contiguous_walk_keeps : forall fuel v cluster prev count E b v',
  contiguous_walk fuel v cluster prev count E = Some (b, v') -> FAT.same_fat v v'.
Proof.
  induction fuel as [| fuel IH]; intros v cluster prev count E b v';
    rewrite contiguous_walk_eq;
    (destruct (FAT.FAT_IsEndOfChain cluster);
      [intros [= <- <-]; apply same_fat_refl|]); [discriminate|].
  cbv zeta.
  destruct ((1 <? u32 (count + 1)) && negb (cluster =? u32 (prev + 1)));
    [intros [= <- <-]; apply same_fat_refl|].
  pose proof (next_cluster_keeps v cluster) as [Ks _].
  destruct (FAT.FAT_GetNextCluster v cluster) as [next v1]. simpl in Ks.
  destruct (u32 (E + 10) <? u32 (count + 1)).
  - intros [= <- <-]. exact Ks.
  - intros R. apply IH in R. eapply same_fat_trans; eauto.
Qed.

(** The safety limit ends the walk, whatever the chain. *)
Lemma contiguous_walk_total : forall fuel v cluster prev count E,
  0 <= E -> E + 11 < 2 ^ 32 -> 0 <= count <= E + 10 ->
  (Z.to_nat (E + 11 - count) <= fuel)%nat ->
  exists r, contiguous_walk fuel v cluster prev count E = Some r.
Proof.
  induction fuel as [| fuel IH]; intros v cluster prev count E HE HE' Hc Hfuel;
    [lia|].
  destruct (FAT.FAT_IsEndOfChain cluster) eqn:End.
  - rewrite contiguous_walk_end by exact End. eexists; reflexivity.
  - rewrite contiguous_walk_turn by auto.
    destruct ((1 <? count + 1) && negb (cluster =? u32 (prev + 1)));
      [eexists; reflexivity|].
    destruct (Z.ltb_spec (E + 10) (count + 1)); [eexists; reflexivity|].
    apply IH; lia.
Qed.

(** X22.  [Media_Open] on a mounted volume whose header sector reads: the
    call returns FAT_OK within [expected_clusters + 11] turns of the
    contiguity walk, whatever the FAT holds; the handle is open at
    position 0 with volume 50, its five header fields are the
    little-endian words of the first 20 bytes of the file's first
    sector, the video starts at byte 20 and the audio after
    [frame_count] frames of 1024 bytes (in 32-bit arithmetic); and the
    fast path, when enabled, starts at the sector of the first cluster. *)
Theorem open_ok : forall fuel media v fi,
  FAT.mounted v = true ->
  let sector := FAT.FAT_ClusterToSector v (FAT.first_cluster fi) in
  let cs := FAT.FAT_GetClusterSize (Some v) in
  SD.is_ok (fst (FAT.read_sector v sector)) = true ->
  (Z.to_nat (u32 (FAT.size fi + cs - 1) / cs) + 11 <= fuel)%nat ->
  exists m',
    Media_Open fuel media (Some v) (Some fi) = Some (FAT.FAT_OK, m') /\
    let hdr := slice (FAT.sector_buffer (snd (FAT.read_sector v sector))) 0 20 in
    is_open m' = true /\
    first_cluster m' = FAT.first_cluster fi /\ file_size m' = FAT.size fi /\
    frame_count m' = Read32LE hdr 0 /\ audio_size m' = Read32LE hdr 4 /\
    sample_rate m' = Read32LE hdr 8 /\ channels m' = Read32LE hdr 12 /\
    bits_per_sample m' = Read32LE hdr 16 /\
    video_offset m' = 20 /\
    audio_offset m' = u32 (20 + u32 (frame_count m' * 1024)) /\
    current_frame m' = 0 /\ current_sample m' = 0 /\ volume_percent m' = 50 /\
    (is_contiguous m' = true ->
     first_sector m' = sector /\ cached_cluster m' = FAT.first_cluster fi /\
     cached_cluster_index m' = 0) /\
    (is_contiguous m' = false -> first_sector m' = 0) /\
    exists v', vol m' = Some v' /\ FAT.same_fat v v'.
Proof.
  intros fuel media v fi Hm sector cs Hok Hfuel.
  unfold Media_Open. rewrite Hm. cbn [negb]. cbv iota zeta. fold sector.
  pose proof (read_sector_keeps v sector) as [Ks _].
  destruct (FAT.read_sector v sector) as [st v1]. cbn [fst snd] in *.
  rewrite Hok. cbn [negb]. cbv iota.
  change MEDIA_HEADER_SIZE with 20. change MEDIA_FRAME_SIZE with 1024.
  change MEDIA_DEFAULT_VOLUME with 50.
  set (hdr := slice (FAT.sector_buffer v1) 0 20).
  unfold Media_CheckContiguous. cbn [is_open vol negb]. cbv iota zeta.
  assert (Ecs : FAT.FAT_GetClusterSize (Some v1) = cs).
  { subst cs. unfold FAT.FAT_GetClusterSize.
    destruct Ks as (K1 & K2 & _). now rewrite <- K1, <- K2. }
  rewrite Ecs.
  destruct (Z.eqb_spec cs 0) as [Ez | Ez].
  { eexists. split; [reflexivity|]. cbn.
    repeat split; try reflexivity; try discriminate.
    exists v1. split; [reflexivity | exact Ks]. }
  destruct (cluster_size_bounds v Ez) as (_ & Hcs).
  fold cs in Hcs.
  match goal with
  | |- context [contiguous_walk fuel v1 ?c ?p 0 ?X] => set (E := X)
  end.
  assert (HE : 0 <= E /\ E + 11 < 2 ^ 32)
    by (subst E; apply expected_clusters_bounds; lia).
  assert (EE : E = u32 (FAT.size fi + cs - 1) / cs) by reflexivity.
  match goal with
  | |- context [contiguous_walk fuel v1 ?c ?p 0 E] =>
      destruct (contiguous_walk_total fuel v1 c p 0 E) as ([b v2] & W);
        [lia | lia | lia | lia |]
  end.
  rewrite W.
  pose proof (contiguous_walk_keeps _ _ _ _ _ _ _ _ W) as K2.
  assert (K : FAT.same_fat v v2) by (eapply same_fat_trans; eauto).
  destruct b.
  - eexists. split; [reflexivity|]. cbn.
    repeat split; try reflexivity; try discriminate.
    + subst sector. apply cluster_to_sector_same. exact K.
    + exists v2. split; [reflexivity | exact K].
  - eexists. split; [reflexivity|]. cbn.
    repeat split; try reflexivity; try discriminate.
    exists v2. split; [reflexivity | exact K].
Qed.

Lemma open_ok_witness :
  exists m',
    Media_Open 20 zero_media (Some FAT.image_volume)
      (Some (FAT.mkFileInfo 3 3000 32)) = Some (FAT.FAT_OK, m') /\
    is_open m' = true /\ file_size m' = 3000 /\ video_offset m' = 20 /\
    is_contiguous m' = true /\ first_sector m' = 2097.
Proof.
  destruct (open_ok 20 zero_media FAT.image_volume (FAT.mkFileInfo 3 3000 32)
              eq_refl ltac:(vm_compute; reflexivity) ltac:(vm_compute; lia))
    as (m' & E & Ho & _ & Hs & _ & _ & _ & _ & _ & Hv & _ & _ & _ & _ & Hc & _).
  exists m'. split; [exact E|].
  assert (P : match Media_Open 20 zero_media (Some FAT.image_volume)
                      (Some (FAT.mkFileInfo 3 3000 32)) with
              | Some (_, m) => is_contiguous m = true
              | None => False
              end) by (vm_compute; reflexivity).
  rewrite E in P. destruct (Hc P) as (Hf & _).
  repeat split; auto.
Defined.


Lemma read_audio_total : forall fuel media scratch left right count,
  0 <= count < 2 ^ 32 -> 0 <= audio_size media < 2 ^ 32 ->
  0 <= current_sample media < 2 ^ 32 -> file_size media < 2 ^ 32 ->
  8192 <= Z.of_nat fuel ->
  is_contiguous media && negb (first_sector media =? 0) = false \/
  (vol media <> None /\ 0 <= audio_offset media /\
   audio_offset media + audio_size media <= file_size media) ->
  exists r, Media_ReadAudioStereo fuel media scratch left right count = Some r.
Proof.
  intros fuel media scratch left right count Hc Ha Hcur Hf Hfuel Hpath.
  unfold Media_ReadAudioStereo.
  destruct (is_open media); cbn [negb]; cbv iota; [|eexists; reflexivity].
  change MAX_AUDIO_READ_SAMPLES with 2048.
  replace (if 2048 <? count then 2048 else count) with (Z.min count 2048)
    by (destruct (Z.ltb_spec 2048 count); lia).
  set (n := Z.min count 2048). cbv zeta.
  assert (Hn : 0 <= n <= 2048) by (subst n; lia).
  set (total := audio_size media / 4).
  assert (Ht : 0 <= total < 2 ^ 32 /\ 4 * total <= audio_size media).
  { subst total. split; [split; [apply Z.div_pos; lia|]|].
    - apply Z.div_lt_upper_bound; lia.
    - apply Z.mul_div_le. lia. }
  destruct (Z.leb_spec total (current_sample media)) as [Hend | Hmore];
    [eexists; reflexivity|].
  rewrite (u32_small (total - current_sample media)) by lia.
  set (to_read := if n <? total - current_sample media
                  then n else total - current_sample media).
  assert (Htr : to_read = Z.min n (total - current_sample media))
    by (subst to_read; destruct (Z.ltb_spec n (total - current_sample media));
        lia).
  rewrite (u32_small (to_read * 4)) by lia.
  rewrite (u32_small (current_sample media * 4)) by lia.
  destruct (read_at_total fuel media
              (u32 (audio_offset media + current_sample media * 4))
              scratch 0 (to_read * 4)) as (st & m1 & s1 & R);
    [apply u32_range | exact Hf | lia | lia | lia | |].
  { destruct Hpath as [Hp | (Hv & Ho & Hin)]; [now left|].
    right. split; [exact Hv|]. rewrite u32_small by lia. lia. }
  rewrite R. destruct st; try (eexists; reflexivity).
  destruct (convert_loop _ _ _ _ _ _). eexists; reflexivity.
Qed.

(** X23.  [Media_ReadAudioStereo] returns: on the cluster-chain path
    always, on the fast path when the audio section announced by the
    header lies inside the file; at most 8192 turns of the read loop are
    needed for the at most 2048 samples of a call. *)
Theorem read_audio_stereo_returns : forall fuel media scratch left right count,
  0 <= count < 2 ^ 32 -> 0 <= audio_size media < 2 ^ 32 ->
  0 <= current_sample media < 2 ^ 32 -> file_size media < 2 ^ 32 ->
  8192 <= Z.of_nat fuel ->
  is_contiguous media && negb (first_sector media =? 0) = false \/
  (vol media <> None /\ 0 <= audio_offset media /\
   audio_offset media + audio_size media <= file_size media) ->
  exists r, Media_ReadAudioStereo fuel media scratch left right count = Some r.
Proof. exact read_audio_total. Qed.

Lemma read_audio_stereo_returns_witness :
  exists r,
    Media_ReadAudioStereo (Z.to_nat 8192) contiguous_media (repeat 0 (Z.to_nat 8192))
      (repeat 0 2048) (repeat 0 2048) 2048 = Some r.
Proof.
  apply read_audio_stereo_returns;
    [lia | simpl; lia | simpl; lia | simpl; lia | lia |].
  right. split; [discriminate | simpl; lia].
Defined.

End ReadPath.

(** ** The foreground: audio refill and frame rendering *)

Section Playback.
Import Media Main.




Lemma sample_player_ok :
  buffers_ok sample_player /\ media_words (g_media sample_player).
Proof.
  split.
  - split; [vm_compute; reflexivity|]. split; [vm_compute; reflexivity|].
    split; [reflexivity|]. repeat constructor.
  - unfold media_words. simpl. lia.
Qed.


Lemma nth_list_set_any : forall (A : Type) (l : list A) i j x d,
  nth j (list_set l i x) d
  = if ((j =? i) && (i <? length l))%nat then x else nth j l d.
Proof.
  induction l as [| h t IH]; intros i j x d.
  - simpl. destruct j; rewrite andb_false_r; reflexivity.
  - destruct i, j; simpl; try reflexivity.
    rewrite IH. reflexivity.
Qed.

Lemma fill_range_all : forall (buf : list Z) x,
  fill_range buf 0 (length buf) x = repeat x (length buf).
Proof.
  intros buf x. apply (nth_ext _ _ x x).
  - now rewrite fill_range_length, repeat_length.
  - intros j Hj. rewrite fill_range_length in Hj.
    rewrite nth_fill_range, nth_repeat.
    destruct (Nat.ltb_spec j (0 + length buf)), (Nat.ltb_spec j (length buf));
      simpl; try reflexivity; lia.
Qed.

Lemma roles_in_range : forall g,
  Display.roles_distinct g ->
  (0 <= Display.render g <= 2 /\ 0 <= Display.ready g <= 2 /\
   0 <= Display.transfer g <= 2) /\
  Display.render g <> Display.ready g /\
  Display.ready g <> Display.transfer g /\
  Display.render g <> Display.transfer g.
Proof.
  intros g H. unfold Display.roles_distinct in H.
  split; [|now apply permutation_012_distinct].
  assert (In3 : forall x, In x [Display.render g; Display.ready g;
                                Display.transfer g] -> 0 <= x <= 2).
  { intros x Hx. apply (Permutation_in _ H) in Hx. simpl in Hx.
    destruct Hx as [<- | [<- | [<- | []]]]; lia. }
  repeat split; apply In3; simpl; auto.
Qed.

Lemma read_frame_returned : forall fuel media n buffer st m' b',
  file_size media < 2 ^ 32 ->
  Media_ReadFrameAt fuel media n buffer = Some (st, m', b') ->
  length b' = length buffer /\ same_file media m'.
Proof.
  intros fuel media n buffer st m' b' Hf. unfold Media_ReadFrameAt.
  destruct (negb (is_open media));
    [intros [= <- <- <-]; split; [reflexivity | apply same_file_refl]|].
  destruct (frame_count media <=? n);
    [intros [= <- <- <-]; split; [reflexivity | apply same_file_refl]|].
  cbv zeta. change MEDIA_FRAME_SIZE with 1024. intros R.
  destruct (read_at_returned fuel media
              (u32 (video_offset media + u32 (n * 1024))) buffer 0 1024
              st m' b') as ((L & _) & F & _);
    [apply u32_range | exact Hf | lia | lia | exact R |].
  split; assumption.
Qed.

(** X25.  [RenderVideoFrame] works in the render slot alone.  It returns
    exactly when the frame read does; the framebuffers in the ready and
    transfer roles, the second of which the display DMA may be sending,
    keep their contents; the render slot holds the frame read, or 1024
    zero bytes when the read was refused or failed, and becomes the ready
    slot; the three roles still hold the three slots; and the audio
    buffers, the audio handle and the scratch array are untouched. *)
Theorem render_frame_slot : forall fuel p n,
  buffers_ok p -> media_words (g_media p) ->
  Display.roles_distinct (g_display_buffers p) ->
  let g := g_display_buffers p in
  let slot := fun (q : Player) (r : Z) => nth (Z.to_nat r) (g_framebuffer q) [] in
  match Media_ReadFrameAt fuel (g_media p) n (slot p (Display.render g)) with
  | None => RenderVideoFrame fuel p n = None
  | Some (st, m, b) =>
      exists p',
        RenderVideoFrame fuel p n = Some p' /\
        slot p' (Display.transfer g) = slot p (Display.transfer g) /\
        slot p' (Display.ready g) = slot p (Display.ready g) /\
        slot p' (Display.render g)
        = (if is_fat_ok st then b else repeat 0 (Z.to_nat FRAMEBUFFER_SIZE)) /\
        Display.ready (g_display_buffers p') = Display.render g /\
        Display.render (g_display_buffers p') = Display.ready g /\
        Display.transfer (g_display_buffers p') = Display.transfer g /\
        Display.roles_distinct (g_display_buffers p') /\
        buffers_ok p' /\ same_file (g_media p) (g_media p') /\
        g_audio p' = g_audio p /\ s_audio_buffer p' = s_audio_buffer p /\
        s_dma_buffer_left p' = s_dma_buffer_left p /\
        s_dma_buffer_right p' = s_dma_buffer_right p
  end.
Proof.
  intros fuel p n (Bl & Br & B3 & Bf) (_ & _ & Wf & _) Hr g slot.
  destruct (roles_in_range g Hr) as ((R1 & R2 & R3) & D1 & D2 & D3).
  unfold RenderVideoFrame, Display_GetRenderBuffer. fold g. cbv zeta.
  change (nth (Z.to_nat (Display.render g)) (g_framebuffer p) [])
    with (slot p (Display.render g)).
  destruct (Media_ReadFrameAt fuel (g_media p) n (slot p (Display.render g)))
    as [[[st m] b] |] eqn:R; [|reflexivity].
  destruct (read_frame_returned _ _ _ _ _ _ _ (proj2 Wf) R) as (L & F).
  assert (Lr : Z.of_nat (length (slot p (Display.render g))) = FRAMEBUFFER_SIZE).
  { rewrite Forall_forall in Bf. apply Bf. apply nth_In. lia. }
  set (nb := if negb (is_fat_ok st)
             then fill_range b 0 (Z.to_nat FRAMEBUFFER_SIZE) 0 else b).
  assert (Lnb : Z.of_nat (length nb) = FRAMEBUFFER_SIZE).
  { subst nb. destruct (negb (is_fat_ok st));
      [rewrite fill_range_length|]; lia. }
  assert (Enb : nb = if is_fat_ok st then b
                     else repeat 0 (Z.to_nat FRAMEBUFFER_SIZE)).
  { subst nb. destruct (is_fat_ok st); [reflexivity|]. cbn [negb].
    replace (Z.to_nat FRAMEBUFFER_SIZE) with (length b) by lia.
    apply fill_range_all. }
  eexists. split; [reflexivity|].
  unfold slot.
  cbn [g_framebuffer g_display_buffers g_audio g_media s_audio_buffer
       s_dma_buffer_left s_dma_buffer_right].
  rewrite !nth_list_set_any.
  replace (Z.to_nat (Display.transfer g) =? Z.to_nat (Display.render g))%nat
    with false by (symmetry; apply Nat.eqb_neq; lia).
  replace (Z.to_nat (Display.ready g) =? Z.to_nat (Display.render g))%nat
    with false by (symmetry; apply Nat.eqb_neq; lia).
  rewrite Nat.eqb_refl.
  replace (Z.to_nat (Display.render g) <? length (g_framebuffer p))%nat
    with true by (symmetry; apply Nat.ltb_lt; lia).
  cbn [andb].
  split; [reflexivity|]. split; [reflexivity|]. split; [exact Enb|].
  split; [reflexivity|]. split; [reflexivity|]. split; [reflexivity|].
  split; [apply (step_keeps_roles g Display.Op_SwapBuffers Hr)|].
  split.
  - unfold buffers_ok.
    cbn [g_framebuffer s_dma_buffer_left s_dma_buffer_right].
    split; [exact Bl|]. split; [exact Br|].
    split; [now rewrite list_set_length|].
    rewrite Forall_forall in *. intros x Hx.
    destruct (In_nth _ _ [] Hx) as (j & Hj & <-).
    rewrite list_set_length in Hj. rewrite nth_list_set_any.
    destruct ((j =? Z.to_nat (Display.render g))
              && (Z.to_nat (Display.render g) <? length (g_framebuffer p)))%nat;
      [exact Lnb | apply Bf, nth_In, Hj].
  - repeat split; auto.
Qed.

Lemma sample_player_roles :
  Display.roles_distinct (g_display_buffers sample_player).
Proof.
  unfold Display.roles_distinct. simpl. apply perm_skip, perm_swap.
Qed.

Lemma render_frame_slot_witness :
  match RenderVideoFrame 1024 sample_player 12 with
  | Some p' =>
      nth 0 (g_framebuffer p') [] = repeat 0 1024 /\
      nth 1 (g_framebuffer p') [] = repeat 2 1024 /\
      nth 2 (g_framebuffer p') [] = repeat 3 1024 /\
      Display.ready (g_display_buffers p') = 0
  | None => False
  end.
Proof.
  pose proof (render_frame_slot 1024 sample_player 12 (proj1 sample_player_ok)
                (proj2 sample_player_ok) sample_player_roles) as H.
  cbv beta zeta in H.
  assert (E0 : Media_ReadFrameAt 1024 (g_media sample_player) 12
                 (nth (Z.to_nat (Display.render (g_display_buffers sample_player)))
                    (g_framebuffer sample_player) [])
               = Some (FAT.FAT_ERROR_INVALID_PARAM, g_media sample_player,
                       repeat 1 1024)) by reflexivity.
  rewrite E0 in H.
  destruct H as (p' & E & Ht & Hrd & Hrn & Hready & _).
  rewrite E. split; [exact Hrn|]. split; [exact Ht|]. split; [exact Hrd|].
  exact Hready.
Defined.

End Playback.

(** ** FAT_ConvertFilename on [name.ext] *)

Section ShortNames.
Import FAT.

Lemma list_set_middle : forall (A : Type) (done : list A) t todo x,
  list_set (done ++ t :: todo) (length done) x = (done ++ [x]) ++ todo.
Proof.
  induction done as [| h d IH]; intros t todo x; simpl; [reflexivity|].
  f_equal. apply IH.
Qed.

(** The name loop followed by the skip loop: the first [8 - o] characters
    of the name are stored upper-cased, the rest of the name is passed
    over. *)
Lemma copy_name_spec : forall name rest done todo,
  forallb name_char name = true -> stops_here rest ->
  (8 - length done <= length todo)%nat ->
  let r := copy_name (string_of_list_ascii (name ++ rest)) (length done)
             (done ++ todo) in
  skip_to_dot (fst r) = string_of_list_ascii rest /\
  snd r = done ++ map toupper (firstn (8 - length done) name)
          ++ skipn (Nat.min (8 - length done) (length name)) todo.
Proof.
  induction name as [| c name IH]; intros rest done todo Hn Hr Hl r.
  - subst r. cbn [app]. rewrite firstn_nil, Nat.min_0_r. cbn [map skipn app].
    destruct rest as [| c rest]; cbn [string_of_list_ascii copy_name skip_to_dot fst snd];
      [split; reflexivity|].
    cbn [stops_here] in Hr. rewrite Hr. cbn [orb fst snd skip_to_dot].
    rewrite Hr. split; reflexivity.
  - simpl in Hn. apply andb_prop in Hn. destruct Hn as [Hc Hn].
    unfold name_char in Hc. apply andb_prop in Hc. destruct Hc as [H1 H2].
    apply negb_true_iff in H1, H2.
    subst r. cbn [app string_of_list_ascii copy_name].
    rewrite H1, H2. cbn [orb].
    destruct (Nat.ltb_spec (length done) 8) as [Ho | Ho]; cbn [negb].
    + destruct todo as [| t todo]; [cbn [length] in Hl; lia|].
      rewrite list_set_middle.
      specialize (IH rest (done ++ [toupper c]) todo Hn Hr).
      rewrite length_app in IH. simpl length in IH.
      replace (length done + 1)%nat with (S (length done)) in IH by lia.
      destruct IH as (I1 & I2); [cbn [length] in Hl; lia|].
      split; [exact I1|]. rewrite I2.
      replace (8 - length done)%nat with (S (8 - S (length done))) by lia.
      cbn [firstn map Nat.min skipn length]. rewrite <- app_assoc. reflexivity.
    + replace (8 - length done)%nat with 0%nat by lia.
      cbn [firstn map Nat.min skipn app fst snd].
      split; [|reflexivity].
      cbn [skip_to_dot]. rewrite H1, H2. cbn [orb].
      clear - Hn Hr. induction name as [| d name IH]; simpl.
      * destruct rest as [| e rest]; simpl in *; [reflexivity|]. now rewrite Hr.
      * simpl in Hn. apply andb_prop in Hn. destruct Hn as [Hd Hn].
        unfold name_char in Hd. apply andb_prop in Hd. destruct Hd as [D1 D2].
        apply negb_true_iff in D1, D2. rewrite D1, D2. simpl. now apply IH.
Qed.

Lemma copy_ext_spec : forall ext done todo,
  forallb (fun c => negb (is_nul c)) ext = true ->
  (11 - length done <= length todo)%nat ->
  copy_ext (string_of_list_ascii ext) (length done) (done ++ todo)
  = done ++ map toupper (firstn (11 - length done) ext)
    ++ skipn (Nat.min (11 - length done) (length ext)) todo.
Proof.
  induction ext as [| c ext IH]; intros done todo He Hl.
  - rewrite firstn_nil, Nat.min_0_r. reflexivity.
  - simpl in He. apply andb_prop in He. destruct He as [Hc He].
    apply negb_true_iff in Hc.
    cbn [string_of_list_ascii copy_ext]. rewrite Hc. cbn [orb].
    destruct (Nat.ltb_spec (length done) 11) as [Ho | Ho]; cbn [negb].
    + destruct todo as [| t todo]; [cbn [length] in Hl; lia|].
      rewrite list_set_middle.
      specialize (IH (done ++ [toupper c]) todo He).
      rewrite length_app in IH. simpl length in IH.
      replace (length done + 1)%nat with (S (length done)) in IH by lia.
      rewrite IH by (cbn [length] in Hl; lia).
      replace (11 - length done)%nat with (S (11 - S (length done))) by lia.
      cbn [firstn map Nat.min skipn length]. rewrite <- app_assoc. reflexivity.
    + replace (11 - length done)%nat with 0%nat by lia. reflexivity.
Qed.

Lemma skipn_repeat_n : forall (A : Type) (x : A) n k,
  skipn k (repeat x n) = repeat x (n - k).
Proof.
  intros A x. induction n as [| n IH]; intros k.
  - now rewrite skipn_nil.
  - destruct k; [reflexivity|]. apply IH.
Qed.

(** What the three loops leave of [name ++ rest], where [rest] is empty
    or [.ext]. *)
Lemma convert_parts : forall name rest ext,
  forallb name_char name = true ->
  forallb (fun c => negb (is_nul c)) ext = true ->
  rest = [] /\ ext = [] \/ rest = "."%char :: ext ->
  FAT_ConvertFilename (string_of_list_ascii (name ++ rest)) name_buffer
  = short_name name ext.
Proof.
  intros name rest ext Hn He Hrest.
  assert (Hstop : stops_here rest)
    by (destruct Hrest as [(-> & _) | ->]; [exact I | reflexivity]).
  assert (Hskip : skip_dot (string_of_list_ascii rest) = string_of_list_ascii ext)
    by (destruct Hrest as [(-> & ->) | ->]; reflexivity).
  unfold FAT_ConvertFilename, FAT_MAX_FILENAME.
  change (memset name_buffer " "%char 11) with ([] ++ repeat " "%char 11).
  pose proof (copy_name_spec name rest [] (repeat " "%char 11) Hn Hstop) as S.
  cbn [length] in S. rewrite repeat_length in S.
  specialize (S ltac:(lia)). cbv zeta in S.
  destruct (copy_name (string_of_list_ascii (name ++ rest)) 0
              ([] ++ repeat " "%char 11)) as [inp out].
  cbn [fst snd] in S. destruct S as (S1 & S2).
  rewrite S1, Hskip. subst out. cbn [app].
  rewrite Nat.sub_0_r, skipn_repeat_n.
  set (k := Nat.min 8 (length name)).
  replace (11 - k)%nat with ((8 - k) + 3)%nat by lia.
  rewrite repeat_app, app_assoc.
  set (done := map toupper (firstn 8 name) ++ repeat " "%char (8 - k)).
  assert (Ld : length done = 8%nat).
  { subst done. rewrite length_app, length_map, length_firstn, repeat_length.
    subst k. lia. }
  pose proof (copy_ext_spec ext done (repeat " "%char 3) He) as E.
  rewrite Ld in E. rewrite E by (rewrite repeat_length; lia).
  unfold short_name, pad_to. subst done.
  rewrite !firstn_map, !length_map, skipn_repeat_n.
  replace (11 - 8)%nat with 3%nat by lia.
  replace (8 - k)%nat with (8 - length name)%nat by (subst k; lia).
  replace (3 - Nat.min 3 (length ext))%nat with (3 - length ext)%nat by lia.
  reflexivity.
Qed.

(** X26.  [FAT_ConvertFilename] on [name.ext] and on a name without a
    dot: the name part is upper-cased, cut to 8 characters and padded
    with spaces, the extension likewise to 3; what exceeds either width
    is dropped, and without a dot the extension is three spaces. *)
Theorem convert_name_ext : forall name ext,
  forallb name_char name = true ->
  forallb (fun c => negb (is_nul c)) ext = true ->
  FAT_ConvertFilename (string_of_list_ascii (name ++ "."%char :: ext)) name_buffer
  = short_name name ext /\
  FAT_ConvertFilename (string_of_list_ascii name) name_buffer
  = short_name name [] /\
  length (short_name name ext) = 11%nat.
Proof.
  intros name ext Hn He. split; [|split].
  - apply convert_parts; auto.
  - rewrite <- (app_nil_r name) at 1. apply convert_parts; auto.
  - unfold short_name, pad_to.
    rewrite !length_app, !length_firstn, !repeat_length, !length_map. lia.
Qed.

Lemma convert_name_ext_witness :
  FAT_ConvertFilename "readme-long.text" name_buffer
  = list_ascii_of_string "README-LTEX" /\
  FAT_ConvertFilename "a" name_buffer = list_ascii_of_string "A          ".
Proof.
  destruct (convert_name_ext (list_ascii_of_string "readme-long")
              (list_ascii_of_string "text") eq_refl eq_refl) as (H1 & _).
  destruct (convert_name_ext (list_ascii_of_string "a") [] eq_refl eq_refl)
    as (_ & H2 & _).
  split; [exact H1 | exact H2].
Defined.

End ShortNames.
